(** * Static code quality analysis engine (mcp_servers/code_quality_server.py)

    A shallow embedding of [CodeQualityAnalyzer]: the issue model, the board
    registry, the five detection rules, the memory estimator, the weighted
    score and the report aggregation, followed by the properties of the
    specification that concern them.

    Conventions of the embedding.
    - A Python [str] is a [string]: a sequence of code points, here the code
      points U+0000..U+00FF that [ascii] holds.  The predicates behind the
      regular-expression classes [\s], [\w] and [\d] are those of CPython for
      that range.
    - A Python [int] is a [Z]; a Python [float] is a binary64 number, a
      [spec_float] operated on by the IEEE 754 operations of [SpecFloat] at
      precision 53 and maximal exponent 1024.
    - The analyzer object is a record of its four attributes; its methods are
      computations in a state-and-exception monad over that record.
    - Resource limits of the interpreter (memory, the optional limit on the
      length of a decimal string given to [int]) are outside the model. *)

From Stdlib Require Import ZArith QArith Ascii String Floats.SpecFloat.
From stdpp Require Import base option list gmap strings pretty.

Local Open Scope string_scope.
Local Open Scope list_scope.
Local Open Scope Z_scope.

(** ** Strings *)

Module Str.

(** [sub in s] *)
Fixpoint contains (sub s : string) : bool :=
  String.prefix sub s ||
  match s with
  | EmptyString => false
  | String _ s' => contains sub s'
  end.

(** Scan of [s.count(sub)] for a non-empty [sub]: occurrences are counted
    from the left and do not overlap; [skip] is the number of characters
    still covered by the occurrence counted last. *)
Fixpoint count_from (sub : string) (skip : nat) (s : string) : nat :=
  match s with
  | EmptyString => 0
  | String _ s' =>
      match skip with
      | S n => count_from sub n s'
      | O =>
          if String.prefix sub s
          then S (count_from sub (Nat.pred (String.length sub)) s')
          else count_from sub 0 s'
      end
  end.

(** [s.count(sub)] *)
Definition count (sub s : string) : Z :=
  match sub with
  | EmptyString => Z.of_nat (S (String.length s))
  | _ => Z.of_nat (count_from sub 0 s)
  end.

(** [s.split(sep)] for a one-character separator *)
Fixpoint split (sep : ascii) (s : string) : list string :=
  match s with
  | EmptyString => [ EmptyString ]
  | String a s' =>
      if Ascii.eqb a sep then EmptyString :: split sep s'
      else match split sep s' with
           | h :: t => String a h :: t
           | [] => [ String a EmptyString ]
           end
  end.

(** [len(s)] *)
Definition len (s : string) : Z := Z.of_nat (String.length s).

(** [sep.join(l)] *)
Fixpoint join (sep : string) (l : list string) : string :=
  match l with
  | [] => ""
  | [ x ] => x
  | x :: l' => x +:+ sep +:+ join sep l'
  end.

Definition lower_ascii (a : ascii) : ascii :=
  let n := N_of_ascii a in
  if ((65 <=? n) && (n <=? 90))%N then ascii_of_N (n + 32) else a.

Definition upper_ascii (a : ascii) : ascii :=
  let n := N_of_ascii a in
  if ((97 <=? n) && (n <=? 122))%N then ascii_of_N (n - 32) else a.

Fixpoint lower (s : string) : string :=
  match s with
  | EmptyString => EmptyString
  | String a s' => String (lower_ascii a) (lower s')
  end.

(** [s.capitalize()], for the ASCII texts it is applied to *)
Definition capitalize (s : string) : string :=
  match s with
  | EmptyString => EmptyString
  | String a s' => String (upper_ascii a) (lower s')
  end.

(** The [n] first characters of [s] *)
Fixpoint take (n : nat) (s : string) : string :=
  match n, s with
  | S n', String a s' => String a (take n' s')
  | _, _ => EmptyString
  end.

End Str.

(** ** Regular expressions

    The patterns of the analyzer use literals, greedy repetitions of a
    character class, sequence, alternation, one optional non-capturing group,
    at most one capturing group and [^] under [re.MULTILINE].  [rmatch] is a
    backtracking matcher with the priorities of Python's [re]: a repetition
    takes as many characters as it can and gives them back one at a time, an
    alternation tries its left branch first. *)

Module Re.

Inductive cclass :=
| c_space              (* \s *)
| c_word               (* \w *)
| c_digit              (* \d *)
| c_not (a : ascii).   (* [^a] *)

Inductive regex :=
| r_lit (s : string)
| r_many (c : cclass) (min : nat)      (* c{min,} *)
| r_seq (r1 r2 : regex)
| r_alt (r1 r2 : regex)
| r_opt (r : regex)                    (* (?:r)? *)
| r_group (r : regex)                  (* (r) *)
| r_bol.                               (* ^ with re.MULTILINE *)

Fixpoint r_cat (l : list regex) : regex :=
  match l with
  | [] => r_lit ""
  | [ r ] => r
  | r :: l' => r_seq r (r_cat l')
  end.

(** Unicode white space below U+0100 *)
Definition is_space (a : ascii) : bool :=
  let n := N_of_ascii a in
  (((9 <=? n) && (n <=? 13)) || ((28 <=? n) && (n <=? 32))
   || (n =? 133) || (n =? 160))%N.

(** Unicode decimal digits below U+0100 *)
Definition is_digit (a : ascii) : bool :=
  let n := N_of_ascii a in ((48 <=? n) && (n <=? 57))%N.

(** Unicode alphanumerics below U+0100, and the underscore *)
Definition is_word (a : ascii) : bool :=
  let n := N_of_ascii a in
  (((48 <=? n) && (n <=? 57)) || ((65 <=? n) && (n <=? 90))
   || ((97 <=? n) && (n <=? 122)) || (n =? 95)
   || (n =? 170) || (n =? 178) || (n =? 179) || (n =? 181)
   || (n =? 185) || (n =? 186) || ((188 <=? n) && (n <=? 190))
   || ((192 <=? n) && (n <=? 214)) || ((216 <=? n) && (n <=? 246))
   || (248 <=? n))%N.

Definition in_class (c : cclass) (a : ascii) : bool :=
  match c with
  | c_space => is_space a
  | c_word => is_word a
  | c_digit => is_digit a
  | c_not b => negb (Ascii.eqb a b)
  end.

(** The matcher threads the character before the position ([None] at the
    start of the text), the text from the position on, and the text of the
    capturing group when it has taken part. *)
Fixpoint lit_match (p : string) (prev : option ascii) (s : string)
  : option (option ascii * string) :=
  match p with
  | EmptyString => Some (prev, s)
  | String a p' =>
      match s with
      | String b s' => if Ascii.eqb a b then lit_match p' (Some b) s' else None
      | EmptyString => None
      end
  end.

Fixpoint many_match {A} (c : cclass) (prev : option ascii) (s : string)
  (min : nat) (k : option ascii → string → option A) : option A :=
  let stop := match min with O => k prev s | S _ => None end in
  match s with
  | String a s' =>
      if in_class c a then
        match many_match c (Some a) s' (Nat.pred min) k with
        | Some x => Some x
        | None => stop
        end
      else stop
  | EmptyString => stop
  end.

Definition consumed (s s' : string) : string :=
  Str.take (String.length s - String.length s') s.

Fixpoint rmatch {A} (r : regex) (prev : option ascii) (s : string)
  (g : option string)
  (k : option ascii → string → option string → option A) : option A :=
  match r with
  | r_lit p =>
      match lit_match p prev s with
      | Some (prev', s') => k prev' s' g
      | None => None
      end
  | r_many c min => many_match c prev s min (λ prev' s', k prev' s' g)
  | r_seq r1 r2 =>
      rmatch r1 prev s g (λ prev' s' g', rmatch r2 prev' s' g' k)
  | r_alt r1 r2 =>
      match rmatch r1 prev s g k with
      | Some x => Some x
      | None => rmatch r2 prev s g k
      end
  | r_opt r1 =>
      match rmatch r1 prev s g k with
      | Some x => Some x
      | None => k prev s g
      end
  | r_group r1 =>
      rmatch r1 prev s g (λ prev' s' _, k prev' s' (Some (consumed s s')))
  | r_bol =>
      match prev with
      | None => k prev s g
      | Some c => if Ascii.eqb c "010"%char then k prev s g else None
      end
  end.

(** A match at the position: the text after it and the group *)
Definition match_here (r : regex) (prev : option ascii) (s : string)
  : option (string * option string) :=
  rmatch r prev s None (λ _ s' g, Some (s', g)).

Fixpoint has_group (r : regex) : bool :=
  match r with
  | r_group _ => true
  | r_seq r1 r2 | r_alt r1 r2 => has_group r1 || has_group r2
  | r_opt r1 => has_group r1
  | _ => false
  end.

(** What [re.findall] lists for a match: the group when the pattern has
    one (the empty string when it took no part), else the whole match. *)
Definition item (r : regex) (s s' : string) (g : option string) : string :=
  if has_group r then default "" g else consumed s s'.

(** Scan of [re.findall]: matches are taken leftmost first and do not
    overlap; [skip] counts the characters still covered by the last
    match.  Every pattern of the analyzer consumes at least one
    character. *)
Fixpoint scan (r : regex) (prev : option ascii) (skip : nat) (s : string)
  : list string :=
  match skip with
  | S n =>
      match s with
      | String a s' => scan r (Some a) n s'
      | EmptyString => []
      end
  | O =>
      match match_here r prev s with
      | Some (s', g) =>
          item r s s' g ::
          match s with
          | String a rest =>
              scan r (Some a) (Nat.pred (String.length s - String.length s')) rest
          | EmptyString => []
          end
      | None =>
          match s with
          | String a rest => scan r (Some a) 0 rest
          | EmptyString => []
          end
      end
  end.

(** [re.findall(r, s)] *)
Definition findall (r : regex) (s : string) : list string := scan r None 0 s.

Fixpoint search_from (r : regex) (prev : option ascii) (s : string) : bool :=
  match match_here r prev s with
  | Some _ => true
  | None =>
      match s with
      | String a rest => search_from r (Some a) rest
      | EmptyString => false
      end
  end.

(** [re.search(r, s)] as a truth value *)
Definition search (r : regex) (s : string) : bool := search_from r None s.

End Re.

Import Re.

(** The patterns of the analyzer *)

Definition dquote : ascii := Eval cbv in ascii_of_N 34.

Definition ws := r_many c_space 0.        (* \s* *)
Definition ws1 := r_many c_space 1.       (* \s+ *)
Definition word := r_many c_word 1.       (* \w+ *)
Definition digits := r_many c_digit 1.    (* \d+ *)

(** [char\s+\w+\s*\[\s*\]] *)
Definition unbounded_array_pattern : regex :=
  r_cat [r_lit "char"; ws1; word; ws; r_lit "["; ws; r_lit "]"].

(** [char\s+\w+\s*\[\s*(\d+)\s*\]] *)
Definition large_array_pattern : regex :=
  r_cat [r_lit "char"; ws1; word; ws; r_lit "["; ws; r_group digits; ws; r_lit "]"].

(** [Serial\.print(?:ln)?\s*\(\s*Q[^Q]{10,}Q], where Q is the double quote *)
Definition string_literal_pattern : regex :=
  r_cat [r_lit "Serial.print"; r_opt (r_lit "ln"); ws; r_lit "("; ws;
         r_lit (String dquote ""); r_many (c_not dquote) 10;
         r_lit (String dquote "")].

(** [delay\s*\(\s*(\d+)\s*\)] *)
Definition delay_pattern : regex :=
  r_cat [r_lit "delay"; ws; r_lit "("; ws; r_group digits; ws; r_lit ")"].

(** [while\s*\(\s*1\s*\)|while\s*\(\s*true\s*\)] *)
Definition infinite_loop_pattern : regex :=
  r_alt (r_cat [r_lit "while"; ws; r_lit "("; ws; r_lit "1"; ws; r_lit ")"])
        (r_cat [r_lit "while"; ws; r_lit "("; ws; r_lit "true"; ws; r_lit ")"]).

(** [(?:void|int|float|bool|uint\d+_t)\s+\w+\s*\([^)]*\)\s*\{] *)
Definition function_pattern : regex :=
  r_cat [r_alt (r_lit "void") (r_alt (r_lit "int") (r_alt (r_lit "float")
           (r_alt (r_lit "bool") (r_cat [r_lit "uint"; digits; r_lit "_t"]))));
         ws1; word; ws; r_lit "("; r_many (c_not ")"%char) 0; r_lit ")"; ws;
         r_lit "{"].

(** [^\s*(int|float|double|char|bool|uint\d+_t)\s+\w+] with [re.MULTILINE] *)
Definition global_var_pattern : regex :=
  r_cat [r_bol; ws;
         r_group (r_alt (r_lit "int") (r_alt (r_lit "float") (r_alt (r_lit "double")
           (r_alt (r_lit "char") (r_alt (r_lit "bool")
              (r_cat [r_lit "uint"; digits; r_lit "_t"]))))));
         ws1; word].

(** [\[\s*\d+\s*\]] *)
Definition array_pattern : regex :=
  r_cat [r_lit "["; ws; digits; ws; r_lit "]"].

(** [(struct|typedef\s+struct)] *)
Definition struct_pattern : regex :=
  r_group (r_alt (r_lit "struct") (r_cat [r_lit "typedef"; ws1; r_lit "struct"])).

(** ** Python values, exceptions and numbers *)

Inductive exn :=
| TypeError
| KeyError
| ValueError
| OverflowError
| ZeroDivisionError.

Inductive result (A : Type) :=
| Ok (a : A)
| Raise (e : exn).
Arguments Ok {A} a.
Arguments Raise {A} e.

Global Instance result_fmap : FMap result := λ A B f m,
  match m with
  | Ok a => Ok (f a)
  | Raise e => Raise e
  end.

Global Instance result_ret : MRet result := λ A a, Ok a.
Global Instance result_bind : MBind result := λ A B f m,
  match m with
  | Ok a => f a
  | Raise e => Raise e
  end.

(** The objects a caller can pass where a [str] is expected *)
#[warnings="-register-all"]
Inductive pyobj :=
| PyStr (s : string)
| PyNone
| PyLong (z : Z)
| PyBytes (b : string)
| PyList (l : list pyobj).

(** A number that is an [int] or a [float] according to the path taken *)
Inductive pynum :=
| PyInt (z : Z)
| PyFloat (f : spec_float).

(** [int(s)] on a text of decimal digits; any other text, the empty one
    included, is refused here.  (Python also accepts a sign, surrounding
    white space and underscores, none of which a [\d+] group holds.) *)
Definition digit_value (a : ascii) : Z := Z.of_N (N_of_ascii a) - 48.

Fixpoint int_digits (acc : Z) (s : string) : result Z :=
  match s with
  | EmptyString => Ok acc
  | String a s' =>
      if is_digit a then int_digits (10 * acc + digit_value a) s'
      else Raise ValueError
  end.

Definition py_int (s : string) : result Z :=
  match s with
  | EmptyString => Raise ValueError
  | _ => int_digits 0 s
  end.

(** Binary64 arithmetic *)
Module F64.

Definition prec : Z := 53.
Definition emax : Z := 1024.

Definition add := SFadd prec emax.
Definition sub := SFsub prec emax.
Definition mul := SFmul prec emax.
Definition ltb := SFltb.

(** [float(z)]: the nearest double *)
Definition of_int (z : Z) : spec_float := binary_normalize prec emax z 0 false.

Definition raw (z : Z) : spec_float :=
  match z with
  | Z0 => S754_zero false
  | Zpos p => S754_finite false p 0
  | Zneg p => S754_finite true p 0
  end.

(** The double nearest to the fraction [a / b] (ties to even), for
    [b <> 0]: the value of a decimal literal, and of [a / b] on two
    [int].  (CPython raises OverflowError where this is an infinity,
    which takes an [int] of more than a thousand bits.) *)
Definition ratio (a b : Z) : spec_float := SFdiv prec emax (raw a) (raw b).

(** [a / b] on two [int] *)
Definition int_truediv (a b : Z) : result spec_float :=
  if b =? 0 then Raise ZeroDivisionError else Ok (ratio a b).

Definition is_zero (x : spec_float) : bool :=
  match x with S754_zero _ => true | _ => false end.

(** [x / y] on two [float] *)
Definition truediv (x y : spec_float) : result spec_float :=
  if is_zero y then Raise ZeroDivisionError else Ok (SFdiv prec emax x y).

(** [int(x)]: truncation towards zero *)
Definition to_int (x : spec_float) : result Z :=
  match x with
  | S754_zero _ => Ok 0
  | S754_finite s m e =>
      Ok (cond_Zopp s (if 0 <=? e then Zpos m * 2 ^ e else Zpos m / 2 ^ (- e)))
  | S754_infinity _ => Raise OverflowError
  | S754_nan => Raise ValueError
  end.

(** The integer nearest to [num / den], ties to even ([0 <= num], [0 < den]) *)
Definition half_even (num den : Z) : Z :=
  let q := num / den in
  match 2 * (num mod den) ?= den with
  | Lt => q
  | Gt => q + 1
  | Eq => if Z.even q then q else q + 1
  end.

(** [round(x, ndigits)] for a small [0 <= ndigits]: the exact value of [x]
    is rounded to [ndigits] decimal places, ties to even, and the decimal
    number obtained is read back as the nearest double; infinities and
    NaN are returned as they are. *)
Definition round (x : spec_float) (ndigits : nat) : spec_float :=
  match x with
  | S754_finite s m e =>
      let p := 10 ^ Z.of_nat ndigits in
      let k := if 0 <=? e then Zpos m * 2 ^ e * p
               else half_even (Zpos m * p) (2 ^ (- e)) in
      match k with
      | Z0 => S754_zero s
      | _ => ratio (cond_Zopp s k) p
      end
  | _ => x
  end.

(** Comparison of the exact value with an integer *)
Definition le_int (x : spec_float) (n : Z) : bool :=
  match x with
  | S754_zero _ => 0 <=? n
  | S754_finite s m e =>
      cond_Zopp s (Zpos m) * 2 ^ Z.max e 0 <=? n * 2 ^ Z.max (- e) 0
  | S754_infinity s => s
  | S754_nan => false
  end.

Definition ge_int (x : spec_float) (n : Z) : bool :=
  match x with
  | S754_zero _ => n <=? 0
  | S754_finite s m e =>
      n * 2 ^ Z.max (- e) 0 <=? cond_Zopp s (Zpos m) * 2 ^ Z.max e 0
  | S754_infinity s => negb s
  | S754_nan => false
  end.

End F64.

(** The float literals of the module *)
Definition lit_1_0 : spec_float := Eval vm_compute in F64.ratio 1 1.
Definition lit_1_5 : spec_float := Eval vm_compute in F64.ratio 15 10.
Definition lit_1_3 : spec_float := Eval vm_compute in F64.ratio 13 10.
Definition lit_0_8 : spec_float := Eval vm_compute in F64.ratio 8 10.
Definition lit_0_5 : spec_float := Eval vm_compute in F64.ratio 5 10.
Definition lit_0_05 : spec_float := Eval vm_compute in F64.ratio 5 100.

(** Mixed [int]/[float] operations of the module *)
Definition round_num (x : pynum) (ndigits : nat) : pynum :=
  match x with
  | PyInt z => PyInt z
  | PyFloat f => PyFloat (F64.round f ndigits)
  end.

(** [x > n] for an [int] n exactly representable *)
Definition num_gt (x : pynum) (n : Z) : bool :=
  match x with
  | PyInt z => n <? z
  | PyFloat f => F64.ltb (F64.of_int n) f
  end.

(** [max(0, x)] on a float: [x] when [x > 0], else the int 0 *)
Definition max_0 (x : spec_float) : pynum :=
  if F64.ltb (F64.of_int 0) x then PyFloat x else PyInt 0.

(** [min(100, x)] on a float: [x] when [x < 100], else the int 100 *)
Definition min_100 (x : spec_float) : pynum :=
  if F64.ltb x (F64.of_int 100) then PyFloat x else PyInt 100.

(** ** Structured issue representation *)

Class Enum (A : Type) := value : A → string.

Inductive IssueType := MEMORY | PERFORMANCE | CORRECTNESS | SAFETY | STYLE.

Inductive IssueSeverity := CRITICAL | HIGH | MEDIUM | LOW.

Global Instance IssueType_value : Enum IssueType := λ t,
  match t with
  | MEMORY => "memory"
  | PERFORMANCE => "performance"
  | CORRECTNESS => "correctness"
  | SAFETY => "safety"
  | STYLE => "style"
  end.

Global Instance IssueSeverity_value : Enum IssueSeverity := λ s,
  match s with
  | CRITICAL => "critical"
  | HIGH => "high"
  | MEDIUM => "medium"
  | LOW => "low"
  end.

Record CodeIssue := {
  type : string;
  severity : string;
  message : string;
  suggestion : string;
  line_number : option Z
}.

(** A dictionary with text keys, in insertion order *)
Definition dict : Type := list (string * pyobj).

Definition to_dict (i : CodeIssue) : dict :=
  [ ("type", PyStr (type i));
    ("severity", PyStr (severity i));
    ("message", PyStr (message i));
    ("suggestion", PyStr (suggestion i));
    ("line_number", match line_number i with
                    | Some n => PyLong n
                    | None => PyNone
                    end) ].

(** ** Board specifications *)

Record BoardInfo := {
  name : string;
  total_ram_kb : Z;
  system_reserved_kb : Z;
  is_realtime : bool;
  performance_critical : bool
}.

Definition esp32dev : BoardInfo :=
  {| name := "ESP32 DevKit V1"; total_ram_kb := 520; system_reserved_kb := 100;
     is_realtime := false; performance_critical := false |}.

Definition esp32s3 : BoardInfo :=
  {| name := "ESP32-S3"; total_ram_kb := 1507; system_reserved_kb := 150;
     is_realtime := false; performance_critical := true |}.

Definition esp32c3 : BoardInfo :=
  {| name := "ESP32-C3"; total_ram_kb := 400; system_reserved_kb := 80;
     is_realtime := true; performance_critical := true |}.

Definition BOARD_SPECS : gmap string BoardInfo :=
  {[ "esp32dev" := esp32dev; "esp32s3" := esp32s3; "esp32c3" := esp32c3 ]}.

(** [d[k]] *)
Definition subscript {V} (d : gmap string V) (k : string) : result V :=
  match d !! k with
  | Some v => Ok v
  | None => Raise KeyError
  end.

(** [BOARD_SPECS.get(board, BOARD_SPECS["esp32dev"])]: the key is hashed, which
    a list refuses; a key of another type than [str] equals no key of the
    table. *)
Definition BOARD_SPECS_get (board : pyobj) : result BoardInfo :=
  fallback ← subscript BOARD_SPECS "esp32dev";
  match board with
  | PyStr b => Ok (default fallback (BOARD_SPECS !! b))
  | PyList _ => Raise TypeError
  | PyNone | PyLong _ | PyBytes _ => Ok fallback
  end.

(** ** The analyzer object and its methods *)

Record analyzer := {
  self_code : pyobj;
  self_board : pyobj;
  self_issues : list CodeIssue;
  self_quality_score : Z
}.

(** [CodeQualityAnalyzer()] *)
Definition __init__ : analyzer :=
  {| self_code := PyStr ""; self_board := PyStr "esp32dev";
     self_issues := []; self_quality_score := 100 |}.

(** A method: it reads and updates the object, and returns or raises. *)
Definition M (A : Type) : Type := analyzer → result (A * analyzer).

Global Instance M_ret : MRet M := λ A a self, Ok (a, self).
Global Instance M_bind : MBind M := λ A B f m self,
  match m self with
  | Ok (a, self') => f a self'
  | Raise e => Raise e
  end.

Definition lift {A} (r : result A) : M A := λ self,
  match r with
  | Ok a => Ok (a, self)
  | Raise e => Raise e
  end.

Definition get_issues : M (list CodeIssue) := λ self, Ok (self_issues self, self).

(** [self.issues.append(i)] *)
Definition append (i : CodeIssue) : M unit := λ self,
  Ok (tt, {| self_code := self_code self; self_board := self_board self;
             self_issues := self_issues self ++ [i];
             self_quality_score := self_quality_score self |}).

(** [self.code] where a [str] operation or [re] is applied to it.  Any other
    object is refused with a TypeError inside [_check_correctness]: None, an
    int and bytes by the first [in] test, a list by [re.search] (the [in]
    tests before it succeed on a list; what they appended is not observed,
    an exception carries no state here). *)
Definition get_code : M string := λ self,
  match self_code self with
  | PyStr s => Ok (s, self)
  | _ => Raise TypeError
  end.

Definition when (b : bool) (m : M unit) : M unit := if b then m else mret tt.

Fixpoint for_each {A} (l : list A) (body : A → M unit) : M unit :=
  match l with
  | [] => mret tt
  | x :: l' => body x;; for_each l' body
  end.

Definition len {A} (l : list A) : Z := Z.of_nat (length l).

(** *** Correctness checks *)

Definition _check_correctness : M unit :=
  code ← get_code;
  when (negb (Str.contains "void setup()" code)
        && negb (Str.contains "void setup (" code))
    (append {| type := value CORRECTNESS; severity := value CRITICAL;
               message := "Missing void setup() function - code won't compile";
               suggestion := "Add: void setup() { /* initialization code */ }";
               line_number := None |});;
  when (negb (Str.contains "void loop()" code)
        && negb (Str.contains "void loop (" code))
    (append {| type := value CORRECTNESS; severity := value CRITICAL;
               message := "Missing void loop() function - code won't compile";
               suggestion := "Add: void loop() { /* main program logic */ }";
               line_number := None |});;
  when (Re.search unbounded_array_pattern code)
    (append {| type := value CORRECTNESS; severity := value HIGH;
               message := "Unbounded array declaration without size";
               suggestion := "Specify array size: char buffer[256];";
               line_number := None |}).

(** *** Memory safety checks *)

Definition _check_memory_safety (board_info : BoardInfo) : M unit :=
  code ← get_code;
  let large_arrays := Re.findall large_array_pattern code in
  for_each large_arrays (λ size_str,
    size ← lift (py_int size_str);
    when (1000 <? size)
      (let severity := if total_ram_kb board_info <? 500
                       then value CRITICAL else value HIGH in
       append {| type := value MEMORY; severity := severity;
                 message := "Large static array allocation (" +:+ pretty size
                            +:+ " bytes) detected";
                 suggestion := "Use dynamic allocation or reduce size. Board has only "
                               +:+ pretty (total_ram_kb board_info) +:+ "KB RAM";
                 line_number := None |}));;
  let malloc_count := Str.count "malloc" code in
  let free_count := Str.count "free" code in
  when ((0 <? malloc_count) && (free_count <? malloc_count))
    (append {| type := value MEMORY; severity := value HIGH;
               message := "Potential memory leak: " +:+ pretty malloc_count
                          +:+ " malloc calls but only " +:+ pretty free_count
                          +:+ " free calls";
               suggestion := "Ensure every malloc() has a corresponding free()";
               line_number := None |});;
  let string_literals := len (Re.findall string_literal_pattern code) in
  when (3 <? string_literals)
    (append {| type := value MEMORY; severity := value MEDIUM;
               message := "Found " +:+ pretty string_literals
                          +:+ " string literals without F() macro";
               suggestion := "Use F(" +:+ String dquote "text" +:+ String dquote
                             ") to store strings in flash: Serial.println(F("
                             +:+ String dquote "message" +:+ String dquote "));";
               line_number := None |}).

(** *** Performance checks *)

Definition _check_performance (board_info : BoardInfo) : M unit :=
  code ← get_code;
  let long_delays := Re.findall delay_pattern code in
  for_each long_delays (λ delay_str,
    delay_ms ← lift (py_int delay_str);
    if 10000 <=? delay_ms then
      let severity := if is_realtime board_info
                      then value CRITICAL else value HIGH in
      append {| type := value PERFORMANCE; severity := severity;
                message := "Very long delay (" +:+ pretty delay_ms
                           +:+ "ms) detected - blocks entire system";
                suggestion := "Use non-blocking timing: millis() or FreeRTOS tasks";
                line_number := None |}
    else if 1000 <=? delay_ms then
      let severity := if negb (is_realtime board_info)
                      then value MEDIUM else value HIGH in
      append {| type := value PERFORMANCE; severity := severity;
                message := "Long delay (" +:+ pretty delay_ms
                           +:+ "ms) may impact responsiveness";
                suggestion := "Consider reducing delay or using non-blocking code";
                line_number := None |}
    else mret tt);;
  when (Re.search infinite_loop_pattern code)
    (append {| type := value PERFORMANCE; severity := value HIGH;
               message := "Infinite loop with while(1) or while(true) detected";
               suggestion := "Use the loop() function instead for continuous execution";
               line_number := None |});;
  let serial_calls_in_loop := Str.count "Serial.print" code in
  when ((5 <? serial_calls_in_loop) && negb (Str.contains "delay" code))
    (append {| type := value PERFORMANCE; severity := value MEDIUM;
               message := "Multiple Serial.print calls without delays may overwhelm serial buffer";
               suggestion := "Add delay(100) or reduce print frequency";
               line_number := None |}).

(** *** Safety checks *)

Definition _check_safety : M unit :=
  code ← get_code;
  when (negb (Str.contains "Serial.begin" code))
    (append {| type := value SAFETY; severity := value LOW;
               message := "Missing Serial.begin() - debugging will be difficult";
               suggestion := "Add Serial.begin(115200); in setup()";
               line_number := None |});;
  let if_count := Str.count "if (" code in
  when ((if_count <? 2) && (500 <? Str.len code))
    (append {| type := value SAFETY; severity := value MEDIUM;
               message := "Limited error checking - code may fail silently";
               suggestion := "Add validation: if (sensor.begin()) { /* handle error */ }";
               line_number := None |}).

(** *** Style checks *)

Definition _check_style : M unit :=
  code ← get_code;
  when (negb (Str.contains "const" code) && (200 <? Str.len code))
    (append {| type := value STYLE; severity := value LOW;
               message := "No const declarations found";
               suggestion := "Use const for constants: const int LED_PIN = 2;";
               line_number := None |});;
  let lines := Str.split "010"%char code in
  comment_ratio ← lift (F64.int_truediv (Str.count "//" code + Str.count "/*" code)
                                        (Z.max 1 (len lines)));
  when (F64.ltb comment_ratio lit_0_05 && (30 <? len lines))
    (append {| type := value STYLE; severity := value LOW;
               message := "Low comment density (<5%)";
               suggestion := "Add comments to explain complex logic";
               line_number := None |});;
  let functions := Re.findall function_pattern code in
  when ((len functions <=? 2) && (50 <? len lines))
    (append {| type := value STYLE; severity := value MEDIUM;
               message := "All code in setup/loop - no helper functions";
               suggestion := "Break complex logic into reusable functions";
               line_number := None |}).

(** *** Memory estimation *)

Record MemoryEstimate := {
  estimated_code_size_kb : spec_float;
  estimated_global_vars_kb : spec_float;
  estimated_free_ram_kb : pynum;
  usage_percent : pynum;
  safety_margin : string
}.

(** The locals of [_estimate_memory], in the order of their assignment *)
Module Mem.

Definition code_size_kb (code : string) : result spec_float :=
  F64.int_truediv (Str.len code) 1024.

Definition global_vars (code : string) : Z :=
  len (Re.findall global_var_pattern code).

Definition arrays (code : string) : Z :=
  len (Re.findall array_pattern code).

Definition structs (code : string) : Z :=
  len (Re.findall struct_pattern code).

Definition estimated_global_kb (code : string) : result spec_float :=
  F64.int_truediv (global_vars code * 4 + arrays code * 20 + structs code * 10) 1024.

Definition used_kb (code : string) (board_info : BoardInfo) : result spec_float :=
  code_size_kb ← code_size_kb code;
  estimated_global_kb ← estimated_global_kb code;
  Ok (F64.add (F64.add code_size_kb estimated_global_kb)
              (F64.of_int (system_reserved_kb board_info))).

Definition free_kb (code : string) (board_info : BoardInfo) : result pynum :=
  used_kb ← used_kb code board_info;
  Ok (max_0 (F64.sub (F64.of_int (total_ram_kb board_info)) used_kb)).

Definition usage_percent (code : string) (board_info : BoardInfo) : result pynum :=
  used_kb ← used_kb code board_info;
  quotient ← F64.truediv used_kb (F64.of_int (total_ram_kb board_info));
  Ok (min_100 (F64.mul quotient (F64.of_int 100))).

Definition safety (usage_percent : pynum) : string :=
  if num_gt usage_percent 80 then "critical"
  else if num_gt usage_percent 50 then "warning"
  else "good".

End Mem.

Definition _estimate_memory (board_info : BoardInfo) : M MemoryEstimate :=
  code ← get_code;
  code_size_kb ← lift (Mem.code_size_kb code);
  estimated_global_kb ← lift (Mem.estimated_global_kb code);
  free_kb ← lift (Mem.free_kb code board_info);
  usage_percent ← lift (Mem.usage_percent code board_info);
  mret {| estimated_code_size_kb := F64.round code_size_kb 2;
          estimated_global_vars_kb := F64.round estimated_global_kb 2;
          estimated_free_ram_kb := round_num free_kb 2;
          usage_percent := round_num usage_percent 1;
          safety_margin := Mem.safety usage_percent |}.

(** *** Board-aware scoring *)

Definition severity_weights : gmap string Z :=
  {[ value CRITICAL := 20; value HIGH := 12; value MEDIUM := 6; value LOW := 3 ]}.

Definition type_multipliers (board_info : BoardInfo) : gmap string spec_float :=
  {[ value CORRECTNESS := lit_1_0;
     value MEMORY := if total_ram_kb board_info <? 500 then lit_1_5 else lit_1_0;
     value PERFORMANCE := if is_realtime board_info then lit_1_3 else lit_0_8;
     value SAFETY := lit_1_0;
     value STYLE := lit_0_5 ]}.

(** [int(base_penalty * multiplier)] for one issue *)
Definition issue_penalty (board_info : BoardInfo) (issue : CodeIssue) : result Z :=
  let base_penalty := default 5 (severity_weights !! severity issue) in
  let multiplier := default lit_1_0 (type_multipliers board_info !! type issue) in
  F64.to_int (F64.mul (F64.of_int base_penalty) multiplier).

Fixpoint score_loop (board_info : BoardInfo) (issues : list CodeIssue) (score : Z)
  : result Z :=
  match issues with
  | [] => Ok score
  | issue :: rest =>
      penalty ← issue_penalty board_info issue;
      score_loop board_info rest (score - penalty)
  end.

Definition _calculate_weighted_score (board_info : BoardInfo) : M Z :=
  issues ← get_issues;
  score ← lift (score_loop board_info issues 100);
  mret (Z.max 0 (Z.min 100 score)).

(** *** Helpers *)

Fixpoint group_loop (issues : list CodeIssue) (grouped : gmap string (list dict))
  : result (gmap string (list dict)) :=
  match issues with
  | [] => Ok grouped
  | issue :: rest =>
      bucket ← subscript grouped (type issue);
      group_loop rest (<[type issue := (bucket ++ [to_dict issue])%list]> grouped)
  end.

Definition _group_by_type : M (gmap string (list dict)) :=
  let grouped : gmap string (list dict) :=
    {[ "memory" := []; "performance" := []; "correctness" := [];
       "safety" := []; "style" := [] ]} in
  issues ← get_issues;
  lift (group_loop issues grouped).

Definition has_severity (s : IssueSeverity) (i : CodeIssue) : bool :=
  String.eqb (severity i) (value s).

Definition has_type (t : IssueType) (i : CodeIssue) : bool :=
  String.eqb (type i) (value t).

Definition _get_overall_severity : M string :=
  issues ← get_issues;
  let critical := len (List.filter (has_severity CRITICAL) issues) in
  let high := len (List.filter (has_severity HIGH) issues) in
  mret (if 0 <? critical then "critical"
        else if 2 <? high then "high"
        else if (0 <? high) || (5 <? len issues) then "medium"
        else if 0 <? len issues then "low"
        else "excellent").

Definition nonempty {A} (l : list A) : bool :=
  match l with [] => false | _ => true end.

Definition _generate_summary (score : Z) (board_info : BoardInfo) : M string :=
  let '(quality, action) :=
    if 90 <=? score then ("excellent", "ready for production use")
    else if 75 <=? score then ("good", "minor improvements recommended")
    else if 50 <=? score then ("acceptable", "several issues should be addressed")
    else ("poor", "critical issues must be fixed before use") in
  issues ← get_issues;
  let critical := List.filter (has_severity CRITICAL) issues in
  let memory_issues := List.filter (has_type MEMORY) issues in
  let perf_issues := List.filter (has_type PERFORMANCE) issues in
  let highlights : list string :=
    ((if nonempty critical then [pretty (len critical) +:+ " critical issue(s)"] else [])
     ++ (if nonempty memory_issues then ["memory concerns"] else [])
     ++ (if nonempty perf_issues then ["performance bottlenecks"] else []))%list in
  let highlight_str :=
    if nonempty highlights then Str.join ", " highlights else "no major issues" in
  mret ("Code quality is " +:+ quality +:+ " (" +:+ pretty score +:+ "/100) with "
        +:+ highlight_str +:+ ". " +:+ Str.capitalize action +:+ ".").

(** *** The report and [analyze] *)

Module Report.
Record t := {
  quality_score : Z;
  code_lines : Z;
  code_size_kb : spec_float;
  issues : list dict;
  issues_by_severity : gmap string (list dict);
  issues_by_type : gmap string (list dict);
  issues_count : Z;
  critical_count : Z;
  high_count : Z;
  medium_count : Z;
  low_count : Z;
  estimated_ram_usage_percent : pynum;
  estimated_free_ram_kb : pynum;
  memory_status : string;
  severity : string;
  summary : string;
  board : string
}.
End Report.

(** The four assignments that open [analyze] *)
Definition reset (code board : pyobj) : M unit := λ _,
  Ok (tt, {| self_code := code; self_board := board;
             self_issues := []; self_quality_score := 100 |}).

Definition analyze (code board : pyobj) : M Report.t :=
  reset code board;;
  board_info ← lift (BOARD_SPECS_get board);
  _check_correctness;;
  _check_memory_safety board_info;;
  _check_performance board_info;;
  _check_safety;;
  _check_style;;
  memory_analysis ← _estimate_memory board_info;
  final_score ← _calculate_weighted_score board_info;
  summary ← _generate_summary final_score board_info;
  issues ← get_issues;
  let critical_issues := List.filter (has_severity CRITICAL) issues in
  let high_issues := List.filter (has_severity HIGH) issues in
  let medium_issues := List.filter (has_severity MEDIUM) issues in
  let low_issues := List.filter (has_severity LOW) issues in
  code ← get_code;
  code_size ← lift (F64.int_truediv (Str.len code) 1024);
  by_type ← _group_by_type;
  overall ← _get_overall_severity;
  mret {| Report.quality_score := final_score;
          Report.code_lines := len (Str.split "010"%char code);
          Report.code_size_kb := F64.round code_size 2;
          Report.issues := to_dict <$> issues;
          Report.issues_by_severity :=
            {[ "critical" := to_dict <$> critical_issues;
               "high" := to_dict <$> high_issues;
               "medium" := to_dict <$> medium_issues;
               "low" := to_dict <$> low_issues ]};
          Report.issues_by_type := by_type;
          Report.issues_count := len issues;
          Report.critical_count := len critical_issues;
          Report.high_count := len high_issues;
          Report.medium_count := len medium_issues;
          Report.low_count := len low_issues;
          Report.estimated_ram_usage_percent := usage_percent memory_analysis;
          Report.estimated_free_ram_kb := estimated_free_ram_kb memory_analysis;
          Report.memory_status := safety_margin memory_analysis;
          Report.severity := overall;
          Report.summary := summary;
          Report.board := name board_info |}.

(** * The client of the analyzer ([mcp_client.py])

    [MCPClient] holds one analyzer for all its calls and delegates
    [analyze_code_quality] to it; when the analyzer module could not be
    imported ([HAS_QUALITY_SERVER] is false) it falls back on a minimal
    analysis of its own. *)

Module MCPClient.

Record BoardSpecs := {
  name : string;
  flash_mb : Z;
  ram_kb : Z;
  gpio_pins : Z;
  adc_channels : Z;
  uart_ports : Z;
  i2c_ports : Z;
  spi_ports : Z;
  pwm_channels : Z
}.

(** The table of [get_board_specs] *)
Definition boards : gmap string BoardSpecs :=
  {[ "esp32dev" := {| name := "ESP32 DevKit V1"; flash_mb := 4; ram_kb := 520;
                      gpio_pins := 40; adc_channels := 18; uart_ports := 3;
                      i2c_ports := 2; spi_ports := 3; pwm_channels := 16 |};
     "esp32s3" := {| name := "ESP32-S3"; flash_mb := 8; ram_kb := 1507;
                     gpio_pins := 49; adc_channels := 20; uart_ports := 3;
                     i2c_ports := 1; spi_ports := 4; pwm_channels := 16 |};
     "esp32c3" := {| name := "ESP32-C3"; flash_mb := 4; ram_kb := 400;
                     gpio_pins := 22; adc_channels := 6; uart_ports := 2;
                     i2c_ports := 1; spi_ports := 2; pwm_channels := 6 |} ]}.

(** [boards[board]] when [board in boards], else [boards["esp32dev"]] *)
Definition get_board_specs (board : string) : result BoardSpecs :=
  if bool_decide (is_Some (boards !! board)) then subscript boards board
  else subscript boards "esp32dev".

(** The report of the fallback analysis *)
Module Fallback.
Record t := {
  quality_score : Z;
  issues : list string;
  warnings : list string;
  code_lines : Z;
  code_size_kb : spec_float;
  estimated_ram_usage_percent : spec_float;
  memory_status : string;
  severity : string;
  summary : string
}.
End Fallback.

(** [_fallback_quality_analysis]; [ram_kb] is a key of every entry of the
    table, so [board_specs.get("ram_kb", 520)] is the entry's own figure. *)
Definition _fallback_quality_analysis (code board : string) : result Fallback.t :=
  let issues : list string := [] in
  let warnings : list string := [] in
  let score := 100 in
  let '(issues, score) :=
    if negb (Str.contains "void setup()" code)
    then (issues ++ ["Missing setup() function"], score - 20)
    else (issues, score) in
  let '(issues, score) :=
    if negb (Str.contains "void loop()" code)
    then (issues ++ ["Missing loop() function"], score - 20)
    else (issues, score) in
  let '(warnings, score) :=
    if negb (Str.contains "Serial.begin" code)
    then (warnings ++ ["No Serial.begin() - debugging difficult"], score - 5)
    else (warnings, score) in
  code_size_kb ← F64.int_truediv (Str.len code) 1024;
  board_specs ← get_board_specs board;
  let ram_kb := ram_kb board_specs in
  quotient ← F64.truediv code_size_kb (F64.of_int ram_kb);
  let usage_percent := F64.mul quotient (F64.of_int 100) in
  Ok {| Fallback.quality_score := Z.max 0 score;
        Fallback.issues := issues;
        Fallback.warnings := warnings;
        Fallback.code_lines := len (Str.split "010"%char code);
        Fallback.code_size_kb := F64.round code_size_kb 2;
        Fallback.estimated_ram_usage_percent := F64.round usage_percent 1;
        Fallback.memory_status :=
          if F64.ltb (F64.of_int 80) usage_percent then "critical"
          else if F64.ltb (F64.of_int 50) usage_percent then "warning"
          else "good";
        Fallback.severity :=
          if score <? 50 then "critical"
          else if score <? 75 then "high"
          else if score <? 90 then "medium"
          else "excellent";
        Fallback.summary :=
          "Fallback analysis: " +:+ pretty (len issues) +:+ " issues, "
          +:+ pretty (len warnings) +:+ " warnings (score: " +:+ pretty score
          +:+ "/100)" |}.

(** The client object; [servers] and [processes] stay empty. *)
Record t := {
  config_path : string;
  servers : gmap string pyobj;
  processes : gmap string pyobj;
  quality_analyzer : option analyzer
}.

Section Server.

(** Whether [code_quality_server] could be imported *)
Variable HAS_QUALITY_SERVER : bool.

(** [MCPClient(server_config_path)] *)
Definition __init__ (server_config_path : string) : t :=
  {| config_path := server_config_path; servers := ∅; processes := ∅;
     quality_analyzer :=
       if HAS_QUALITY_SERVER then Some __init__ else None |}.

(** [analyze_code_quality]: the analyzer of the client is used, and keeps
    what the call leaves in it. *)
Definition analyze_code_quality (code board : string) (self : t)
  : result ((Report.t + Fallback.t) * t) :=
  match HAS_QUALITY_SERVER, quality_analyzer self with
  | true, Some analyzer =>
      match analyze (PyStr code) (PyStr board) analyzer with
      | Ok (r, analyzer') =>
          Ok (inl r, {| config_path := config_path self; servers := servers self;
                        processes := processes self;
                        quality_analyzer := Some analyzer' |})
      | Raise e => Raise e
      end
  | _, _ =>
      match _fallback_quality_analysis code board with
      | Ok r => Ok (inr r, self)
      | Raise e => Raise e
      end
  end.

End Server.

End MCPClient.

(** * Vocabulary of the properties *)

(** ** Matches *)

(** Every character of [d] is of the class [c] *)
Fixpoint all_in (c : cclass) (d : string) : bool :=
  match d with
  | EmptyString => true
  | String a d' => in_class c a && all_in c d'
  end.

(** The relation between the text and group before a sub-pattern and
    after it, along any path the matcher can take. *)
Fixpoint post (r : regex) (s : string) (g : option string)
  (s' : string) (g' : option string) : Prop :=
  match r with
  | r_lit p => s = p +:+ s' ∧ g' = g
  | r_many c min =>
      ∃ d, s = d +:+ s' ∧ all_in c d = true ∧ (min ≤ String.length d)%nat ∧ g' = g
  | r_seq r1 r2 => ∃ s1 g1, post r1 s g s1 g1 ∧ post r2 s1 g1 s' g'
  | r_alt r1 r2 => post r1 s g s' g' ∨ post r2 s g s' g'
  | r_opt r1 => post r1 s g s' g' ∨ (s' = s ∧ g' = g)
  | r_group r1 => g' = Some (consumed s s') ∧ ∃ g1, post r1 s g s' g1
  | r_bol => s' = s ∧ g' = g
  end.

(** A text of decimal digits, as a [\d+] group captures it *)
Definition numeral (d : string) : Prop :=
  all_in c_digit d = true ∧ d ≠ EmptyString.

(** ** Issues appended by a method *)

(** The analyzer with the issues [l] appended *)
Definition add_issues (self : analyzer) (l : list CodeIssue) : analyzer :=
  {| self_code := self_code self; self_board := self_board self;
     self_issues := self_issues self ++ l;
     self_quality_score := self_quality_score self |}.

(** [emits m code l]: on an analyzer that holds the text [code], the method
    [m] returns after appending exactly the issues [l]. *)
Definition emits (m : M unit) (code : string) (l : list CodeIssue) : Prop :=
  ∀ self, self_code self = PyStr code → m self = Ok (tt, add_issues self l).

(** The analyzer as [analyze] leaves it before the first rule *)
Definition fresh (code : string) (board : pyobj) : analyzer :=
  {| self_code := PyStr code; self_board := board;
     self_issues := []; self_quality_score := 100 |}.

(** The issues a method appends when run on a text *)
Definition emitted (m : M unit) (code : string) : list CodeIssue :=
  match m (fresh code PyNone) with
  | Ok (_, self) => self_issues self
  | Raise _ => []
  end.

(** The value of a numeral *)
Definition int_value (s : string) : Z :=
  match py_int s with
  | Ok n => n
  | Raise _ => 0
  end.

(** The declared sizes of the byte arrays of a text, in the order of the text *)
Definition declared_sizes (code : string) : list Z :=
  int_value <$> Re.findall large_array_pattern code.

(** The durations of the delay calls of a text, in the order of the text *)
Definition delay_durations (code : string) : list Z :=
  int_value <$> Re.findall delay_pattern code.

(** The issue of the memory rule for an array of [size] bytes *)
Definition large_array_issue (board_info : BoardInfo) (size : Z) : CodeIssue :=
  {| type := "memory";
     severity := if total_ram_kb board_info <? 500 then "critical" else "high";
     message := "Large static array allocation (" +:+ pretty size +:+ " bytes) detected";
     suggestion := "Use dynamic allocation or reduce size. Board has only "
                   +:+ pretty (total_ram_kb board_info) +:+ "KB RAM";
     line_number := None |}.

(** The issue of the performance rule for a delay of [ms] time units, if any *)
Definition delay_issue (board_info : BoardInfo) (ms : Z) : list CodeIssue :=
  if 10000 <=? ms then
    [ {| type := "performance";
         severity := if is_realtime board_info then "critical" else "high";
         message := "Very long delay (" +:+ pretty ms
                    +:+ "ms) detected - blocks entire system";
         suggestion := "Use non-blocking timing: millis() or FreeRTOS tasks";
         line_number := None |} ]
  else if 1000 <=? ms then
    [ {| type := "performance";
         severity := if is_realtime board_info then "high" else "medium";
         message := "Long delay (" +:+ pretty ms +:+ "ms) may impact responsiveness";
         suggestion := "Consider reducing delay or using non-blocking code";
         line_number := None |} ]
  else [].

(** ** Numbers *)

(** Sign bit clear, or NaN *)
Definition not_negative (x : spec_float) : Prop :=
  match x with
  | S754_zero s | S754_infinity s | S754_finite s _ _ => s = false
  | S754_nan => True
  end.

(** The exact value of [x] lies between 0 and 100 *)
Definition in_0_100 (x : spec_float) : bool :=
  F64.ge_int x 0 && F64.le_int x 100.

(** [n <= x] and [x <= n] on exact values; an infinity is above every
    integer or below every integer, a NaN compares with none *)
Definition num_ge (x : pynum) (n : Z) : Prop :=
  match x with
  | PyInt z => n ≤ z
  | PyFloat f => F64.ge_int f n = true
  end.

Definition num_le (x : pynum) (n : Z) : Prop :=
  match x with
  | PyInt z => z ≤ n
  | PyFloat f => F64.le_int f n = true
  end.

(** ** Boards *)

(** The profile [analyze] works with for a board identifier *)
Definition resolve (board : string) : BoardInfo :=
  default esp32dev (BOARD_SPECS !! board).

(** A profile of the registry *)
Definition registered (board_info : BoardInfo) : Prop :=
  ∃ board, BOARD_SPECS !! board = Some board_info.

(** ** Scores *)

(** The scoring rule in the words of the specification, on exact fractions *)
Module Spec.

Definition base_penalty (s : IssueSeverity) : Q :=
  match s with
  | CRITICAL => 20
  | HIGH => 12
  | MEDIUM => 6
  | LOW => 3
  end.

Definition category_multiplier (board_info : BoardInfo) (t : IssueType) : Q :=
  match t with
  | CORRECTNESS => 1
  | MEMORY => if total_ram_kb board_info <? 500 then 15 # 10 else 1
  | PERFORMANCE => if is_realtime board_info then 13 # 10 else 8 # 10
  | SAFETY => 1
  | STYLE => 5 # 10
  end.

(** Integer truncation of a fraction *)
Definition truncate (q : Q) : Z := Z.quot (Qnum q) (Zpos (Qden q)).

Definition penalty (board_info : BoardInfo) (k : IssueType * IssueSeverity) : Z :=
  truncate (base_penalty k.2 * category_multiplier board_info k.1).

Definition clamp (lo hi x : Z) : Z := Z.max lo (Z.min hi x).

(** Start at 100, subtract the penalty of each issue, clamp at the end. *)
Definition score (board_info : BoardInfo) (kinds : list (IssueType * IssueSeverity)) : Z :=
  clamp 0 100 (fold_left (λ running k, running - penalty board_info k) kinds 100).

End Spec.

(** An issue of category [k.1] and severity [k.2] *)
Definition of_kind (i : CodeIssue) (k : IssueType * IssueSeverity) : Prop :=
  type i = value k.1 ∧ severity i = value k.2.

(** The category and the severity that a text names *)
Definition IssueType_of (s : string) : option IssueType :=
  if String.eqb s "memory" then Some MEMORY
  else if String.eqb s "performance" then Some PERFORMANCE
  else if String.eqb s "correctness" then Some CORRECTNESS
  else if String.eqb s "safety" then Some SAFETY
  else if String.eqb s "style" then Some STYLE
  else None.

Definition IssueSeverity_of (s : string) : option IssueSeverity :=
  if String.eqb s "critical" then Some CRITICAL
  else if String.eqb s "high" then Some HIGH
  else if String.eqb s "medium" then Some MEDIUM
  else if String.eqb s "low" then Some LOW
  else None.

(** The category and severity of an issue, when its two fields name some *)
Definition kind_of (i : CodeIssue) : option (IssueType * IssueSeverity) :=
  match IssueType_of (type i), IssueSeverity_of (severity i) with
  | Some t, Some s => Some (t, s)
  | _, _ => None
  end.

(** An issue of one of the five categories and four severities *)
Definition well_typed (i : CodeIssue) : Prop := is_Some (kind_of i).

(** [emits] with a property of the issues appended *)
Definition emits_all (P : CodeIssue → Prop) (m : M unit) (code : string) : Prop :=
  ∃ l, emits m code l ∧ Forall P l.

(** The issues that the five rules detect in a text, in the order of the
    report *)
Definition detected (code : string) (board_info : BoardInfo) : list CodeIssue :=
  emitted _check_correctness code
  ++ emitted (_check_memory_safety board_info) code
  ++ emitted (_check_performance board_info) code
  ++ emitted _check_safety code
  ++ emitted _check_style code.

(** ** What a method observes of the analyzer *)

(** Two analyzers that hold the same text and the same issues *)
Definition agree (s1 s2 : analyzer) : Prop :=
  self_code s1 = self_code s2 ∧ self_issues s1 = self_issues s2.

(** Two runs that return the same value, or raise the same error *)
Definition alike {A} (r1 r2 : result (A * analyzer)) : Prop :=
  match r1, r2 with
  | Ok (a1, s1), Ok (a2, s2) => a1 = a2 ∧ agree s1 s2
  | Raise e1, Raise e2 => e1 = e2
  | _, _ => False
  end.

(** A method that reads of the analyzer only its text and its issues *)
Definition indep {A} (m : M A) : Prop :=
  ∀ s1 s2, agree s1 s2 → alike (m s1) (m s2).

(** What the caller of a method receives *)
Definition outcome {A} (r : result (A * analyzer)) : result A :=
  match r with
  | Ok (a, _) => Ok a
  | Raise e => Raise e
  end.

(** ** Grouped views *)

(** The issues whose field [f] is [key], as a view lists them *)
Definition bucket_by (f : CodeIssue → string) (key : string)
  (issues : list CodeIssue) : list dict :=
  to_dict <$> List.filter (λ i, String.eqb (f i) key) issues.

(** The issues of category [key], as the report lists them *)
Definition bucket_of (key : string) (issues : list CodeIssue) : list dict :=
  bucket_by type key issues.

(** A grouped view partitions the flat list: every issue of the flat list
    is in a bucket of the view and in no bucket under another key, and the
    buckets put together hold the members of the flat list, each as many
    times as the flat list does. *)
Definition partitions (view : gmap string (list dict)) (flat : list dict) : Prop :=
  (∀ d, d ∈ flat →
        ∃ key, (∃ bucket, view !! key = Some bucket ∧ d ∈ bucket)
               ∧ ∀ key' bucket', view !! key' = Some bucket' → d ∈ bucket' →
                                 key' = key)
  ∧ concat (snd <$> map_to_list view) ≡ₚ flat.

(** The view that maps each key to its bucket *)
Definition view_of (f : CodeIssue → string) (keys : list string)
  (issues : list CodeIssue) : gmap string (list dict) :=
  list_to_map ((λ k, (k, bucket_by f k issues)) <$> keys).

(** The keys of the two views of a report *)
Definition severity_keys : list string := ["critical"; "high"; "medium"; "low"].

Definition type_keys : list string :=
  ["memory"; "performance"; "correctness"; "safety"; "style"].

(** ** Penalties and coverage *)

(** The penalty of an issue, as a number *)
Definition penalty_of (board_info : BoardInfo) (issue : CodeIssue) : Z :=
  match issue_penalty board_info issue with
  | Ok p => p
  | Raise _ => 0
  end.

(** The sum of the penalties of a list of issues *)
Definition total_penalty (board_info : BoardInfo) (issues : list CodeIssue) : Z :=
  foldr (λ issue total, penalty_of board_info issue + total) 0 issues.

(** The issue of the correctness rule for a missing [setup] *)
Definition missing_setup_issue : CodeIssue :=
  {| type := "correctness"; severity := "critical";
     message := "Missing void setup() function - code won't compile";
     suggestion := "Add: void setup() { /* initialization code */ }";
     line_number := None |}.

(** The issue of the correctness rule for a missing [loop] *)
Definition missing_loop_issue : CodeIssue :=
  {| type := "correctness"; severity := "critical";
     message := "Missing void loop() function - code won't compile";
     suggestion := "Add: void loop() { /* main program logic */ }";
     line_number := None |}.

(** Neither form of the signature of [setup], nor of [loop], is in the text *)
Definition no_entry_point (code : string) : Prop :=
  Str.contains "void setup()" code = false
  ∧ Str.contains "void setup (" code = false
  ∧ Str.contains "void loop()" code = false
  ∧ Str.contains "void loop (" code = false.

(** The order of the severities: critical > high > medium > low *)
Definition rank (s : IssueSeverity) : nat :=
  match s with
  | LOW => 0
  | MEDIUM => 1
  | HIGH => 2
  | CRITICAL => 3
  end.

(** [a] is of the category of [b] and at least as severe. *)
Definition at_least (a b : CodeIssue) : Prop :=
  ∃ ka kb, of_kind a ka ∧ of_kind b kb ∧ ka.1 = kb.1 ∧ (rank kb.2 ≤ rank ka.2)%nat.

(** The issues of [B] are matched one to one by issues of [A] at least as
    severe; the issues of [A] not matched are its further issues. *)
Definition covers (A B : list CodeIssue) : Prop :=
  ∃ matching further, A ≡ₚ matching ++ further ∧ Forall2 at_least matching B.

(** ** The text of the standalone test of the module *)

Definition sample_code : string :=
  "
#include <WiFi.h>
#include <DHT.h>

#define DHT_PIN 23
char bigBuffer[5000];

void setup() {
    Serial.begin(115200);
    WiFi.begin(" +:+ String dquote "SSID" +:+ String dquote ", "
  +:+ String dquote "PASSWORD" +:+ String dquote ");
}

void loop() {
    float temp = dht.readTemperature();
    Serial.println(" +:+ String dquote "Temperature: " +:+ String dquote ");
    Serial.println(temp);
    delay(15000);
}
".

(** ** Further vocabulary *)

(** The analyzer as [analyze] leaves it *)
Definition final (code board : string) : analyzer :=
  {| self_code := PyStr code; self_board := PyStr board;
     self_issues := detected code (resolve board); self_quality_score := 100 |}.

(** Where a critical issue can come from *)
Definition critical_origin (board_info : BoardInfo) (i : CodeIssue) : Prop :=
  i = missing_setup_issue
  ∨ i = missing_loop_issue
  ∨ (total_ram_kb board_info < 500
     ∧ ∃ size, 1000 < size ∧ i = large_array_issue board_info size)
  ∨ (is_realtime board_info = true
     ∧ ∃ ms, 10000 ≤ ms ∧ delay_issue board_info ms = [i]).

(** Two issues about the same finding: the same category, message and line *)
Definition same_finding (i j : CodeIssue) : Prop :=
  type i = type j ∧ message i = message j ∧ line_number i = line_number j.

(** [b1] is at least as constrained as [b2]: it is short of RAM when [b2]
    is, and realtime when [b2] is. *)
Definition stricter (b1 b2 : BoardInfo) : Prop :=
  (total_ram_kb b2 < 500 → total_ram_kb b1 < 500)
  ∧ (is_realtime b2 = true → is_realtime b1 = true).

(** The same finding on two boards *)
Definition across (b1 b2 : BoardInfo) (i j : CodeIssue) : Prop :=
  same_finding i j ∧ well_typed i ∧ well_typed j ∧ (stricter b1 b2 → at_least i j).

(** [sub] occurs in [s] *)
Definition occurs (sub s : string) : Prop := ∃ pre post, s = pre +:+ sub +:+ post.

(** A text of white space only, possibly empty *)
Definition blank (d : string) : Prop := all_in c_space d = true.

(** A non-empty text of letters, digits and underscores *)
Definition identifier (w : string) : Prop := all_in c_word w = true ∧ w ≠ "".

(** The issue of the correctness rule for a byte array without a size *)
Definition unbounded_array_issue : CodeIssue :=
  {| type := "correctness"; severity := "high";
     message := "Unbounded array declaration without size";
     suggestion := "Specify array size: char buffer[256];";
     line_number := None |}.

(** The issue of the performance rule for a loop that never ends *)
Definition infinite_loop_issue : CodeIssue :=
  {| type := "performance"; severity := "high";
     message := "Infinite loop with while(1) or while(true) detected";
     suggestion := "Use the loop() function instead for continuous execution";
     line_number := None |}.

(** The text holds [char], white space, a name and an empty pair of
    brackets. *)
Definition has_unsized_array (code : string) : Prop :=
  ∃ pre d1 w d2 d3 post,
    blank d1 ∧ d1 ≠ "" ∧ identifier w ∧ blank d2 ∧ blank d3
    ∧ code = pre +:+ "char" +:+ d1 +:+ w +:+ d2 +:+ "[" +:+ d3 +:+ "]" +:+ post.

(** The text holds [while (1)] or [while (true)], with any white space
    around the parentheses. *)
Definition has_forever_loop (code : string) : Prop :=
  ∃ pre d1 d2 cond d3 post,
    blank d1 ∧ blank d2 ∧ blank d3 ∧ (cond = "1" ∨ cond = "true")
    ∧ code = pre +:+ "while" +:+ d1 +:+ "(" +:+ d2 +:+ cond +:+ d3 +:+ ")" +:+ post.

(** [lang r s s']: the pattern [r] matches the text [s] down to its suffix
    [s'] ([^] is taken to hold everywhere). *)
Fixpoint lang (r : regex) (s s' : string) : Prop :=
  match r with
  | r_lit p => s = p +:+ s'
  | r_many c min =>
      ∃ d, s = d +:+ s' ∧ all_in c d = true ∧ (min ≤ String.length d)%nat
  | r_seq r1 r2 => ∃ s1, lang r1 s s1 ∧ lang r2 s1 s'
  | r_alt r1 r2 => lang r1 s s' ∨ lang r2 s s'
  | r_opt r1 => lang r1 s s' ∨ s' = s
  | r_group r1 => lang r1 s s'
  | r_bol => s' = s
  end.

(** A pattern without [^] *)
Fixpoint plain (r : regex) : bool :=
  match r with
  | r_lit _ | r_many _ _ => true
  | r_seq r1 r2 | r_alt r1 r2 => plain r1 && plain r2
  | r_opt r1 | r_group r1 => plain r1
  | r_bol => false
  end.

(** The text declares a byte array of [size] bytes: [char], white space, a
    name and the size in decimal between brackets. *)
Definition declares_array (code : string) (size : Z) : Prop :=
  ∃ pre d1 w d2 d3 digits d4 post,
    blank d1 ∧ d1 ≠ "" ∧ identifier w ∧ blank d2 ∧ blank d3 ∧ numeral digits
    ∧ blank d4 ∧ int_value digits = size
    ∧ code = pre +:+ "char" +:+ d1 +:+ w +:+ d2 +:+ "[" +:+ d3 +:+ digits +:+ d4
             +:+ "]" +:+ post.

(** The text calls [delay] with the duration [ms] in decimal. *)
Definition calls_delay (code : string) (ms : Z) : Prop :=
  ∃ pre d1 d2 digits d3 post,
    blank d1 ∧ blank d2 ∧ numeral digits ∧ blank d3 ∧ int_value digits = ms
    ∧ code = pre +:+ "delay" +:+ d1 +:+ "(" +:+ d2 +:+ digits +:+ d3 +:+ ")" +:+ post.

(** The issue of the safety rule for a text without [Serial.begin] *)
Definition missing_serial_issue : CodeIssue :=
  {| type := "safety"; severity := "low";
     message := "Missing Serial.begin() - debugging will be difficult";
     suggestion := "Add Serial.begin(115200); in setup()";
     line_number := None |}.

(** A match of [r] begins at the head of [s]. *)
Definition starts (r : regex) (s : string) : Prop := ∃ s', lang r s s'.

(** No character of [t] is [a]. *)
Fixpoint avoids (a : ascii) (t : string) : bool :=
  match t with
  | EmptyString => true
  | String b t' => negb (Ascii.eqb b a) && avoids a t'
  end.

(** No match of [r] begins inside [t], nor at its head, when [rest]
    follows it. *)
Definition clear (r : regex) (t rest : string) : Prop :=
  ∀ u v, t = u +:+ v → v ≠ "" → ¬ starts r (v +:+ rest).

(** The text [x] does not go on with a character of the class [c]. *)
Definition stops (c : cclass) (x : string) : Prop :=
  match x with
  | EmptyString => True
  | String a _ => in_class c a = false
  end.

(** Matches of [r] do not overlap: no match begins inside another. *)
Definition apart (r : regex) : Prop :=
  ∀ a m s', lang r (String a m +:+ s') s' → clear r m s'.

(** The client after a sequence of calls; a call that raises leaves the
    client as it was. *)
Fixpoint after_calls (HAS_QUALITY_SERVER : bool) (calls : list (string * string))
  (self : MCPClient.t) : MCPClient.t :=
  match calls with
  | [] => self
  | (code, board) :: rest =>
      match MCPClient.analyze_code_quality HAS_QUALITY_SERVER code board self with
      | Ok (_, self') => after_calls HAS_QUALITY_SERVER rest self'
      | Raise _ => after_calls HAS_QUALITY_SERVER rest self
      end
  end.

(** * Properties *)

(** ** What a match of a pattern consumes and captures *)

Section Matcher.

Lemma append_length (d s : string) :
  String.length (d +:+ s) = (String.length d + String.length s)%nat.
Proof. induction d as [|a d IH]; simpl; [done | by rewrite IH]. Qed.

Lemma take_append (d s : string) : Str.take (String.length d) (d +:+ s) = d.
Proof. induction d as [|a d IH]; simpl; [by destruct s | by rewrite IH]. Qed.

Lemma consumed_append (d s : string) : consumed (d +:+ s) s = d.
Proof.
  unfold consumed. rewrite append_length.
  replace (String.length d + String.length s - String.length s)%nat
    with (String.length d) by lia.
  apply take_append.
Qed.

Lemma lit_match_sound (p : string) :
  ∀ prev s prev' s', lit_match p prev s = Some (prev', s') → s = p +:+ s'.
Proof.
  induction p as [|a p IH]; intros prev s prev' s' H; simpl in H.
  - by inversion H.
  - destruct s as [|b s]; [done |].
    destruct (Ascii.eqb a b) eqn:E; [| done].
    apply Ascii.eqb_eq in E as ->.
    change (String b s = String b (p +:+ s')). f_equal. by eapply IH.
Qed.

Lemma many_match_sound {A} (c : cclass) (k : option ascii → string → option A) :
  ∀ s prev min x,
    many_match c prev s min k = Some x →
    ∃ d s' prev',
      s = d +:+ s' ∧ all_in c d = true ∧ (min ≤ String.length d)%nat
      ∧ k prev' s' = Some x.
Proof.
  induction s as [|a s IH]; intros prev min x H; simpl in H.
  - destruct min; [| done]. by exists EmptyString, EmptyString, prev.
  - destruct (in_class c a) eqn:Ea.
    + destruct (many_match c (Some a) s (Nat.pred min) k) as [y|] eqn:Em.
      * inversion H; subst y.
        destruct (IH _ _ _ Em) as (d & s' & prev' & -> & Hd & Hl & Hk).
        exists (String a d), s', prev'. simpl. rewrite Ea, Hd.
        repeat split; [lia | done].
      * destruct min; [| done]. by exists EmptyString, (String a s), prev.
    + destruct min; [| done]. by exists EmptyString, (String a s), prev.
Qed.

Lemma rmatch_sound (r : regex) :
  ∀ A (k : option ascii → string → option string → option A) prev s g x,
    rmatch r prev s g k = Some x →
    ∃ prev' s' g', post r s g s' g' ∧ k prev' s' g' = Some x.
Proof.
  induction r as [p|c min|r1 IH1 r2 IH2|r1 IH1 r2 IH2|r1 IH1|r1 IH1|];
    intros A k prev s g x H; simpl in H.
  - destruct (lit_match p prev s) as [[prev' s']|] eqn:E; [| done].
    exists prev', s', g. split; [| done]. split; [| done].
    eapply lit_match_sound, E.
  - apply many_match_sound in H as (d & s' & prev' & -> & Hd & Hl & Hk).
    exists prev', s', g. split; [| done]. by exists d.
  - apply IH1 in H as (p1 & s1 & g1 & H1 & H).
    apply IH2 in H as (p2 & s2 & g2 & H2 & H).
    exists p2, s2, g2. split; [| done]. by exists s1, g1.
  - destruct (rmatch r1 prev s g k) as [y|] eqn:E.
    + inversion H; subst y. apply IH1 in E as (p1 & s1 & g1 & H1 & E).
      exists p1, s1, g1. split; [by left | done].
    + apply IH2 in H as (p2 & s2 & g2 & H2 & H).
      exists p2, s2, g2. split; [by right | done].
  - destruct (rmatch r1 prev s g k) as [y|] eqn:E.
    + inversion H; subst y. apply IH1 in E as (p1 & s1 & g1 & H1 & E).
      exists p1, s1, g1. split; [by left | done].
    + exists prev, s, g. split; [by right | done].
  - apply IH1 in H as (p1 & s1 & g1 & H1 & H).
    exists p1, s1, (Some (consumed s s1)). split; [| done].
    split; [done | by exists g1].
  - destruct prev as [c|].
    + destruct (Ascii.eqb c "010"); [| done]. by exists (Some c), s, g.
    + by exists None, s, g.
Qed.

Lemma match_here_post (r : regex) prev s s' g :
  match_here r prev s = Some (s', g) → post r s None s' g.
Proof.
  intros H. apply rmatch_sound in H as (p1 & s1 & g1 & H1 & H).
  by inversion H; subst.
Qed.

(** Every item of [findall] comes from a match. *)
Lemma scan_Forall (P : string → Prop) (r : regex) :
  (∀ prev s s' g, match_here r prev s = Some (s', g) → P (item r s s' g)) →
  ∀ s prev skip, Forall P (scan r prev skip s).
Proof.
  intros HP. induction s as [|a s IH]; intros prev skip.
  - destruct skip; simpl; [| done].
    destruct (match_here r prev EmptyString) as [[s' g]|] eqn:E; [| done].
    constructor; [by eapply HP | done].
  - destruct skip; simpl; [| done].
    destruct (match_here r prev (String a s)) as [[s' g]|] eqn:E; [| done].
    constructor; [by eapply HP | done].
Qed.

Lemma int_digits_total (d : string) :
  all_in c_digit d = true → ∀ acc, ∃ n, int_digits acc d = Ok n.
Proof.
  induction d as [|a d IH]; simpl; intros H acc; [by eexists |].
  apply andb_prop in H as [Ha Hd]. rewrite Ha. eauto.
Qed.

Lemma py_int_numeral (d : string) : numeral d → ∃ n, py_int d = Ok n.
Proof.
  intros [Hd Hne]. destruct d as [|a d]; [done |].
  apply (int_digits_total _ Hd 0).
Qed.

Lemma large_array_items (code : string) :
  Forall numeral (findall large_array_pattern code).
Proof.
  apply scan_Forall. intros prev s s' g H.
  apply match_here_post in H. unfold item; simpl has_group.
  simpl in H. destruct H as (s1 & g1 & [_ ->] & s2 & g2 & (? & _ & _ & _ & ->)
    & s3 & g3 & (? & _ & _ & _ & ->) & s4 & g4 & (? & _ & _ & _ & ->)
    & s5 & g5 & [_ ->] & s6 & g6 & (? & _ & _ & _ & ->)
    & s7 & g7 & [-> (? & n & -> & Hn & Hl & _)]
    & s8 & g8 & (? & _ & _ & _ & ->) & [_ ->]).
  simpl. rewrite consumed_append. split; [done |].
  intros ->. simpl in Hl. lia.
Qed.

Lemma delay_items (code : string) :
  Forall numeral (findall delay_pattern code).
Proof.
  apply scan_Forall. intros prev s s' g H.
  apply match_here_post in H. unfold item; simpl has_group.
  simpl in H. destruct H as (s1 & g1 & [_ ->] & s2 & g2 & (? & _ & _ & _ & ->)
    & s3 & g3 & [_ ->] & s4 & g4 & (? & _ & _ & _ & ->)
    & s5 & g5 & [-> (? & n & -> & Hn & Hl & _)]
    & s6 & g6 & (? & _ & _ & _ & ->) & [_ ->]).
  simpl. rewrite consumed_append. split; [done |].
  intros ->. simpl in Hl. lia.
Qed.

End Matcher.

(** ** The detection rules only append issues *)

Section Frames.

Lemma add_issues_nil self : add_issues self [] = self.
Proof. destruct self. unfold add_issues. simpl. by rewrite app_nil_r. Qed.

Lemma add_issues_app self l1 l2 :
  add_issues (add_issues self l1) l2 = add_issues self (l1 ++ l2).
Proof. unfold add_issues. simpl. by rewrite app_assoc. Qed.

Lemma emits_ret code : emits (mret tt) code [].
Proof. intros self _. by rewrite add_issues_nil. Qed.

Lemma emits_append i code : emits (append i) code [i].
Proof. by intros self _. Qed.

Lemma emits_when (b : bool) m code l :
  emits m code l → emits (when b m) code (if b then l else []).
Proof. destruct b; [done | intros _; apply emits_ret]. Qed.

Lemma emits_seq (m1 m2 : M unit) code l1 l2 :
  emits m1 code l1 → emits m2 code l2 → emits (m1;; m2) code (l1 ++ l2).
Proof.
  intros H1 H2 self Hc. unfold mbind, M_bind. rewrite (H1 self Hc).
  rewrite (H2 (add_issues self l1) Hc). by rewrite add_issues_app.
Qed.

Lemma emits_get_code (f : string → M unit) code l :
  emits (f code) code l → emits (get_code ≫= f) code l.
Proof.
  intros H self Hc. unfold mbind, M_bind, get_code. rewrite Hc. by apply H.
Qed.

Lemma emits_lift {A} (r : result A) (a : A) (f : A → M unit) code l :
  r = Ok a → emits (f a) code l → emits (lift r ≫= f) code l.
Proof. intros -> H self Hc. unfold mbind, M_bind, lift. by apply H. Qed.

Lemma emits_for_each {A} (xs : list A) (body : A → M unit) code
  (f : A → list CodeIssue) :
  Forall (λ x, emits (body x) code (f x)) xs →
  emits (for_each xs body) code (concat (f <$> xs)).
Proof.
  induction 1 as [|x xs Hx _ IH]; simpl.
  - apply emits_ret.
  - by apply emits_seq.
Qed.

Lemma emits_emitted m code l : emits m code l → emitted m code = l.
Proof. intros H. unfold emitted. by rewrite (H (fresh code PyNone)). Qed.

Lemma emits_exists m code : (∃ l, emits m code l) → emits m code (emitted m code).
Proof. intros [l H]. by rewrite (emits_emitted _ _ _ H). Qed.

Lemma emits_emitted' m code l : emits m code l → emits m code (emitted m code).
Proof. intros H. by rewrite (emits_emitted _ _ _ H). Qed.

Lemma emits_run {A} (m : M unit) (k : M A) code l self :
  emits m code l → self_code self = PyStr code →
  (m;; k) self = k (add_issues self l).
Proof. intros H Hc. unfold mbind, M_bind. by rewrite (H self Hc). Qed.

Lemma emits_unique m code l1 l2 : emits m code l1 → emits m code l2 → l1 = l2.
Proof. intros H1 H2. by rewrite <- (emits_emitted _ _ _ H1), <- (emits_emitted _ _ _ H2). Qed.

End Frames.

Lemma py_int_value (d : string) : numeral d → py_int d = Ok (int_value d).
Proof.
  intros H. unfold int_value. by destruct (py_int_numeral d H) as [n ->].
Qed.

Section Rules.

Variable code : string.
Variable board_info : BoardInfo.

Ltac frame :=
  apply emits_exists; eexists;
  repeat first
    [ apply emits_get_code | apply emits_seq | apply emits_when
    | apply emits_append | apply emits_ret ].

Lemma check_correctness_emits :
  emits _check_correctness code (emitted _check_correctness code).
Proof. unfold _check_correctness. frame. Qed.

Lemma check_safety_emits : emits _check_safety code (emitted _check_safety code).
Proof. unfold _check_safety. frame. Qed.

Lemma int_truediv_ok (a b : Z) : b ≠ 0 → F64.int_truediv a b = Ok (F64.ratio a b).
Proof. intros H. unfold F64.int_truediv. by destruct (Z.eqb_spec b 0). Qed.

Lemma check_style_emits : emits _check_style code (emitted _check_style code).
Proof.
  unfold _check_style. apply emits_exists. eexists.
  apply emits_get_code, emits_seq; [apply emits_when, emits_append |].
  eapply emits_lift; [apply int_truediv_ok; lia |].
  apply emits_seq; apply emits_when, emits_append.
Qed.

(** The memory rule: one issue for each declared size above 1000, in the
    order of the declarations, then at most two issues that are not about
    an array. *)
Lemma check_memory_safety_emits :
  ∃ rest,
    emits (_check_memory_safety board_info) code
      ((large_array_issue board_info
          <$> List.filter (λ n, 1000 <? n) (declared_sizes code)) ++ rest)
    ∧ Forall (λ i, type i = "memory"
                   ∧ (severity i = "high" ∨ severity i = "medium")
                   ∧ ∀ n, message i ≠ message (large_array_issue board_info n)) rest.
Proof.
  eexists. split.
  - unfold _check_memory_safety. apply emits_get_code, emits_seq.
    + replace (large_array_issue board_info
                 <$> List.filter (λ n, 1000 <? n) (declared_sizes code))
        with (concat ((λ x, if 1000 <? int_value x
                            then [large_array_issue board_info (int_value x)]
                            else []) <$> Re.findall large_array_pattern code)).
      * apply emits_for_each.
        eapply Forall_impl; [apply large_array_items |]. intros x Hx.
        eapply emits_lift; [by apply py_int_value |].
        apply emits_when, emits_append.
      * unfold declared_sizes.
        induction (findall large_array_pattern code) as [|x xs IH]; [done |].
        rewrite !fmap_cons. cbn [concat List.filter]. rewrite IH.
        by destruct (1000 <? int_value x).
    + apply emits_seq; apply emits_when, emits_append.
  - apply Forall_app. split.
    + destruct (_ && _); [apply Forall_singleton | by apply Forall_nil].
      split; [done |]. split; [by left | intros n; discriminate].
    + destruct (_ <? _); [apply Forall_singleton | by apply Forall_nil].
      split; [done |]. split; [by right | intros n; discriminate].
Qed.

(** The performance rule: the issue of each delay call, in the order of
    the calls, then at most two issues that are not about a delay. *)
Lemma check_performance_emits :
  ∃ rest,
    emits (_check_performance board_info) code
      (concat (delay_issue board_info <$> delay_durations code) ++ rest)
    ∧ Forall (λ i, type i = "performance"
                   ∧ (severity i = "high" ∨ severity i = "medium")
                   ∧ ∀ ms, i ∉ delay_issue board_info ms) rest.
Proof.
  eexists. split.
  - unfold _check_performance. apply emits_get_code, emits_seq.
    + unfold delay_durations. rewrite <- list_fmap_compose.
      apply emits_for_each.
      eapply Forall_impl; [apply delay_items |]. intros x Hx.
      eapply emits_lift; [by apply py_int_value |].
      unfold compose, delay_issue.
      destruct (10000 <=? int_value x); [| destruct (1000 <=? int_value x)].
      * apply emits_append.
      * destruct (is_realtime board_info); apply emits_append.
      * apply emits_ret.
    + apply emits_seq; apply emits_when, emits_append.
  - assert (∀ i ms, i ∈ delay_issue board_info ms →
                    ∃ d, message i = "Very long delay (" +:+ d
                         ∨ message i = "Long delay (" +:+ d) as Hmsg.
    { intros i ms. unfold delay_issue.
      destruct (10000 <=? ms); [| destruct (1000 <=? ms)];
        [intros ->%list_elem_of_singleton; eexists; by left
        |intros ->%list_elem_of_singleton; eexists; by right
        |by intros ?%elem_of_nil]. }
    apply Forall_app. split.
    + destruct (search _ _); [apply Forall_singleton | by apply Forall_nil].
      split; [done |]. split; [by left |].
      intros ms (d & [Hd | Hd])%Hmsg; discriminate Hd.
    + destruct (_ && _); [apply Forall_singleton | by apply Forall_nil].
      split; [done |]. split; [by right |].
      intros ms (d & [Hd | Hd])%Hmsg; discriminate Hd.
Qed.

End Rules.

(** ** Binary64 facts used by the estimator *)

Section Binary64.

Lemma digits2_pos_bound (m : positive) : Zpos m < 2 ^ Zpos (digits2_pos m).
Proof.
  induction m as [m IH|m IH|]; simpl digits2_pos;
    rewrite ?Pos2Z.inj_succ, ?Z.pow_succ_r by lia; lia.
Qed.

Lemma shr_1_digits (mrs : shr_record) :
  Zdigits2 (shr_m (shr_1 mrs)) = Z.max 0 (Zdigits2 (shr_m mrs) - 1).
Proof.
  destruct mrs as [[|[p|p|]|[p|p|]] r s]; simpl; lia.
Qed.

Lemma iter_shr_1_digits (p : positive) :
  ∀ mrs, Zdigits2 (shr_m (SpecFloat.iter_pos shr_1 p mrs))
         = Z.max 0 (Zdigits2 (shr_m mrs) - Zpos p).
Proof.
  induction p as [p IH|p IH|]; intros mrs; simpl SpecFloat.iter_pos.
  - rewrite !IH, shr_1_digits. lia.
  - rewrite !IH. lia.
  - apply shr_1_digits.
Qed.

Lemma shr_record_of_loc_m (m : Z) (l : location) : shr_m (shr_record_of_loc m l) = m.
Proof. by destruct l as [|[]]. Qed.

(** After the shift of [shr_fexp] the mantissa fits the precision. *)
Lemma shr_fexp_digits (m e : Z) (l : location) :
  Zdigits2 (shr_m (shr_fexp 53 1024 m e l).1) ≤ 53.
Proof.
  unfold shr_fexp, shr, fexp, emin.
  assert (0 ≤ Zdigits2 m) by (destruct m; simpl; lia).
  destruct (Z.max (Zdigits2 m + e - 53) (3 - 1024 - 53) - e) as [|p|p] eqn:E;
    simpl; rewrite ?iter_shr_1_digits, shr_record_of_loc_m; lia.
Qed.

Lemma shr_1_nonneg (mrs : shr_record) : 0 ≤ shr_m mrs → 0 ≤ shr_m (shr_1 mrs).
Proof. destruct mrs as [[|[p|p|]|[p|p|]] r s]; simpl; lia. Qed.

Lemma iter_shr_1_nonneg (p : positive) :
  ∀ mrs, 0 ≤ shr_m mrs → 0 ≤ shr_m (SpecFloat.iter_pos shr_1 p mrs).
Proof.
  induction p as [p IH|p IH|]; intros mrs H; simpl SpecFloat.iter_pos;
    auto using shr_1_nonneg.
Qed.

Lemma shr_fexp_nonneg (m e : Z) (l : location) :
  0 ≤ m → 0 ≤ shr_m (shr_fexp 53 1024 m e l).1.
Proof.
  intros H. unfold shr_fexp, shr.
  destruct (fexp 53 1024 (Zdigits2 m + e) - e); simpl;
    rewrite <- (shr_record_of_loc_m m l) in H; auto using iter_shr_1_nonneg.
Qed.

Lemma round_nearest_even_nonneg (m : Z) (l : location) :
  0 ≤ m → 0 ≤ round_nearest_even m l.
Proof. destruct l as [|[]]; simpl; [| destruct (Z.even m) | |]; lia. Qed.

(** The values [binary_round_aux] can return *)
Lemma binary_round_aux_cases (s : bool) (m e : Z) (l : location) :
  let r := binary_round_aux 53 1024 s m e l in
  r = S754_zero s ∨ r = S754_infinity s
  ∨ (∃ m' e', r = S754_finite s m' e' ∧ Zpos m' < 2 ^ 53)
  ∨ (r = S754_nan ∧ m < 0).
Proof.
  unfold binary_round_aux.
  destruct (shr_fexp 53 1024 m e l) as [mrs' e'] eqn:E1.
  destruct (shr_fexp 53 1024 (round_nearest_even (shr_m mrs')
              (loc_of_shr_record mrs')) e' loc_Exact) as [mrs'' e''] eqn:E2.
  pose proof (shr_fexp_digits (round_nearest_even (shr_m mrs')
                (loc_of_shr_record mrs')) e' loc_Exact) as Hd.
  pose proof (shr_fexp_nonneg (round_nearest_even (shr_m mrs')
                (loc_of_shr_record mrs')) e' loc_Exact) as Hn.
  pose proof (shr_fexp_nonneg m e l) as Hn1.
  rewrite E2 in Hd, Hn. rewrite E1 in Hn1. simpl in Hd, Hn, Hn1.
  destruct (shr_m mrs'') as [|m''|m''] eqn:Em; simpl.
  - by left.
  - destruct (e'' <=? 1024 - 53); [| by right; left].
    right; right; left. exists m'', e''. split; [done |].
    simpl in Hd. pose proof (digits2_pos_bound m'').
    assert (2 ^ Zpos (digits2_pos m'') ≤ 2 ^ 53)
      by (apply Z.pow_le_mono_r; lia).
    lia.
  - right; right; right. split; [done |].
    destruct (Z.lt_ge_cases m 0) as [|Hm]; [done |].
    specialize (Hn (round_nearest_even_nonneg _ _ (Hn1 Hm))). lia.
Qed.

Lemma binary_round_aux_not_negative (m e : Z) (l : location) :
  not_negative (binary_round_aux 53 1024 false m e l).
Proof.
  destruct (binary_round_aux_cases false m e l)
    as [-> | [-> | [(m' & e' & -> & _) | [-> _]]]]; done.
Qed.

Lemma binary_round_aux_nonneg (m e : Z) (l : location) :
  0 ≤ m → F64.ge_int (binary_round_aux 53 1024 false m e l) 0 = true.
Proof.
  intros Hm.
  destruct (binary_round_aux_cases false m e l)
    as [-> | [-> | [(m' & e' & -> & _) | [_ ?]]]]; [done | done | | lia].
  simpl. apply Z.leb_le. by apply Z.mul_nonneg_nonneg; [| apply Z.pow_nonneg].
Qed.

Lemma raw_not_negative (z : Z) : 0 ≤ z → not_negative (F64.raw z).
Proof. destruct z; simpl; [done | done | lia]. Qed.

Lemma of_int_not_negative (z : Z) : 0 ≤ z → not_negative (F64.of_int z).
Proof.
  destruct z as [|p|p]; [done | | lia]. intros _.
  unfold F64.of_int, binary_normalize, binary_round.
  destruct (shl_align _ _ _). apply binary_round_aux_not_negative.
Qed.

Lemma div_not_negative (x y : spec_float) :
  not_negative x → not_negative y → not_negative (SFdiv 53 1024 x y).
Proof.
  destruct x as [sx|sx| |sx mx ex], y as [sy|sy| |sy my ey]; simpl;
    try done; try (by intros -> ->).
  intros -> ->. destruct (SFdiv_core_binary _ _ _ _ _ _) as [[mz ez] lz].
  apply binary_round_aux_not_negative.
Qed.

Lemma mul_not_negative (x y : spec_float) :
  not_negative x → not_negative y → not_negative (F64.mul x y).
Proof.
  destruct x as [sx|sx| |sx mx ex], y as [sy|sy| |sy my ey]; simpl;
    try done; try (by intros -> ->).
  intros -> ->. apply binary_round_aux_not_negative.
Qed.

Lemma add_not_negative (x y : spec_float) :
  not_negative x → not_negative y → not_negative (F64.add x y).
Proof.
  destruct x as [sx|sx| |sx mx ex], y as [sy|sy| |sy my ey]; simpl;
    try done; try (by intros -> ->).
  intros -> ->. simpl. unfold binary_round.
  destruct (shl_align _ _ _). apply binary_round_aux_not_negative.
Qed.

Lemma mul_bounded (x y : spec_float) s m e :
  F64.mul x y = S754_finite s m e → Zpos m < 2 ^ 53.
Proof.
  unfold F64.mul, F64.prec, F64.emax, SFmul.
  destruct x as [sx|sx| |sx mx ex], y as [sy|sy| |sy my ey]; try done.
  intros H.
  destruct (binary_round_aux_cases (xorb sx sy) (Zpos (mx * my)) (ex + ey) loc_Exact)
    as [E | [E | [(m' & e' & E & Hm) | [E _]]]]; rewrite E in H;
    [done | done | | done].
  by inversion H; subst.
Qed.

(** A float that compares below 100 and is not negative has its exact
    value in the interval from 0 to 100. *)
Lemma below_100_range (x : spec_float) :
  F64.ltb x (F64.of_int 100) = true → not_negative x →
  (∀ s m e, x = S754_finite s m e → Zpos m < 2 ^ 53) →
  F64.ge_int x 0 = true ∧ F64.le_int x 100 = true.
Proof.
  change (F64.of_int 100) with (S754_finite false 7036874417766400 (-46)).
  unfold F64.ltb, SFltb.
  destruct x as [s|s| |s m e];
    cbn [SFcompare F64.ge_int F64.le_int not_negative cond_Zopp];
    [done | by destruct s | done |].
  intros H -> Hm. specialize (Hm _ _ _ eq_refl). cbn [cond_Zopp].
  split; apply Z.leb_le.
  - by apply Z.mul_nonneg_nonneg; [| apply Z.pow_nonneg].
  - revert H. destruct (Z.compare_spec e (-46)) as [He|He|He].
    + subst e.
      destruct (PosDef.Pos.compare_cont Eq m 7036874417766400) eqn:E;
        intros H; try discriminate H.
      assert (Z.pos m < 7036874417766400) as Hlt by exact E. clear E.
      rewrite Z.max_r, Z.max_l by lia.
      change (- -46) with 46. change (2^0) with 1.
      change (2^46) with 70368744177664. lia.
    + intros _. rewrite (Z.max_l (- e)), (Z.max_r e) by lia.
      assert (2 ^ 47 ≤ 2 ^ (- e)) by (apply Z.pow_le_mono_r; lia).
      change (2^0) with 1. change (2 ^ 47) with 140737488355328 in *.
      change (2 ^ 53) with 9007199254740992 in *. lia.
    + intros H; discriminate H.
Qed.

Lemma half_even_bounds (num den c : Z) :
  0 ≤ num → 0 < den → num ≤ c * den →
  0 ≤ F64.half_even num den ≤ c.
Proof.
  intros Hn Hd Hc. unfold F64.half_even.
  pose proof (Z.div_mod num den ltac:(lia)) as E.
  pose proof (Z.mod_pos_bound num den Hd) as Hr.
  assert (0 ≤ num / den) by (apply Z.div_pos; lia).
  assert (num / den ≤ c) by nia.
  destruct (Z.compare_spec (2 * (num mod den)) den);
    [destruct (Z.even (num / den)) | |]; nia.
Qed.

Lemma div_core_nonneg (m1 m2 : positive) (e1 e2 : Z) :
  0 ≤ (SFdiv_core_binary 53 1024 (Zpos m1) e1 (Zpos m2) e2).1.1.
Proof.
  unfold SFdiv_core_binary.
  set (s := e1 - e2 - _).
  set (m' := match s with Z0 => _ | Zpos _ => _ | Zneg _ => _ end).
  assert (0 ≤ m') as Hm'
    by (subst m'; destruct s; [lia | by apply Z.shiftl_nonneg | lia]).
  pose proof (Z.div_pos m' (Zpos m2) Hm' ltac:(lia)) as Hq.
  unfold Z.div in Hq. by destruct (Z.div_eucl m' (Zpos m2)).
Qed.

(** A quotient of two positive integers is not negative and not a NaN. *)
Lemma ratio_nonneg (a b : positive) :
  F64.ge_int (F64.ratio (Zpos a) (Zpos b)) 0 = true.
Proof.
  unfold F64.ratio. simpl.
  pose proof (div_core_nonneg a b 0 0) as H.
  destruct (SFdiv_core_binary _ _ _ _ _ _) as [[mz ez] lz].
  by apply binary_round_aux_nonneg.
Qed.

Lemma tenths_range (k : Z) : 1 ≤ k ≤ 1000 → in_0_100 (F64.ratio k 10) = true.
Proof.
  intros Hk.
  assert (forallb (λ k, in_0_100 (F64.ratio k 10)) (seqZ 1 1000) = true) as H
    by (vm_compute; reflexivity).
  rewrite forallb_forall in H. apply H, list_elem_of_In, elem_of_seqZ. lia.
Qed.

Lemma ge_int_0_finite (s : bool) (m : positive) (e : Z) :
  F64.ge_int (S754_finite s m e) 0 = true → s = false.
Proof.
  destruct s; [| done]. simpl. intros H%Z.leb_le.
  pose proof (Z.pow_pos_nonneg 2 (Z.max e 0) ltac:(lia) ltac:(lia)). nia.
Qed.

(** [round(x, 1)] keeps a value of the interval from 0 to 100 inside it. *)
Lemma round_1_range (x : spec_float) :
  in_0_100 x = true → in_0_100 (F64.round x 1) = true.
Proof.
  unfold in_0_100. intros [Hge Hle]%andb_prop.
  destruct x as [s|s| |s m e]; [done | by destruct s | done |].
  pose proof (ge_int_0_finite _ _ _ Hge) as ->.
  unfold F64.round. change (10 ^ Z.of_nat 1) with 10.
  simpl in Hle. apply Z.leb_le in Hle.
  assert (0 ≤ (if 0 <=? e then Z.pos m * 2 ^ e * 10
               else F64.half_even (Z.pos m * 10) (2 ^ (- e))) ≤ 1000) as Hk.
  { destruct (Z.leb_spec 0 e) as [He|He].
    - rewrite Z.max_l, Z.max_r in Hle by lia. change (2 ^ 0) with 1 in Hle.
      pose proof (Z.pow_pos_nonneg 2 e ltac:(lia) He). nia.
    - rewrite Z.max_r, Z.max_l in Hle by lia. change (2 ^ 0) with 1 in Hle.
      apply half_even_bounds; [lia | apply Z.pow_pos_nonneg; lia | lia]. }
  destruct (if 0 <=? e then _ else _) as [|k|k]; [done | | lia].
  apply (tenths_range (Z.pos k)). lia.
Qed.

(** [round(x, 2)] of a value that is not negative is not negative. *)
Lemma round_2_nonneg (x : spec_float) :
  F64.ge_int x 0 = true → F64.ge_int (F64.round x 2) 0 = true.
Proof.
  intros Hge. destruct x as [s|s| |s m e]; [done | done | done |].
  pose proof (ge_int_0_finite _ _ _ Hge) as ->.
  unfold F64.round. change (10 ^ Z.of_nat 2) with 100.
  assert (0 ≤ (if 0 <=? e then Z.pos m * 2 ^ e * 100
               else F64.half_even (Z.pos m * 100) (2 ^ (- e)))) as Hk.
  { destruct (Z.leb_spec 0 e) as [He|He].
    - pose proof (Z.pow_pos_nonneg 2 e ltac:(lia) He). nia.
    - pose proof (Z.pow_pos_nonneg 2 (- e) ltac:(lia) ltac:(lia)).
      apply (half_even_bounds _ _ (Z.pos m * 100)); [lia | lia | nia]. }
  destruct (if 0 <=? e then _ else _) as [|k|k]; [done | | lia].
  apply ratio_nonneg.
Qed.

End Binary64.

(** ** Bounds on the numbers of the report *)

Section Clamps.

Lemma min_100_range (x : spec_float) :
  not_negative x →
  (∀ s m e, x = S754_finite s m e → Zpos m < 2 ^ 53) →
  let u := min_100 x in
  num_ge u 0 ∧ num_le u 100
  ∧ num_ge (round_num u 1) 0 ∧ num_le (round_num u 1) 100.
Proof.
  intros Hx Hm. unfold min_100.
  destruct (F64.ltb x (F64.of_int 100)) eqn:E; simpl; [| lia].
  destruct (below_100_range x E Hx Hm) as [Hge Hle].
  assert (in_0_100 (F64.round x 1) = true) as [? ?]%andb_prop
    by (apply round_1_range; unfold in_0_100; by rewrite Hge, Hle).
  done.
Qed.

Lemma max_0_nonneg (x : spec_float) :
  let f := max_0 x in num_ge f 0 ∧ num_ge (round_num f 2) 0.
Proof.
  unfold max_0. change (F64.of_int 0) with (S754_zero false).
  destruct (F64.ltb (S754_zero false) x) eqn:E; simpl; [| lia].
  assert (F64.ge_int x 0 = true) as Hge.
  { destruct x as [s|s| |s m e]; try done; destruct s; try done.
    simpl. apply Z.leb_le.
    by apply Z.mul_nonneg_nonneg; [| apply Z.pow_nonneg]. }
  split; [done | by apply round_2_nonneg].
Qed.

End Clamps.

(** ** The board registry *)

Section Registry.

Lemma registered_cases board_info :
  registered board_info →
  board_info = esp32dev ∨ board_info = esp32s3 ∨ board_info = esp32c3.
Proof.
  intros [b H]. unfold BOARD_SPECS in H.
  apply lookup_insert_Some in H as [[_ <-] | [_ H]]; [by left |].
  apply lookup_insert_Some in H as [[_ <-] | [_ H]]; [by right; left |].
  apply lookup_singleton_Some in H as [_ <-]. by right; right.
Qed.

Lemma resolve_registered board : registered (resolve board).
Proof.
  unfold resolve. destruct (BOARD_SPECS !! board) as [bi|] eqn:E.
  - by exists board.
  - by exists "esp32dev".
Qed.

Lemma BOARD_SPECS_get_str board : BOARD_SPECS_get (PyStr board) = Ok (resolve board).
Proof. reflexivity. Qed.

Lemma total_ram_nonzero board_info :
  registered board_info →
  F64.is_zero (F64.of_int (total_ram_kb board_info)) = false
  ∧ 0 ≤ total_ram_kb board_info ∧ 0 ≤ system_reserved_kb board_info.
Proof.
  intros [-> | [-> | ->]]%registered_cases; by vm_compute.
Qed.

End Registry.

(** ** The memory estimator *)

Section Estimator.

Lemma ratio_not_negative (a b : Z) : 0 ≤ a → 0 ≤ b → not_negative (F64.ratio a b).
Proof. intros. by apply div_not_negative; apply raw_not_negative. Qed.

Lemma len_nonneg {A} (l : list A) : 0 ≤ len l.
Proof. unfold len. lia. Qed.

Lemma used_kb_ok code board_info :
  0 ≤ system_reserved_kb board_info →
  ∃ used_kb, Mem.used_kb code board_info = Ok used_kb ∧ not_negative used_kb.
Proof.
  intros Hr. unfold Mem.used_kb, Mem.code_size_kb, Mem.estimated_global_kb.
  rewrite !int_truediv_ok by lia. eexists. split; [reflexivity |].
  repeat apply add_not_negative.
  - apply ratio_not_negative; unfold Str.len; lia.
  - apply ratio_not_negative; [| lia].
    pose proof (len_nonneg (findall global_var_pattern code)).
    pose proof (len_nonneg (findall array_pattern code)).
    pose proof (len_nonneg (findall struct_pattern code)).
    unfold Mem.global_vars, Mem.arrays, Mem.structs. lia.
  - by apply of_int_not_negative.
Qed.

(** A run of the estimator on a text and a profile of the registry *)
Lemma estimate_memory_run code board_info self :
  self_code self = PyStr code →
  registered board_info →
  let code_size_kb := F64.ratio (Str.len code) 1024 in
  let estimated_global_kb :=
    F64.ratio (len (Re.findall global_var_pattern code) * 4
               + len (Re.findall array_pattern code) * 20
               + len (Re.findall struct_pattern code) * 10) 1024 in
  let used_kb :=
    F64.add (F64.add code_size_kb estimated_global_kb)
            (F64.of_int (system_reserved_kb board_info)) in
  let quotient := SFdiv 53 1024 used_kb (F64.of_int (total_ram_kb board_info)) in
  let free_kb := max_0 (F64.sub (F64.of_int (total_ram_kb board_info)) used_kb) in
  let usage_percent := min_100 (F64.mul quotient (F64.of_int 100)) in
  not_negative used_kb
  ∧ F64.truediv used_kb (F64.of_int (total_ram_kb board_info)) = Ok quotient
  ∧ _estimate_memory board_info self
    = Ok ({| estimated_code_size_kb := F64.round code_size_kb 2;
             estimated_global_vars_kb := F64.round estimated_global_kb 2;
             estimated_free_ram_kb := round_num free_kb 2;
             usage_percent := round_num usage_percent 1;
             safety_margin := Mem.safety usage_percent |}, self).
Proof.
  intros Hcode Hreg.
  destruct (total_ram_nonzero _ Hreg) as (Hnz & Hram & Hres).
  destruct (used_kb_ok code board_info Hres) as (used & Hused & Hnn).
  pose proof Hused as Hused'.
  unfold Mem.used_kb, Mem.code_size_kb, Mem.estimated_global_kb in Hused'.
  rewrite !int_truediv_ok in Hused' by lia. injection Hused' as Hused'.
  unfold Mem.global_vars, Mem.arrays, Mem.structs in Hused'.
  cbv zeta. rewrite Hused'.
  assert (F64.truediv used (F64.of_int (total_ram_kb board_info))
          = Ok (SFdiv 53 1024 used (F64.of_int (total_ram_kb board_info)))) as Hq
    by (unfold F64.truediv; by rewrite Hnz).
  split; [done |]. split; [done |].
  unfold _estimate_memory, Mem.free_kb, Mem.usage_percent,
    Mem.code_size_kb, Mem.estimated_global_kb, mbind, M_bind, get_code.
  rewrite Hcode, Hused. unfold lift at 1 2, F64.int_truediv.
  change (1024 =? 0) with false. cbv iota.
  unfold mbind, result_bind. rewrite Hq.
  unfold Mem.global_vars, Mem.arrays, Mem.structs. reflexivity.
Qed.

End Estimator.

(** C3.  For every text and every profile of the registry the memory
    estimator returns, with
    code_size_kb = len(text) / 1024,
    estimated_global_kb = (var_count * 4 + array_count * 20 + struct_count * 10) / 1024
    over the counted variable, sized-array and struct declarations,
    used_kb = code_size_kb + estimated_global_kb + system_reserved_kb,
    free_kb = max(0, total_ram_kb - used_kb) and
    usage_percent = min(100, used_kb / total_ram_kb * 100):
    the safety margin is critical when usage_percent > 80, warning when
    usage_percent > 50 and good otherwise; usage_percent, before and after
    its rounding to one decimal, lies between 0 and 100, and the free RAM,
    before and after its rounding to two decimals, is not negative. *)
Theorem estimate_memory_spec (code : string) (board_info : BoardInfo) (self : analyzer) :
  self_code self = PyStr code →
  registered board_info →
  ∃ code_size_kb estimated_global_kb quotient,
    let used_kb :=
      F64.add (F64.add code_size_kb estimated_global_kb)
              (F64.of_int (system_reserved_kb board_info)) in
    let free_kb := max_0 (F64.sub (F64.of_int (total_ram_kb board_info)) used_kb) in
    let usage_percent := min_100 (F64.mul quotient (F64.of_int 100)) in
    F64.int_truediv (Str.len code) 1024 = Ok code_size_kb
    ∧ F64.int_truediv (len (Re.findall global_var_pattern code) * 4
                       + len (Re.findall array_pattern code) * 20
                       + len (Re.findall struct_pattern code) * 10) 1024
      = Ok estimated_global_kb
    ∧ F64.truediv used_kb (F64.of_int (total_ram_kb board_info)) = Ok quotient
    ∧ _estimate_memory board_info self
      = Ok ({| estimated_code_size_kb := F64.round code_size_kb 2;
               estimated_global_vars_kb := F64.round estimated_global_kb 2;
               estimated_free_ram_kb := round_num free_kb 2;
               usage_percent := round_num usage_percent 1;
               safety_margin :=
                 if num_gt usage_percent 80 then "critical"
                 else if num_gt usage_percent 50 then "warning"
                 else "good" |}, self)
    ∧ (num_ge usage_percent 0 ∧ num_le usage_percent 100)
    ∧ (num_ge (round_num usage_percent 1) 0 ∧ num_le (round_num usage_percent 1) 100)
    ∧ num_ge free_kb 0
    ∧ num_ge (round_num free_kb 2) 0.
Proof.
  intros Hcode Hreg.
  destruct (total_ram_nonzero _ Hreg) as (_ & Hram & Hres).
  destruct (estimate_memory_run code board_info self Hcode Hreg) as (Hnn & Hq & Hrun).
  eexists _, _, _. cbv zeta.
  split; [by apply int_truediv_ok |]. split; [by apply int_truediv_ok |].
  split; [exact Hq |]. split; [exact Hrun |].
  match goal with
  | |- context [min_100 ?x] =>
      assert (not_negative x) as Hup
        by (apply mul_not_negative; [| by apply of_int_not_negative];
            apply div_not_negative; [done | by apply of_int_not_negative]);
      pose proof (min_100_range x Hup (mul_bounded _ _)) as (H1 & H2 & H3 & H4)
  end.
  match goal with
  | |- context [max_0 ?x] => pose proof (max_0_nonneg x) as (H5 & H6)
  end.
  done.
Qed.

(** An instance of C3: the empty text on the default board. *)
Lemma estimate_memory_spec_witness :
  ∃ code_size_kb estimated_global_kb quotient,
    let used_kb :=
      F64.add (F64.add code_size_kb estimated_global_kb)
              (F64.of_int (system_reserved_kb esp32dev)) in
    let free_kb := max_0 (F64.sub (F64.of_int (total_ram_kb esp32dev)) used_kb) in
    let usage_percent := min_100 (F64.mul quotient (F64.of_int 100)) in
    F64.int_truediv (Str.len "") 1024 = Ok code_size_kb
    ∧ F64.int_truediv (len (Re.findall global_var_pattern "") * 4
                       + len (Re.findall array_pattern "") * 20
                       + len (Re.findall struct_pattern "") * 10) 1024
      = Ok estimated_global_kb
    ∧ F64.truediv used_kb (F64.of_int (total_ram_kb esp32dev)) = Ok quotient
    ∧ _estimate_memory esp32dev __init__
      = Ok ({| estimated_code_size_kb := F64.round code_size_kb 2;
               estimated_global_vars_kb := F64.round estimated_global_kb 2;
               estimated_free_ram_kb := round_num free_kb 2;
               usage_percent := round_num usage_percent 1;
               safety_margin :=
                 if num_gt usage_percent 80 then "critical"
                 else if num_gt usage_percent 50 then "warning"
                 else "good" |}, __init__)
    ∧ (num_ge usage_percent 0 ∧ num_le usage_percent 100)
    ∧ (num_ge (round_num usage_percent 1) 0 ∧ num_le (round_num usage_percent 1) 100)
    ∧ num_ge free_kb 0
    ∧ num_ge (round_num free_kb 2) 0.
Proof.
  apply (estimate_memory_spec "" esp32dev __init__).
  - reflexivity.
  - exists "esp32dev". vm_compute. reflexivity.
Defined.

(** ** The weighted score *)

Section Score.

Variable board_info : BoardInfo.

Lemma severity_weights_lookup (s : string) :
  default 5 (severity_weights !! s) ∈ [20; 12; 6; 3; 5].
Proof.
  unfold severity_weights. rewrite !lookup_insert, lookup_singleton.
  repeat case_decide; simpl; set_solver.
Qed.

Lemma type_multipliers_lookup (t : string) :
  default lit_1_0 (type_multipliers board_info !! t)
    ∈ [lit_1_0; lit_1_5; lit_1_3; lit_0_8; lit_0_5].
Proof.
  unfold type_multipliers. rewrite !lookup_insert, lookup_singleton.
  repeat case_decide; simpl;
    destruct (total_ram_kb board_info <? 500), (is_realtime board_info);
    set_solver.
Qed.

(** The penalty is computed without error and is a positive integer. *)
Lemma issue_penalty_total (issue : CodeIssue) :
  ∃ p, issue_penalty board_info issue = Ok p ∧ 1 ≤ p ≤ 30.
Proof.
  unfold issue_penalty.
  pose proof (severity_weights_lookup (severity issue)) as Hb.
  pose proof (type_multipliers_lookup (type issue)) as Hm.
  revert Hb Hm.
  generalize (default 5 (severity_weights !! severity issue)).
  generalize (default lit_1_0 (type_multipliers board_info !! type issue)).
  intros m b Hb Hm.
  repeat (apply elem_of_cons in Hb as [-> | Hb]);
    try (by apply elem_of_nil in Hb);
    repeat (apply elem_of_cons in Hm as [-> | Hm]);
    try (by apply elem_of_nil in Hm);
    eexists; (split; [vm_compute; reflexivity | lia]).
Qed.

Lemma issue_penalty_of_kind (issue : CodeIssue) (k : IssueType * IssueSeverity) :
  of_kind issue k → issue_penalty board_info issue = Ok (Spec.penalty board_info k).
Proof.
  destruct k as [t s]. intros [Ht Hs]. simpl in Ht, Hs.
  unfold issue_penalty, Spec.penalty, Spec.category_multiplier, type_multipliers.
  rewrite Ht, Hs. simpl fst; simpl snd.
  destruct (total_ram_kb board_info <? 500), (is_realtime board_info);
    destruct t, s; vm_compute; reflexivity.
Qed.

Lemma score_loop_total (issues : list CodeIssue) :
  ∀ score, ∃ score', score_loop board_info issues score = Ok score' ∧ score' ≤ score.
Proof.
  induction issues as [|i issues IH]; intros score; simpl.
  - exists score. split; [done | lia].
  - destruct (issue_penalty_total i) as (p & -> & Hp). simpl.
    destruct (IH (score - p)) as (score' & -> & Hle).
    exists score'. split; [done | lia].
Qed.

Lemma score_loop_of_kind (issues : list CodeIssue) kinds :
  Forall2 of_kind issues kinds →
  ∀ score, score_loop board_info issues score
           = Ok (fold_left (λ running k, running - Spec.penalty board_info k) kinds score).
Proof.
  induction 1 as [|i k issues kinds Hk _ IH]; intros score; simpl; [done |].
  rewrite (issue_penalty_of_kind i k Hk). simpl. apply IH.
Qed.

Lemma calculate_weighted_score_run (self : analyzer) :
  ∃ score, score_loop board_info (self_issues self) 100 = Ok score
           ∧ _calculate_weighted_score board_info self
             = Ok (Z.max 0 (Z.min 100 score), self).
Proof.
  destruct (score_loop_total (self_issues self) 100) as (score & H & _).
  exists score. split; [done |].
  unfold _calculate_weighted_score, mbind, M_bind, get_issues, lift.
  by rewrite H.
Qed.

End Score.

(** C1.  For every board profile and every list of issues, each of one of
    the five categories and four severities, the scoring engine returns the
    score of the specification: it starts at 100, subtracts for each issue
    the integer truncation of the base penalty of its severity (critical 20,
    high 12, medium 6, low 3) times the multiplier of its category
    (correctness 1.0; memory 1.5 below 500 kB of RAM, else 1.0; performance
    1.3 on a realtime board, else 0.8; safety 1.0; style 0.5), and clamps to
    [0, 100] once, at the end.  The score returned is an integer between 0
    and 100, and the analyzer is left as it was. *)
Theorem weighted_score_spec (board_info : BoardInfo) (self : analyzer)
  (kinds : list (IssueType * IssueSeverity)) :
  Forall2 of_kind (self_issues self) kinds →
  ∃ score,
    _calculate_weighted_score board_info self = Ok (score, self)
    ∧ score = Spec.score board_info kinds
    ∧ 0 ≤ score ≤ 100.
Proof.
  intros Hk.
  destruct (calculate_weighted_score_run board_info self) as (score & Hs & ->).
  rewrite (score_loop_of_kind board_info _ _ Hk) in Hs. injection Hs as <-.
  eexists. split; [done |]. split; [done | lia].
Qed.

(** A concrete instance of C1: one critical memory issue on the ESP32-C3. *)
Lemma weighted_score_spec_witness :
  ∃ score,
    _calculate_weighted_score esp32c3
      (add_issues __init__ [large_array_issue esp32c3 2000]) =
      Ok (score, add_issues __init__ [large_array_issue esp32c3 2000])
    ∧ score = Spec.score esp32c3 [(MEMORY, CRITICAL)]
    ∧ 0 ≤ score ≤ 100.
Proof.
  apply (weighted_score_spec esp32c3
           (add_issues __init__ [large_array_issue esp32c3 2000])
           [(MEMORY, CRITICAL)]).
  simpl. constructor; [| constructor]. split; reflexivity.
Defined.

(** ** The issues of a report are well typed *)

Section WellTyped.

Lemma IssueType_of_value s t : IssueType_of s = Some t → s = value t.
Proof.
  unfold IssueType_of.
  repeat match goal with
         | |- context [String.eqb s ?k] =>
             destruct (String.eqb_spec s k) as [-> | _]; [by intros [= <-] |]
         end.
  done.
Qed.

Lemma IssueSeverity_of_value s v : IssueSeverity_of s = Some v → s = value v.
Proof.
  unfold IssueSeverity_of.
  repeat match goal with
         | |- context [String.eqb s ?k] =>
             destruct (String.eqb_spec s k) as [-> | _]; [by intros [= <-] |]
         end.
  done.
Qed.

Lemma kind_of_Some i k : kind_of i = Some k → of_kind i k.
Proof.
  unfold kind_of.
  destruct (IssueType_of (type i)) as [t|] eqn:Et; [| done].
  destruct (IssueSeverity_of (severity i)) as [s|] eqn:Es; [| done].
  intros [= <-].
  split; [by apply IssueType_of_value | by apply IssueSeverity_of_value].
Qed.

Lemma well_typed_kinds (issues : list CodeIssue) :
  Forall well_typed issues → ∃ kinds, Forall2 of_kind issues kinds.
Proof.
  induction 1 as [|i issues [k Hk] _ [kinds IH]].
  - by exists [].
  - exists (k :: kinds). constructor; [by apply kind_of_Some | done].
Qed.

Variable P : CodeIssue → Prop.
Variable code : string.

Lemma emits_all_append i : P i → emits_all P (append i) code.
Proof. intros H. exists [i]. split; [apply emits_append | by apply Forall_singleton]. Qed.

Lemma emits_all_when (b : bool) m : emits_all P m code → emits_all P (when b m) code.
Proof.
  intros (l & H1 & H2). exists (if b then l else []).
  split; [by apply emits_when | by destruct b].
Qed.

Lemma emits_all_seq (m1 m2 : M unit) :
  emits_all P m1 code → emits_all P m2 code → emits_all P (m1;; m2) code.
Proof.
  intros (l1 & H1 & F1) (l2 & H2 & F2). exists (l1 ++ l2).
  split; [by apply emits_seq | by apply Forall_app].
Qed.

Lemma emits_all_get_code (f : string → M unit) :
  emits_all P (f code) code → emits_all P (get_code ≫= f) code.
Proof. intros (l & H & F). exists l. split; [by apply emits_get_code | done]. Qed.

Lemma emits_all_lift {A} (r : result A) (a : A) (f : A → M unit) :
  r = Ok a → emits_all P (f a) code → emits_all P (lift r ≫= f) code.
Proof.
  intros Hr (l & H & F). exists l. split; [by eapply emits_lift | done].
Qed.

Lemma emits_all_emitted m : emits_all P m code → Forall P (emitted m code).
Proof. intros (l & H & F). by rewrite (emits_emitted _ _ _ H). Qed.

End WellTyped.

Section Detected.

Variable code : string.
Variable board_info : BoardInfo.

Ltac typed :=
  repeat first
    [ apply emits_all_get_code | apply emits_all_seq | apply emits_all_when
    | apply emits_all_append; by eexists ].

Lemma check_correctness_typed : Forall well_typed (emitted _check_correctness code).
Proof. apply emits_all_emitted. unfold _check_correctness. typed. Qed.

Lemma check_safety_typed : Forall well_typed (emitted _check_safety code).
Proof. apply emits_all_emitted. unfold _check_safety. typed. Qed.

Lemma check_style_typed : Forall well_typed (emitted _check_style code).
Proof.
  apply emits_all_emitted. unfold _check_style.
  apply emits_all_get_code, emits_all_seq; [typed |].
  eapply emits_all_lift; [apply int_truediv_ok; lia |]. typed.
Qed.

Lemma large_array_issue_typed n : well_typed (large_array_issue board_info n).
Proof.
  unfold well_typed, kind_of, large_array_issue; simpl.
  by destruct (total_ram_kb board_info <? 500).
Qed.

Lemma delay_issue_typed ms : Forall well_typed (delay_issue board_info ms).
Proof.
  unfold delay_issue.
  destruct (10000 <=? ms); [| destruct (1000 <=? ms)];
    [apply Forall_singleton | apply Forall_singleton | by apply Forall_nil];
    unfold well_typed, kind_of; simpl; by destruct (is_realtime board_info).
Qed.

Lemma check_memory_safety_typed :
  Forall well_typed (emitted (_check_memory_safety board_info) code).
Proof.
  destruct (check_memory_safety_emits code board_info) as (rest & H & Hrest).
  rewrite (emits_emitted _ _ _ H). apply Forall_app. split.
  - apply Forall_fmap, Forall_forall. intros n _. apply large_array_issue_typed.
  - eapply Forall_impl; [exact Hrest |].
    intros i (Ht & [Hs | Hs] & _); unfold well_typed, kind_of;
      by rewrite Ht, Hs.
Qed.

Lemma check_performance_typed :
  Forall well_typed (emitted (_check_performance board_info) code).
Proof.
  destruct (check_performance_emits code board_info) as (rest & H & Hrest).
  rewrite (emits_emitted _ _ _ H). apply Forall_app. split.
  - apply Forall_concat, Forall_fmap, Forall_forall. intros n _.
    apply delay_issue_typed.
  - eapply Forall_impl; [exact Hrest |].
    intros i (Ht & [Hs | Hs] & _); unfold well_typed, kind_of; by rewrite Ht, Hs.
Qed.

Lemma detected_well_typed : Forall well_typed (detected code board_info).
Proof.
  unfold detected. repeat (apply Forall_app; split);
    auto using check_correctness_typed, check_memory_safety_typed,
      check_performance_typed, check_safety_typed, check_style_typed.
Qed.

(** The five rules, run in sequence, append the detected issues. *)
Lemma checks_emit (rest : M Report.t) (self : analyzer) :
  self_code self = PyStr code →
  (_check_correctness;; _check_memory_safety board_info;;
   _check_performance board_info;; _check_safety;; _check_style;; rest) self
  = rest (add_issues self (detected code board_info)).
Proof.
  intros Hc.
  destruct (check_memory_safety_emits code board_info) as (r1 & H1%emits_emitted' & _).
  destruct (check_performance_emits code board_info) as (r2 & H2%emits_emitted' & _).
  erewrite (emits_run _ _ code); [| apply check_correctness_emits | exact Hc].
  erewrite (emits_run _ _ code); [| exact H1 | exact Hc].
  erewrite (emits_run _ _ code); [| exact H2 | exact Hc].
  erewrite (emits_run _ _ code); [| apply check_safety_emits | exact Hc].
  erewrite (emits_run _ _ code); [| apply check_style_emits | exact Hc].
  by rewrite !add_issues_app, <- ?app_assoc.
Qed.

End Detected.

(** ** What a method can observe of the analyzer

    No method reads [self.board] or [self.quality_score]: two analyzers
    that hold the same text and the same issues are treated alike. *)

Section Indep.

Lemma indep_ret {A} (a : A) : indep (mret a).
Proof. by intros s1 s2 H. Qed.

Lemma indep_bind {A B} (m : M A) (k : A → M B) :
  indep m → (∀ a, indep (k a)) → indep (m ≫= k).
Proof.
  intros Hm Hk s1 s2 H. specialize (Hm s1 s2 H).
  unfold mbind, M_bind, alike in *.
  destruct (m s1) as [[a1 s1']|e1], (m s2) as [[a2 s2']|e2]; try done.
  destruct Hm as [<- Hm]. by apply Hk.
Qed.

Lemma indep_lift {A} (r : result A) : indep (lift r).
Proof. intros s1 s2 H. unfold lift. by destruct r. Qed.

Lemma indep_get_code : indep get_code.
Proof.
  intros s1 s2 [Hc Hi]. unfold get_code, alike. rewrite Hc.
  destruct (self_code s2) eqn:E; try done.
  split; [done |]. split; congruence.
Qed.

Lemma indep_get_issues : indep get_issues.
Proof. intros s1 s2 [Hc Hi]. unfold get_issues, alike. by rewrite Hi. Qed.

Lemma indep_append i : indep (append i).
Proof.
  intros s1 s2 [Hc Hi]. unfold append, alike, agree. simpl. by rewrite Hi.
Qed.

Lemma indep_when (b : bool) m : indep m → indep (when b m).
Proof. destruct b; [done | intros _; apply indep_ret]. Qed.

Lemma indep_for_each {A} (l : list A) (body : A → M unit) :
  (∀ x, indep (body x)) → indep (for_each l body).
Proof.
  intros H. induction l as [|x l IH]; simpl.
  - apply indep_ret.
  - by apply indep_bind.
Qed.

Lemma indep_outcome {A} (m : M A) s1 s2 :
  indep m → agree s1 s2 → outcome (m s1) = outcome (m s2).
Proof.
  intros Hm H. specialize (Hm s1 s2 H). unfold alike, outcome in *.
  destruct (m s1) as [[a1 s1']|e1], (m s2) as [[a2 s2']|e2]; try done.
  - by destruct Hm as [-> _].
  - by rewrite Hm.
Qed.

End Indep.

Create HintDb indep.
#[export] Hint Resolve indep_ret indep_lift indep_get_code indep_get_issues
  indep_append indep_when : indep.

Ltac indep_step :=
  first
    [ apply indep_bind; [| intros ?]
    | apply indep_for_each; intros ?
    | solve [auto with indep]
    | match goal with
      | |- indep (if ?b then _ else _) => destruct b
      | |- indep (let '(_, _) := if ?b then _ else _ in _) => destruct b
      end ].

Section Methods.

Variable board_info : BoardInfo.

Lemma check_correctness_indep : indep _check_correctness.
Proof. unfold _check_correctness. repeat indep_step. Qed.

Lemma check_memory_safety_indep : indep (_check_memory_safety board_info).
Proof. unfold _check_memory_safety. repeat indep_step. Qed.

Lemma check_performance_indep : indep (_check_performance board_info).
Proof. unfold _check_performance. repeat indep_step. Qed.

Lemma check_safety_indep : indep _check_safety.
Proof. unfold _check_safety. repeat indep_step. Qed.

Lemma check_style_indep : indep _check_style.
Proof. unfold _check_style. repeat indep_step. Qed.

Lemma estimate_memory_indep : indep (_estimate_memory board_info).
Proof. unfold _estimate_memory. repeat indep_step. Qed.

Lemma calculate_weighted_score_indep : indep (_calculate_weighted_score board_info).
Proof. unfold _calculate_weighted_score. repeat indep_step. Qed.

Lemma group_by_type_indep : indep _group_by_type.
Proof. unfold _group_by_type. repeat indep_step. Qed.

Lemma get_overall_severity_indep : indep _get_overall_severity.
Proof. unfold _get_overall_severity. repeat indep_step. Qed.

Lemma generate_summary_indep score : indep (_generate_summary score board_info).
Proof. unfold _generate_summary. repeat indep_step. Qed.

End Methods.

#[export] Hint Resolve check_correctness_indep check_memory_safety_indep
  check_performance_indep check_safety_indep check_style_indep
  estimate_memory_indep calculate_weighted_score_indep group_by_type_indep
  get_overall_severity_indep generate_summary_indep : indep.

Lemma reset_run {A} (code board : pyobj) (k : M A) (self : analyzer) :
  (reset code board;; k) self
  = k {| self_code := code; self_board := board;
         self_issues := []; self_quality_score := 100 |}.
Proof. reflexivity. Qed.

(** The report depends on the board argument only through the profile it
    resolves to, and not on the analyzer the call is made on. *)
Lemma analyze_outcome (code b1 b2 : pyobj) (self1 self2 : analyzer) :
  BOARD_SPECS_get b1 = BOARD_SPECS_get b2 →
  outcome (analyze code b1 self1) = outcome (analyze code b2 self2).
Proof.
  intros Hb. unfold analyze. rewrite !reset_run, Hb.
  apply indep_outcome; [| done].
  repeat indep_step.
Qed.

(** ** Grouping by type *)

Section Grouping.

Lemma bucket_of_cons key i issues :
  bucket_of key (i :: issues)
  = if String.eqb (type i) key then to_dict i :: bucket_of key issues
    else bucket_of key issues.
Proof.
  unfold bucket_of, bucket_by. simpl. by destruct (String.eqb (type i) key).
Qed.

Lemma group_loop_spec (issues : list CodeIssue) :
  Forall well_typed issues →
  ∀ grouped : gmap string (list dict),
    (∀ t : IssueType, is_Some (grouped !! value t)) →
    ∃ grouped',
      group_loop issues grouped = Ok grouped'
      ∧ ∀ key, grouped' !! key
               = (λ bucket, bucket ++ bucket_of key issues) <$> grouped !! key.
Proof.
  induction 1 as [|i issues [k Hk] _ IH]; intros grouped Hg; simpl.
  - exists grouped. split; [done |]. intros key.
    destruct (grouped !! key); simpl; [by rewrite app_nil_r | done].
  - apply kind_of_Some in Hk as [Ht _].
    destruct (Hg k.1) as [bucket Hb]. rewrite <- Ht in Hb.
    unfold subscript. rewrite Hb. simpl.
    destruct (IH (<[type i := bucket ++ [to_dict i]]> grouped))
      as (grouped' & -> & Hl).
    { intros t. rewrite lookup_insert. by case_decide. }
    exists grouped'. split; [done |]. intros key.
    rewrite Hl, lookup_insert, bucket_of_cons. case_decide as Hkey.
    + subst key. rewrite Hb, String.eqb_refl. simpl.
      by rewrite <- app_assoc.
    + destruct (String.eqb_spec (type i) key); done.
Qed.

Lemma group_by_type_run (self : analyzer) :
  Forall well_typed (self_issues self) →
  _group_by_type self
  = Ok ({[ "memory" := bucket_of "memory" (self_issues self);
           "performance" := bucket_of "performance" (self_issues self);
           "correctness" := bucket_of "correctness" (self_issues self);
           "safety" := bucket_of "safety" (self_issues self);
           "style" := bucket_of "style" (self_issues self) ]}, self).
Proof.
  intros Hw. unfold _group_by_type, mbind, M_bind, get_issues, lift.
  match goal with
  | |- context [group_loop _ ?g] =>
      destruct (group_loop_spec _ Hw g) as (grouped' & -> & Hl)
  end.
  { intros []; by eexists. }
  do 2 f_equal. apply map_eq. intros key. rewrite Hl.
  rewrite !lookup_insert, !lookup_singleton.
  repeat case_decide; by subst.
Qed.

End Grouping.

(** ** A run of [analyze] on a text *)

Section Run.

Lemma bind_run {A B} (m : M A) (k : A → M B) self a self' :
  m self = Ok (a, self') → (m ≫= k) self = k a self'.
Proof. intros H. unfold mbind, M_bind. by rewrite H. Qed.

Lemma generate_summary_run score board_info self :
  ∃ s, _generate_summary score board_info self = Ok (s, self).
Proof.
  unfold _generate_summary.
  destruct (90 <=? score); [| destruct (75 <=? score); [| destruct (50 <=? score)]];
    unfold mbind, M_bind, get_issues, mret, M_ret; eexists; reflexivity.
Qed.

Lemma get_overall_severity_run self :
  ∃ s, _get_overall_severity self = Ok (s, self).
Proof.
  unfold _get_overall_severity, mbind, M_bind, get_issues, mret, M_ret.
  eexists. reflexivity.
Qed.

(** [analyze] returns on every text and board identifier; its report
    lists the detected issues, scored and grouped. *)
Lemma analyze_run (code board : string) (self : analyzer) :
  let board_info := resolve board in
  let issues := detected code board_info in
  ∃ r score,
    analyze (PyStr code) (PyStr board) self
    = Ok (r, {| self_code := PyStr code; self_board := PyStr board;
                self_issues := issues; self_quality_score := 100 |})
    ∧ score_loop board_info issues 100 = Ok score
    ∧ Report.quality_score r = Z.max 0 (Z.min 100 score)
    ∧ Report.issues r = to_dict <$> issues
    ∧ Report.issues_by_severity r
      = {[ "critical" := to_dict <$> List.filter (has_severity CRITICAL) issues;
           "high" := to_dict <$> List.filter (has_severity HIGH) issues;
           "medium" := to_dict <$> List.filter (has_severity MEDIUM) issues;
           "low" := to_dict <$> List.filter (has_severity LOW) issues ]}
    ∧ Report.issues_by_type r
      = {[ "memory" := bucket_of "memory" issues;
           "performance" := bucket_of "performance" issues;
           "correctness" := bucket_of "correctness" issues;
           "safety" := bucket_of "safety" issues;
           "style" := bucket_of "style" issues ]}
    ∧ Report.board r = name board_info.
Proof.
  intros board_info issues.
  set (st := {| self_code := PyStr code; self_board := PyStr board;
                self_issues := issues; self_quality_score := 100 |}).
  assert (self_code st = PyStr code) as Hc by done.
  destruct (estimate_memory_run code board_info st Hc (resolve_registered board))
    as (_ & _ & Hmem).
  destruct (calculate_weighted_score_run board_info st) as (score & Hloop & Hscore).
  destruct (generate_summary_run (Z.max 0 (Z.min 100 score)) board_info st)
    as (summary & Hsum).
  pose proof (group_by_type_run st (detected_well_typed code board_info)) as Hgroup.
  destruct (get_overall_severity_run st) as (overall & Hov).
  eexists _, score. split; [| split; [exact Hloop |]].
  - unfold analyze. rewrite reset_run, BOARD_SPECS_get_str.
    erewrite (bind_run (lift _)); [| reflexivity].
    rewrite (checks_emit code (resolve board)); [| reflexivity].
    change (add_issues _ _) with st. fold board_info.
    erewrite bind_run; [| exact Hmem].
    erewrite bind_run; [| exact Hscore].
    erewrite bind_run; [| exact Hsum].
    erewrite (bind_run get_issues); [| reflexivity].
    erewrite (bind_run get_code); [| reflexivity].
    erewrite (bind_run (lift _)); [| by rewrite int_truediv_ok].
    erewrite bind_run; [| exact Hgroup].
    erewrite bind_run; [| exact Hov].
    reflexivity.
  - done.
Qed.

End Run.

(** ** The grouped views of a report *)

Section Partition.

Variable f : CodeIssue → string.

Lemma to_dict_inj (i j : CodeIssue) : to_dict i = to_dict j → i = j.
Proof.
  destruct i as [t1 s1 m1 g1 l1], j as [t2 s2 m2 g2 l2].
  unfold to_dict. simpl. intros [= -> -> -> -> Hl]. f_equal.
  destruct l1, l2; by inversion Hl.
Qed.

Lemma elem_of_bucket_by key issues d :
  d ∈ bucket_by f key issues ↔ ∃ i, d = to_dict i ∧ i ∈ issues ∧ f i = key.
Proof.
  unfold bucket_by. rewrite list_elem_of_fmap. split.
  - intros (i & -> & Hi). exists i. split; [done |].
    apply list_elem_of_In, filter_In in Hi as [Hi He].
    split; [by apply list_elem_of_In | by apply String.eqb_eq].
  - intros (i & -> & Hi & He). exists i. split; [done |].
    apply list_elem_of_In, filter_In.
    split; [by apply list_elem_of_In | by apply String.eqb_eq].
Qed.

Lemma bucket_by_cons key i issues :
  bucket_by f key (i :: issues)
  = if String.eqb (f i) key then to_dict i :: bucket_by f key issues
    else bucket_by f key issues.
Proof. unfold bucket_by. simpl. by destruct (String.eqb (f i) key). Qed.

Lemma concat_skip (B : string → list dict) d k0 keys :
  k0 ∉ keys →
  concat ((λ k, if String.eqb k0 k then d :: B k else B k) <$> keys)
  = concat (B <$> keys).
Proof.
  induction keys as [|k keys IH]; [done |].
  intros [Hk Hks]%not_elem_of_cons. rewrite !fmap_cons. cbn [concat].
  destruct (String.eqb_spec k0 k); [done |]. by rewrite IH.
Qed.

Lemma concat_cons_at (B : string → list dict) d k0 keys :
  NoDup keys → k0 ∈ keys →
  concat ((λ k, if String.eqb k0 k then d :: B k else B k) <$> keys)
  ≡ₚ d :: concat (B <$> keys).
Proof.
  induction 1 as [|k keys Hk Hnd IH]; [by intros ?%elem_of_nil |].
  intros Hin. rewrite !fmap_cons. cbn [concat].
  destruct (String.eqb_spec k0 k) as [-> | Hne].
  - by rewrite (concat_skip B d k keys Hk).
  - apply elem_of_cons in Hin as [? | Hin]; [done |].
    rewrite (IH Hin). by rewrite Permutation_middle.
Qed.

Lemma concat_buckets keys issues :
  NoDup keys → Forall (λ i, f i ∈ keys) issues →
  concat ((λ k, bucket_by f k issues) <$> keys) ≡ₚ to_dict <$> issues.
Proof.
  intros Hnd. induction 1 as [|i issues Hi _ IH].
  - clear Hnd. by induction keys.
  - rewrite fmap_cons, <- IH, <- (concat_cons_at _ (to_dict i) (f i) keys Hnd Hi).
    erewrite list_fmap_ext; [done |]. intros _ k _.
    apply bucket_by_cons.
Qed.

Lemma view_of_lookup keys issues key bucket :
  NoDup keys →
  view_of f keys issues !! key = Some bucket
  ↔ key ∈ keys ∧ bucket = bucket_by f key issues.
Proof.
  intros Hnd. unfold view_of. rewrite <- elem_of_list_to_map.
  - rewrite list_elem_of_fmap. split.
    + by intros (k & [= -> ->] & Hk).
    + intros [Hk ->]. by exists key.
  - rewrite <- list_fmap_compose. by rewrite list_fmap_id.
Qed.

Lemma view_of_partitions keys issues :
  NoDup keys → Forall (λ i, f i ∈ keys) issues →
  partitions (view_of f keys issues) (to_dict <$> issues).
Proof.
  intros Hnd Hall. split.
  - intros d (i & -> & Hi)%list_elem_of_fmap.
    exists (f i). split.
    + exists (bucket_by f (f i) issues). split.
      * apply view_of_lookup; [done |]. split; [| done].
        by apply (proj1 (Forall_forall _ _) Hall).
      * apply elem_of_bucket_by. by exists i.
    + intros key' bucket' [_ ->]%view_of_lookup Hd; [| done].
      apply elem_of_bucket_by in Hd as (j & Hj%to_dict_inj & _ & <-).
      by subst.
  - unfold view_of. rewrite map_to_list_to_map.
    + rewrite <- list_fmap_compose. by apply concat_buckets.
    + rewrite <- list_fmap_compose. by rewrite list_fmap_id.
Qed.

End Partition.

Section Views.

Lemma severity_keys_NoDup : NoDup severity_keys.
Proof. apply (bool_decide_unpack _). by vm_compute. Qed.

Lemma type_keys_NoDup : NoDup type_keys.
Proof. apply (bool_decide_unpack _). by vm_compute. Qed.

Lemma well_typed_keys (issues : list CodeIssue) :
  Forall well_typed issues →
  Forall (λ i, severity i ∈ severity_keys) issues
  ∧ Forall (λ i, type i ∈ type_keys) issues.
Proof.
  intros H. split; eapply Forall_impl; try exact H;
    intros i [[t s] [Ht Hs]%kind_of_Some]; simpl in Ht, Hs;
    rewrite ?Ht, ?Hs; unfold severity_keys, type_keys;
    [destruct s | destruct t]; set_solver.
Qed.

Lemma severity_view (issues : list CodeIssue) :
  ({[ "critical" := to_dict <$> List.filter (has_severity CRITICAL) issues;
      "high" := to_dict <$> List.filter (has_severity HIGH) issues;
      "medium" := to_dict <$> List.filter (has_severity MEDIUM) issues;
      "low" := to_dict <$> List.filter (has_severity LOW) issues ]}
   : gmap string (list dict))
  = view_of severity severity_keys issues.
Proof. reflexivity. Qed.

Lemma type_view (issues : list CodeIssue) :
  ({[ "memory" := bucket_of "memory" issues;
      "performance" := bucket_of "performance" issues;
      "correctness" := bucket_of "correctness" issues;
      "safety" := bucket_of "safety" issues;
      "style" := bucket_of "style" issues ]}
   : gmap string (list dict))
  = view_of type type_keys issues.
Proof. reflexivity. Qed.

End Views.


(** ** The board-relative rules *)




(** ** Board resolution, failures and reuse *)



(** A board argument that resolves to the default profile *)
Lemma analyze_default_board (s : string) (b : pyobj) (self : analyzer) :
  BOARD_SPECS_get b = Ok esp32dev →
  ∃ r self', analyze (PyStr s) b self = Ok (r, self').
Proof.
  intros Hb.
  destruct (analyze_run s "esp32dev" self) as (r & _ & Hrun & _).
  pose proof (analyze_outcome (PyStr s) b (PyStr "esp32dev") self self Hb) as Ho.
  rewrite Hrun in Ho. unfold outcome in Ho.
  destruct (analyze (PyStr s) b self) as [[r' self']|e]; [by eexists _, _ | done].
Qed.



(** C10.  A call on a reused analyzer is independent of what the analyzer
    went through: whatever the state of the instance, [analyze] returns
    what it returns on a freshly constructed analyzer, and leaves the
    instance in the same state. *)
Theorem analyze_reuse (code board : pyobj) (self : analyzer) :
  analyze code board self = analyze code board __init__.
Proof. unfold analyze. by rewrite !reset_run. Qed.

(** ** Scores of reports *)

Section Scores.

Variable board_info : BoardInfo.

Lemma penalty_of_pos issue : 1 ≤ penalty_of board_info issue.
Proof.
  unfold penalty_of. destruct (issue_penalty_total board_info issue) as (p & -> & ?).
  lia.
Qed.

Lemma total_penalty_nonneg issues : 0 ≤ total_penalty board_info issues.
Proof.
  induction issues as [|i issues IH]; simpl; [lia |].
  pose proof (penalty_of_pos i). lia.
Qed.

Lemma total_penalty_app l1 l2 :
  total_penalty board_info (l1 ++ l2)
  = total_penalty board_info l1 + total_penalty board_info l2.
Proof. induction l1 as [|i l1 IH]; simpl; lia. Qed.

Lemma total_penalty_perm l1 l2 :
  l1 ≡ₚ l2 → total_penalty board_info l1 = total_penalty board_info l2.
Proof. induction 1; simpl; lia. Qed.

Lemma score_loop_total_penalty issues :
  ∀ score, score_loop board_info issues score
           = Ok (score - total_penalty board_info issues).
Proof.
  induction issues as [|i issues IH]; intros score; simpl.
  - f_equal. lia.
  - unfold penalty_of.
    destruct (issue_penalty_total board_info i) as (p & -> & _). simpl.
    rewrite IH. f_equal. lia.
Qed.

End Scores.

Lemma check_correctness_missing (code : string) :
  no_entry_point code →
  ∃ rest,
    emitted _check_correctness code
    = missing_setup_issue :: missing_loop_issue :: rest.
Proof.
  intros (H1 & H2 & H3 & H4).
  unfold emitted, _check_correctness, mbind, M_bind, get_code, fresh. simpl.
  rewrite H1, H2, H3, H4. simpl.
  destruct (search unbounded_array_pattern code); by eexists.
Qed.



(** ** Monotonicity of the score *)

Section Monotone.

Variable board_info : BoardInfo.

Lemma penalty_of_kind issue k :
  of_kind issue k → penalty_of board_info issue = Spec.penalty board_info k.
Proof.
  intros H. unfold penalty_of. by rewrite (issue_penalty_of_kind _ _ _ H).
Qed.

Lemma spec_penalty_mono t s1 s2 :
  (rank s1 ≤ rank s2)%nat →
  Spec.penalty board_info (t, s1) ≤ Spec.penalty board_info (t, s2).
Proof.
  unfold Spec.penalty, Spec.category_multiplier. simpl fst; simpl snd.
  destruct (total_ram_kb board_info <? 500), (is_realtime board_info);
    destruct t, s1, s2; simpl rank; intros H; try lia; by vm_compute.
Qed.

Lemma at_least_penalty a b :
  at_least a b → penalty_of board_info b ≤ penalty_of board_info a.
Proof.
  intros ([ta sa] & [tb sb] & Ha & Hb & Ht & Hr). simpl in Ht, Hr. subst tb.
  rewrite (penalty_of_kind _ _ Ha), (penalty_of_kind _ _ Hb).
  by apply spec_penalty_mono.
Qed.

Lemma matching_total_penalty matching B :
  Forall2 at_least matching B →
  total_penalty board_info B ≤ total_penalty board_info matching.
Proof.
  induction 1 as [|a b matching B Hab _ IH]; simpl; [lia |].
  pose proof (at_least_penalty a b Hab). lia.
Qed.

Lemma covers_total_penalty A B :
  covers A B → total_penalty board_info B ≤ total_penalty board_info A.
Proof.
  intros (matching & further & Hp & Hm).
  rewrite (total_penalty_perm _ _ _ Hp), total_penalty_app.
  pose proof (total_penalty_nonneg board_info further).
  pose proof (matching_total_penalty _ _ Hm). lia.
Qed.

End Monotone.




(** ** The standalone test of the module

    The report of the sample text on the ESP32-C3: a critical memory issue
    (30 points), a critical performance issue (26 points) and a low style
    issue (1 point). *)
Example standalone_test_report :
  ∃ r self,
    analyze (PyStr sample_code) (PyStr "esp32c3") __init__ = Ok (r, self)
    ∧ Report.quality_score r = 43
    ∧ Report.code_lines r = 19
    ∧ Report.code_size_kb r = F64.ratio 29 100
    ∧ (Report.issues_count r, Report.critical_count r, Report.high_count r,
       Report.medium_count r, Report.low_count r) = (3, 2, 0, 0, 1)
    ∧ Report.estimated_ram_usage_percent r = PyFloat (F64.ratio 201 10)
    ∧ Report.estimated_free_ram_kb r = PyFloat (F64.ratio 31968 100)
    ∧ Report.memory_status r = "good"
    ∧ Report.severity r = "critical"
    ∧ Report.summary r
      = "Code quality is poor (43/100) with 2 critical issue(s), memory concerns, "
        +:+ "performance bottlenecks. Critical issues must be fixed before use."
    ∧ Report.board r = "ESP32-C3".
Proof.
  destruct (analyze (PyStr sample_code) (PyStr "esp32c3") __init__)
    as [[r self]|e] eqn:E; vm_compute in E; [| discriminate E].
  exists r, self. split; [done |]. injection E as <- _.
  repeat split; vm_compute; reflexivity.
Qed.

(** * Further properties of the analyzer *)

(** ** The rules, board by board *)

Section Boards.

Variable code : string.

(** What the memory rule appends after the issues of the arrays does
    not depend on the board. *)
Lemma check_memory_safety_uniform :
  ∃ rest,
    Forall (λ i, type i = "memory" ∧ (severity i = "high" ∨ severity i = "medium")) rest
    ∧ ∀ board_info,
        emitted (_check_memory_safety board_info) code
        = (large_array_issue board_info
             <$> List.filter (λ n, 1000 <? n) (declared_sizes code)) ++ rest.
Proof.
  eexists. split; [| intros board_info; apply emits_emitted].
  2: { unfold _check_memory_safety. apply emits_get_code, emits_seq.
       - replace (large_array_issue board_info
                    <$> List.filter (λ n, 1000 <? n) (declared_sizes code))
           with (concat ((λ x, if 1000 <? int_value x
                               then [large_array_issue board_info (int_value x)]
                               else []) <$> Re.findall large_array_pattern code)).
         + apply emits_for_each.
           eapply Forall_impl; [apply large_array_items |]. intros x Hx.
           eapply emits_lift; [by apply py_int_value |].
           apply emits_when, emits_append.
         + unfold declared_sizes.
           induction (findall large_array_pattern code) as [|x xs IH]; [done |].
           rewrite !fmap_cons. cbn [concat List.filter]. rewrite IH.
           by destruct (1000 <? int_value x).
       - apply emits_seq; apply emits_when, emits_append. }
  apply Forall_app. split.
  - destruct (_ && _); [apply Forall_singleton | by apply Forall_nil].
    split; [done | by left].
  - destruct (_ <? _); [apply Forall_singleton | by apply Forall_nil].
    split; [done | by right].
Qed.

Lemma check_performance_uniform :
  ∃ rest,
    Forall (λ i, type i = "performance" ∧ (severity i = "high" ∨ severity i = "medium")) rest
    ∧ ∀ board_info,
        emitted (_check_performance board_info) code
        = concat (delay_issue board_info <$> delay_durations code) ++ rest.
Proof.
  eexists. split; [| intros board_info; apply emits_emitted].
  2: { unfold _check_performance. apply emits_get_code, emits_seq.
       - unfold delay_durations. rewrite <- list_fmap_compose.
         apply emits_for_each.
         eapply Forall_impl; [apply delay_items |]. intros x Hx.
         eapply emits_lift; [by apply py_int_value |].
         unfold compose, delay_issue.
         destruct (10000 <=? int_value x); [| destruct (1000 <=? int_value x)].
         + apply emits_append.
         + destruct (is_realtime board_info); apply emits_append.
         + apply emits_ret.
       - apply emits_seq; apply emits_when, emits_append. }
  apply Forall_app. split.
  - destruct (search _ _); [apply Forall_singleton | by apply Forall_nil].
    split; [done | by left].
  - destruct (_ && _); [apply Forall_singleton | by apply Forall_nil].
    split; [done | by right].
Qed.

End Boards.

Section Fields.

(** The fields of the report are what the methods return on the analyzer
    that holds the detected issues. *)
Lemma analyze_fields (code board : string) (self : analyzer) :
  let board_info := resolve board in
  let issues := detected code board_info in
  let st := final code board in
  ∃ r mem,
    analyze (PyStr code) (PyStr board) self = Ok (r, st)
    ∧ _estimate_memory board_info st = Ok (mem, st)
    ∧ _calculate_weighted_score board_info st = Ok (Report.quality_score r, st)
    ∧ _generate_summary (Report.quality_score r) board_info st
      = Ok (Report.summary r, st)
    ∧ _get_overall_severity st = Ok (Report.severity r, st)
    ∧ Report.issues r = to_dict <$> issues
    ∧ Report.issues_by_severity r
      = {[ "critical" := to_dict <$> List.filter (has_severity CRITICAL) issues;
           "high" := to_dict <$> List.filter (has_severity HIGH) issues;
           "medium" := to_dict <$> List.filter (has_severity MEDIUM) issues;
           "low" := to_dict <$> List.filter (has_severity LOW) issues ]}
    ∧ Report.issues_by_type r
      = {[ "memory" := bucket_of "memory" issues;
           "performance" := bucket_of "performance" issues;
           "correctness" := bucket_of "correctness" issues;
           "safety" := bucket_of "safety" issues;
           "style" := bucket_of "style" issues ]}
    ∧ Report.board r = name board_info
    ∧ Report.code_lines r = len (Str.split "010"%char code)
    ∧ Report.code_size_kb r = F64.round (F64.ratio (Str.len code) 1024) 2
    ∧ Report.issues_count r = len issues
    ∧ Report.critical_count r = len (List.filter (has_severity CRITICAL) issues)
    ∧ Report.high_count r = len (List.filter (has_severity HIGH) issues)
    ∧ Report.medium_count r = len (List.filter (has_severity MEDIUM) issues)
    ∧ Report.low_count r = len (List.filter (has_severity LOW) issues)
    ∧ Report.estimated_ram_usage_percent r = usage_percent mem
    ∧ Report.estimated_free_ram_kb r = estimated_free_ram_kb mem
    ∧ Report.memory_status r = safety_margin mem.
Proof.
  intros board_info issues st.
  assert (self_code st = PyStr code) as Hc by done.
  destruct (estimate_memory_run code board_info st Hc (resolve_registered board))
    as (_ & _ & Hmem).
  destruct (calculate_weighted_score_run board_info st) as (score & Hloop & Hscore).
  destruct (generate_summary_run (Z.max 0 (Z.min 100 score)) board_info st)
    as (summary & Hsum).
  pose proof (group_by_type_run st (detected_well_typed code board_info)) as Hgroup.
  destruct (get_overall_severity_run st) as (overall & Hov).
  eexists _, _. split.
  - unfold analyze. rewrite reset_run, BOARD_SPECS_get_str.
    erewrite (bind_run (lift _)); [| reflexivity].
    rewrite (checks_emit code (resolve board)); [| reflexivity].
    change (add_issues _ _) with st. fold board_info.
    erewrite bind_run; [| exact Hmem].
    erewrite bind_run; [| exact Hscore].
    erewrite bind_run; [| exact Hsum].
    erewrite (bind_run get_issues); [| reflexivity].
    erewrite (bind_run get_code); [| reflexivity].
    erewrite (bind_run (lift _)); [| by rewrite int_truediv_ok].
    erewrite bind_run; [| exact Hgroup].
    erewrite bind_run; [| exact Hov].
    reflexivity.
  - split; [exact Hmem |]. split; [exact Hscore |]. split; [exact Hsum |].
    split; [exact Hov |]. repeat split.
Qed.

End Fields.

Section Counts.

Lemma severity_counts (issues : list CodeIssue) :
  Forall well_typed issues →
  len issues
  = len (List.filter (has_severity CRITICAL) issues)
    + len (List.filter (has_severity HIGH) issues)
    + len (List.filter (has_severity MEDIUM) issues)
    + len (List.filter (has_severity LOW) issues).
Proof.
  unfold len. induction 1 as [|i issues [k Hk] _ IH]; [done |].
  apply kind_of_Some in Hk as [_ Hs].
  assert (∀ s', has_severity s' i = String.eqb (value k.2) (value s')) as E
    by (intros s'; unfold has_severity; by rewrite Hs).
  cbn [List.filter]. rewrite !E.
  destruct k as [t []]; cbn; lia.
Qed.

Lemma total_penalty_bounds board_info (issues : list CodeIssue) :
  len issues ≤ total_penalty board_info issues ≤ 30 * len issues.
Proof.
  unfold len. induction issues as [|i issues IH]; simpl; [lia |].
  destruct (issue_penalty_total board_info i) as (p & Hp & Hr).
  assert (penalty_of board_info i = p) by (unfold penalty_of; by rewrite Hp).
  lia.
Qed.

Lemma calculate_weighted_score_total board_info (self : analyzer) :
  _calculate_weighted_score board_info self
  = Ok (Z.max 0 (Z.min 100 (100 - total_penalty board_info (self_issues self))), self).
Proof.
  unfold _calculate_weighted_score, mbind, M_bind, get_issues, lift.
  by rewrite score_loop_total_penalty.
Qed.

End Counts.


(** X2.  On every analyzer and every profile the scoring method returns
    without raising and leaves the analyzer as it was.  Every issue,
    whatever its category and severity, costs between 1 and 30 points: with
    n issues the score lies between max(0, 100 - 30 n) and max(0, 100 - n),
    and it is 100 exactly when there is no issue. *)
Theorem score_bounds (board_info : BoardInfo) (self : analyzer) :
  ∃ score,
    _calculate_weighted_score board_info self = Ok (score, self)
    ∧ Z.max 0 (100 - 30 * len (self_issues self)) ≤ score
    ∧ score ≤ Z.max 0 (100 - len (self_issues self))
    ∧ (score = 100 ↔ self_issues self = []).
Proof.
  eexists. split; [apply calculate_weighted_score_total |].
  pose proof (total_penalty_bounds board_info (self_issues self)) as Hb.
  split; [lia |]. split; [lia |]. split.
  - intros H. destruct (self_issues self) as [|i l]; [done |].
    unfold len in Hb. simpl length in Hb. lia.
  - intros ->. reflexivity.
Qed.





Section Critical.

Variable code : string.
Variable board_info : BoardInfo.

Local Abbreviation origin :=
  (λ i, severity i = "critical" → critical_origin board_info i).

Ltac sorted :=
  repeat first
    [ apply emits_all_get_code | apply emits_all_seq | apply emits_all_when
    | apply emits_all_append ].

Lemma check_correctness_origin : Forall origin (emitted _check_correctness code).
Proof.
  apply emits_all_emitted. unfold _check_correctness. sorted.
  - intros _. by left.
  - intros _. right. by left.
  - discriminate.
Qed.

Lemma check_safety_origin : Forall origin (emitted _check_safety code).
Proof. apply emits_all_emitted. unfold _check_safety. sorted; discriminate. Qed.

Lemma check_style_origin : Forall origin (emitted _check_style code).
Proof.
  apply emits_all_emitted. unfold _check_style.
  apply emits_all_get_code, emits_all_seq; [sorted; discriminate |].
  eapply emits_all_lift; [apply int_truediv_ok; lia |]. sorted; discriminate.
Qed.

Lemma not_critical_origin (rest : list CodeIssue) :
  Forall (λ i, type i = "memory" ∧ (severity i = "high" ∨ severity i = "medium")) rest
  ∨ Forall (λ i, type i = "performance"
                 ∧ (severity i = "high" ∨ severity i = "medium")) rest →
  Forall origin rest.
Proof.
  intros [H | H]; (eapply Forall_impl; [exact H |]);
    intros i (_ & [Hs | Hs]) Hc; rewrite Hs in Hc; discriminate Hc.
Qed.

Lemma check_memory_safety_origin :
  Forall origin (emitted (_check_memory_safety board_info) code).
Proof.
  destruct (check_memory_safety_uniform code) as (rest & Hrest & ->).
  apply Forall_app. split; [| apply not_critical_origin; by left].
  apply Forall_fmap, Forall_forall. intros size Hin Hc.
  apply list_elem_of_In, filter_In in Hin as [_ Hsize%Z.ltb_lt].
  right; right; left. simpl in Hc.
  destruct (Z.ltb_spec (total_ram_kb board_info) 500); [| discriminate Hc].
  split; [done |]. by exists size.
Qed.

Lemma check_performance_origin :
  Forall origin (emitted (_check_performance board_info) code).
Proof.
  destruct (check_performance_uniform code) as (rest & Hrest & ->).
  apply Forall_app. split; [| apply not_critical_origin; by right].
  apply Forall_concat, Forall_fmap, Forall_forall. intros ms _.
  unfold compose. apply Forall_forall. intros i Hi Hc.
  right; right; right. revert Hi. unfold delay_issue.
  destruct (Z.leb_spec 10000 ms) as [Hms | Hms].
  - intros ->%list_elem_of_singleton. simpl in Hc.
    destruct (is_realtime board_info) eqn:Ert; [| discriminate Hc].
    split; [done |]. exists ms. split; [done |].
    by destruct (Z.leb_spec 10000 ms); [| lia].
  - destruct (1000 <=? ms); [| by intros ?%elem_of_nil].
    intros ->%list_elem_of_singleton. simpl in Hc.
    by destruct (is_realtime board_info).
Qed.

Lemma detected_origin : Forall origin (detected code board_info).
Proof.
  unfold detected. repeat (apply Forall_app; split);
    auto using check_correctness_origin, check_memory_safety_origin,
      check_performance_origin, check_safety_origin, check_style_origin.
Qed.

Lemma critical_origin_penalty (i : CodeIssue) :
  critical_origin board_info i → 20 ≤ penalty_of board_info i.
Proof.
  intros [-> | [-> | [(Hram & size & _ & ->) | (Hrt & ms & Hms & Hi)]]].
  - by rewrite (penalty_of_kind board_info _ (CORRECTNESS, CRITICAL)).
  - by rewrite (penalty_of_kind board_info _ (CORRECTNESS, CRITICAL)).
  - rewrite (penalty_of_kind board_info _ (MEMORY, CRITICAL)).
    + unfold Spec.penalty, Spec.category_multiplier. simpl fst; simpl snd.
      destruct (Z.ltb_spec (total_ram_kb board_info) 500); [by vm_compute | lia].
    + unfold large_array_issue.
      destruct (Z.ltb_spec (total_ram_kb board_info) 500); [done | lia].
  - unfold delay_issue in Hi. destruct (Z.leb_spec 10000 ms); [| lia].
    injection Hi as <-.
    rewrite (penalty_of_kind board_info _ (PERFORMANCE, CRITICAL)).
    + unfold Spec.penalty, Spec.category_multiplier. simpl fst; simpl snd.
      rewrite Hrt. by vm_compute.
    + by rewrite Hrt.
Qed.

Lemma critical_total_penalty (issues : list CodeIssue) :
  Forall origin issues →
  20 * len (List.filter (has_severity CRITICAL) issues)
  ≤ total_penalty board_info issues.
Proof.
  unfold len. induction 1 as [|i issues Hi _ IH]; simpl; [lia |].
  pose proof (penalty_of_pos board_info i).
  unfold has_severity at 1.
  destruct (String.eqb_spec (severity i) (value CRITICAL)) as [Hc | _];
    [| lia].
  pose proof (critical_origin_penalty i (Hi Hc)). simpl length. lia.
Qed.

End Critical.

Section Unconstrained.

Variable code : string.
Variable board_info : BoardInfo.

Local Abbreviation mild := (λ i, severity i ≠ "critical").

Ltac mild_step :=
  repeat first
    [ apply emits_all_get_code | apply emits_all_seq | apply emits_all_when
    | apply emits_all_append; discriminate ].

Lemma check_safety_mild : Forall mild (emitted _check_safety code).
Proof. apply emits_all_emitted. unfold _check_safety. mild_step. Qed.

Lemma check_style_mild : Forall mild (emitted _check_style code).
Proof.
  apply emits_all_emitted. unfold _check_style.
  apply emits_all_get_code, emits_all_seq; [mild_step |].
  eapply emits_all_lift; [apply int_truediv_ok; lia |]. mild_step.
Qed.

Lemma rest_mild (rest : list CodeIssue) (t : string) :
  Forall (λ i, type i = t ∧ (severity i = "high" ∨ severity i = "medium")) rest →
  Forall mild rest.
Proof.
  intros H. eapply Forall_impl; [exact H |].
  intros i (_ & [Hs | Hs]); rewrite Hs; discriminate.
Qed.

Lemma check_memory_safety_mild :
  500 ≤ total_ram_kb board_info →
  Forall mild (emitted (_check_memory_safety board_info) code).
Proof.
  intros Hram. destruct (check_memory_safety_uniform code) as (rest & Hrest & ->).
  apply Forall_app. split; [| by eapply rest_mild].
  apply Forall_fmap, Forall_forall. intros size _. simpl.
  by destruct (Z.ltb_spec (total_ram_kb board_info) 500); [lia |].
Qed.

Lemma check_performance_mild :
  is_realtime board_info = false →
  Forall mild (emitted (_check_performance board_info) code).
Proof.
  intros Hrt. destruct (check_performance_uniform code) as (rest & Hrest & ->).
  apply Forall_app. split; [| by eapply rest_mild].
  apply Forall_concat, Forall_fmap, Forall_forall. intros ms _.
  unfold compose, delay_issue. rewrite Hrt.
  destruct (10000 <=? ms); [| destruct (1000 <=? ms)];
    [apply Forall_singleton | apply Forall_singleton | by apply Forall_nil];
    discriminate.
Qed.

Lemma filter_mild (issues : list CodeIssue) :
  Forall mild issues → List.filter (has_severity CRITICAL) issues = [].
Proof.
  induction 1 as [|i issues Hi _ IH]; [done |]. simpl. rewrite IH.
  unfold has_severity. by destruct (String.eqb_spec (severity i) (value CRITICAL)).
Qed.

Lemma check_correctness_criticals :
  List.filter (has_severity CRITICAL) (emitted _check_correctness code)
  = (if negb (Str.contains "void setup()" code)
        && negb (Str.contains "void setup (" code)
     then [missing_setup_issue] else [])
    ++ (if negb (Str.contains "void loop()" code)
           && negb (Str.contains "void loop (" code)
        then [missing_loop_issue] else []).
Proof.
  erewrite emits_emitted.
  2: { unfold _check_correctness. apply emits_get_code.
       apply emits_seq; [apply emits_when, emits_append |].
       apply emits_seq; apply emits_when, emits_append. }
  destruct (negb (Str.contains "void setup()" code) && _),
    (negb (Str.contains "void loop()" code) && _), (search _ _); reflexivity.
Qed.

End Unconstrained.







Section Across.

Variable code : string.
Variables b1 b2 : BoardInfo.

Lemma at_least_refl (i : CodeIssue) : well_typed i → at_least i i.
Proof. intros [k Hk%kind_of_Some]. by exists k, k. Qed.

Lemma across_refl (l : list CodeIssue) :
  Forall well_typed l → Forall2 (across b1 b2) l l.
Proof.
  induction 1 as [|i l Hi _ IH]; constructor; [| done].
  repeat split; [done | done |]. intros _. by apply at_least_refl.
Qed.

Lemma large_array_issue_across (size : Z) :
  across b1 b2 (large_array_issue b1 size) (large_array_issue b2 size).
Proof.
  split; [done |].
  split; [apply large_array_issue_typed |]. split; [apply large_array_issue_typed |].
  intros [Hram _]. unfold at_least, large_array_issue.
  destruct (Z.ltb_spec (total_ram_kb b1) 500), (Z.ltb_spec (total_ram_kb b2) 500).
  - by exists (MEMORY, CRITICAL), (MEMORY, CRITICAL).
  - exists (MEMORY, CRITICAL), (MEMORY, HIGH). repeat split. simpl. lia.
  - lia.
  - by exists (MEMORY, HIGH), (MEMORY, HIGH).
Qed.

Lemma delay_issue_across (ms : Z) :
  Forall2 (across b1 b2) (delay_issue b1 ms) (delay_issue b2 ms).
Proof.
  unfold delay_issue.
  destruct (10000 <=? ms); [| destruct (1000 <=? ms)]; [| | constructor];
    (constructor; [| constructor]);
    (split; [done |]);
    (split; [unfold well_typed, kind_of; simpl; by destruct (is_realtime b1) |]);
    (split; [unfold well_typed, kind_of; simpl; by destruct (is_realtime b2) |]);
    intros [_ Hrt]; unfold at_least; simpl;
    destruct (is_realtime b1), (is_realtime b2); try (by discriminate Hrt).
  - by exists (PERFORMANCE, CRITICAL), (PERFORMANCE, CRITICAL).
  - exists (PERFORMANCE, CRITICAL), (PERFORMANCE, HIGH). repeat split. simpl. lia.
  - by exists (PERFORMANCE, HIGH), (PERFORMANCE, HIGH).
  - by exists (PERFORMANCE, HIGH), (PERFORMANCE, HIGH).
  - exists (PERFORMANCE, HIGH), (PERFORMANCE, MEDIUM). repeat split. simpl. lia.
  - by exists (PERFORMANCE, MEDIUM), (PERFORMANCE, MEDIUM).
Qed.

Lemma rest_typed (rest : list CodeIssue) (t : IssueType) :
  Forall (λ i, type i = value t ∧ (severity i = "high" ∨ severity i = "medium")) rest →
  Forall well_typed rest.
Proof.
  intros H. eapply Forall_impl; [exact H |].
  intros i (Ht & [Hs | Hs]); unfold well_typed, kind_of; rewrite Ht, Hs;
    by destruct t.
Qed.

Lemma detected_across : Forall2 (across b1 b2) (detected code b1) (detected code b2).
Proof.
  unfold detected.
  destruct (check_memory_safety_uniform code) as (r1 & Hr1 & Hm).
  destruct (check_performance_uniform code) as (r2 & Hr2 & Hp).
  rewrite !Hm, !Hp.
  repeat apply Forall2_app.
  - apply across_refl, check_correctness_typed.
  - apply Forall2_fmap, Forall_Forall2_diag, Forall_forall.
    intros size _. apply large_array_issue_across.
  - apply across_refl. by apply (rest_typed _ MEMORY).
  - clear Hp. induction (delay_durations code) as [|ms ds IH]; [constructor |].
    rewrite !fmap_cons. cbn [concat].
    apply Forall2_app; [apply delay_issue_across | done].
  - apply across_refl. by apply (rest_typed _ PERFORMANCE).
  - apply across_refl, check_safety_typed.
  - apply across_refl, check_style_typed.
Qed.

Lemma penalty_stricter (i : CodeIssue) :
  well_typed i → stricter b1 b2 → penalty_of b2 i ≤ penalty_of b1 i.
Proof.
  intros [[t s] Hk%kind_of_Some] [Hram Hrt].
  rewrite !(penalty_of_kind _ _ _ Hk).
  unfold Spec.penalty, Spec.category_multiplier. simpl fst; simpl snd.
  destruct (Z.ltb_spec (total_ram_kb b1) 500), (Z.ltb_spec (total_ram_kb b2) 500);
    try lia;
    destruct (is_realtime b1), (is_realtime b2);
    try (by discriminate Hrt);
    destruct t, s; by vm_compute.
Qed.

Lemma across_total_penalty (l1 l2 : list CodeIssue) :
  stricter b1 b2 → Forall2 (across b1 b2) l1 l2 →
  total_penalty b2 l2 ≤ total_penalty b1 l1.
Proof.
  intros Hs. induction 1 as [|i j l1 l2 (_ & Hi & _ & Hij) _ IH]; simpl; [lia |].
  pose proof (at_least_penalty b2 i j (Hij Hs)).
  pose proof (penalty_stricter i Hi Hs). lia.
Qed.

End Across.




Lemma score_loop_fields (b1 b2 : BoardInfo) (issues : list CodeIssue) :
  total_ram_kb b1 = total_ram_kb b2 →
  is_realtime b1 = is_realtime b2 →
  ∀ score, score_loop b1 issues score = score_loop b2 issues score.
Proof.
  destruct b1 as [n1 ram1 res1 rt1 pc1], b2 as [n2 ram2 res2 rt2 pc2].
  simpl. intros -> ->.
  induction issues as [|i l IH]; intros score; [done |]. simpl.
  change (issue_penalty {| name := n1; total_ram_kb := ram2;
                           system_reserved_kb := res1; is_realtime := rt2;
                           performance_critical := pc1 |} i)
    with (issue_penalty {| name := n2; total_ram_kb := ram2;
                           system_reserved_kb := res2; is_realtime := rt2;
                           performance_critical := pc2 |} i).
  destruct (issue_penalty _ i); [apply IH | done].
Qed.

(** X12.  Detection and scoring read two things of a profile, whether its
    RAM is below 500 kB (and the figure, for one suggestion) and whether it
    is realtime: two profiles with the same RAM and the same realtime flag
    give the same issues and the same score.  The name, the reserved RAM
    and the performance_critical flag play no part. *)
Theorem scoring_ignores_unused_fields (code : string) (b1 b2 : BoardInfo)
  (self : analyzer) :
  total_ram_kb b1 = total_ram_kb b2 →
  is_realtime b1 = is_realtime b2 →
  detected code b1 = detected code b2
  ∧ _calculate_weighted_score b1 self = _calculate_weighted_score b2 self.
Proof.
  intros Hram Hrt. split.
  - destruct b1 as [n1 ram1 res1 rt1 pc1], b2 as [n2 ram2 res2 rt2 pc2].
    simpl in Hram, Hrt. by subst.
  - unfold _calculate_weighted_score, mbind, M_bind, get_issues.
    by rewrite (score_loop_fields b1 b2 _ Hram Hrt).
Qed.

(** An instance of X12: a profile with the RAM and the realtime flag of the
    ESP32 DevKit under another name. *)
Lemma scoring_ignores_unused_fields_witness :
  detected sample_code esp32dev
  = detected sample_code
      {| name := "ESP32 clone"; total_ram_kb := 520; system_reserved_kb := 64;
         is_realtime := false; performance_critical := true |}
  ∧ _calculate_weighted_score esp32dev __init__
    = _calculate_weighted_score
        {| name := "ESP32 clone"; total_ram_kb := 520; system_reserved_kb := 64;
           is_realtime := false; performance_critical := true |} __init__.
Proof.
  apply (scoring_ignores_unused_fields sample_code esp32dev
           {| name := "ESP32 clone"; total_ram_kb := 520; system_reserved_kb := 64;
              is_realtime := false; performance_critical := true |} __init__);
    reflexivity.
Defined.

Section Lines.

Lemma split_length (sep : ascii) (s : string) :
  length (Str.split sep s) = S (Str.count_from (String sep "") 0 s).
Proof.
  induction s as [|a s IH]; [done |].
  cbn [Str.split Str.count_from String.prefix String.length Nat.pred].
  destruct (Ascii.eqb_spec a sep) as [-> | Hne].
  - destruct (ascii_dec sep sep); [| done].
    assert (String.prefix "" s = true) as -> by (by destruct s).
    simpl. by rewrite IH.
  - destruct (ascii_dec sep a); [by subst |].
    destruct (Str.split sep s); simpl in *; lia.
Qed.

End Lines.


(** ** Substrings *)

Section Substrings.

Lemma prefix_append (sub post : string) : String.prefix sub (sub +:+ post) = true.
Proof.
  induction sub as [|a sub IH]; simpl; [by destruct post |].
  by destruct (ascii_dec a a).
Qed.

Lemma prefix_inv (sub : string) :
  ∀ s, String.prefix sub s = true → ∃ post, s = sub +:+ post.
Proof.
  induction sub as [|a sub IH]; intros s H.
  - by exists s.
  - destruct s as [|b s]; [done |]. simpl in H.
    destruct (ascii_dec a b) as [<- |]; [| done].
    destruct (IH s H) as [post ->]. by exists post.
Qed.

Lemma contains_unfold (sub s : string) :
  Str.contains sub s
  = String.prefix sub s
    || match s with
       | EmptyString => false
       | String _ s' => Str.contains sub s'
       end.
Proof. by destruct s. Qed.

(** [sub in s] holds exactly when [s] is [sub] between two texts. *)
Lemma contains_spec (sub s : string) :
  Str.contains sub s = true ↔ ∃ pre post, s = pre +:+ sub +:+ post.
Proof.
  split.
  - induction s as [|a s IH]; rewrite contains_unfold;
      intros [H | H]%orb_prop.
    + apply prefix_inv in H as [post ->]. by exists "", post.
    + done.
    + apply prefix_inv in H as [post ->]. by exists "", post.
    + destruct (IH H) as (pre & post & ->). by exists (String a pre), post.
  - intros (pre & post & ->). induction pre as [|a pre IH].
    + rewrite contains_unfold.
      change ("" +:+ sub +:+ post) with (sub +:+ post). by rewrite prefix_append.
    + rewrite contains_unfold.
      change (String a pre +:+ sub +:+ post) with (String a (pre +:+ sub +:+ post)).
      cbv iota. by rewrite IH, orb_true_r.
Qed.

End Substrings.

(** ** Each rule reports in its own category *)

Section Categories.

Variable code : string.
Variable board_info : BoardInfo.

Ltac own :=
  repeat first
    [ apply emits_all_get_code | apply emits_all_seq | apply emits_all_when
    | apply emits_all_append; reflexivity ].

Lemma check_correctness_category :
  Forall (λ i, type i = "correctness") (emitted _check_correctness code).
Proof. apply emits_all_emitted. unfold _check_correctness. own. Qed.

Lemma check_safety_category :
  Forall (λ i, type i = "safety") (emitted _check_safety code).
Proof. apply emits_all_emitted. unfold _check_safety. own. Qed.

Lemma check_style_category :
  Forall (λ i, type i = "style") (emitted _check_style code).
Proof.
  apply emits_all_emitted. unfold _check_style.
  apply emits_all_get_code, emits_all_seq; [own |].
  eapply emits_all_lift; [apply int_truediv_ok; lia |]. own.
Qed.

Lemma check_memory_safety_category :
  Forall (λ i, type i = "memory") (emitted (_check_memory_safety board_info) code).
Proof.
  destruct (check_memory_safety_uniform code) as (rest & Hrest & ->).
  apply Forall_app. split.
  - by apply Forall_fmap, Forall_forall.
  - eapply Forall_impl; [exact Hrest |]. by intros i [? _].
Qed.

Lemma check_performance_category :
  Forall (λ i, type i = "performance")
    (emitted (_check_performance board_info) code).
Proof.
  destruct (check_performance_uniform code) as (rest & Hrest & ->).
  apply Forall_app. split.
  - apply Forall_concat, Forall_fmap, Forall_forall. intros ms _.
    unfold compose, delay_issue.
    destruct (10000 <=? ms); [| destruct (1000 <=? ms)];
      [by apply Forall_singleton | by apply Forall_singleton | by apply Forall_nil].
  - eapply Forall_impl; [exact Hrest |]. by intros i [? _].
Qed.

Lemma bucket_of_category (key t : string) (l : list CodeIssue) :
  Forall (λ i, type i = t) l →
  bucket_of key l = if String.eqb t key then to_dict <$> l else [].
Proof.
  unfold bucket_of, bucket_by.
  induction 1 as [|i l Hi _ IH]; simpl; [by destruct (String.eqb t key) |].
  rewrite Hi. destruct (String.eqb t key); [| done].
  rewrite fmap_cons. by f_equal.
Qed.

Lemma bucket_of_app (key : string) (l1 l2 : list CodeIssue) :
  bucket_of key (l1 ++ l2) = bucket_of key l1 ++ bucket_of key l2.
Proof. unfold bucket_of, bucket_by. by rewrite List.filter_app, fmap_app. Qed.

Lemma detected_buckets :
  bucket_of "correctness" (detected code board_info)
  = to_dict <$> emitted _check_correctness code
  ∧ bucket_of "memory" (detected code board_info)
    = to_dict <$> emitted (_check_memory_safety board_info) code
  ∧ bucket_of "performance" (detected code board_info)
    = to_dict <$> emitted (_check_performance board_info) code
  ∧ bucket_of "safety" (detected code board_info)
    = to_dict <$> emitted _check_safety code
  ∧ bucket_of "style" (detected code board_info)
    = to_dict <$> emitted _check_style code.
Proof.
  unfold detected. rewrite !bucket_of_app.
  repeat split;
    rewrite (bucket_of_category _ _ _ check_correctness_category),
      (bucket_of_category _ _ _ check_memory_safety_category),
      (bucket_of_category _ _ _ check_performance_category),
      (bucket_of_category _ _ _ check_safety_category),
      (bucket_of_category _ _ _ check_style_category);
    simpl; by rewrite ?app_nil_r.
Qed.

End Categories.


Section EntryPoints.

Variable code : string.
Variable board_info : BoardInfo.

Lemma check_correctness_explicit :
  ∃ unbounded,
    type unbounded = "correctness" ∧ severity unbounded = "high"
    ∧ emitted _check_correctness code
      = (if negb (Str.contains "void setup()" code)
            && negb (Str.contains "void setup (" code)
         then [missing_setup_issue] else [])
        ++ (if negb (Str.contains "void loop()" code)
               && negb (Str.contains "void loop (" code)
            then [missing_loop_issue] else [])
        ++ (if Re.search unbounded_array_pattern code then [unbounded] else []).
Proof.
  eexists. split; [| split]; [| | apply emits_emitted].
  3: { unfold _check_correctness. apply emits_get_code.
       apply emits_seq; [apply emits_when, emits_append |].
       apply emits_seq; apply emits_when, emits_append. }
  all: reflexivity.
Qed.

Lemma detected_correctness (i : CodeIssue) :
  type i = "correctness" →
  i ∈ detected code board_info ↔ i ∈ emitted _check_correctness code.
Proof.
  intros Ht. unfold detected. rewrite !elem_of_app.
  pose proof (check_memory_safety_category code board_info) as H2.
  pose proof (check_performance_category code board_info) as H3.
  pose proof (check_safety_category code) as H4.
  pose proof (check_style_category code) as H5.
  rewrite Forall_forall in H2, H3, H4, H5.
  split; [| by left].
  intros [H | [H | [H | [H | H]]]]; [done | | | |].
  - apply H2 in H. by rewrite Ht in H.
  - apply H3 in H. by rewrite Ht in H.
  - apply H4 in H. by rewrite Ht in H.
  - apply H5 in H. by rewrite Ht in H.
Qed.

Lemma absent_spec (sub1 sub2 : string) :
  negb (Str.contains sub1 code) && negb (Str.contains sub2 code) = true
  ↔ ¬ occurs sub1 code ∧ ¬ occurs sub2 code.
Proof.
  unfold occurs. rewrite <- !contains_spec, andb_true_iff, !negb_true_iff.
  split; intros [H1 H2]; split;
    by destruct (Str.contains sub1 code), (Str.contains sub2 code).
Qed.

Lemma missing_entry_points_iff :
  (missing_setup_issue ∈ detected code board_info
   ↔ ¬ occurs "void setup()" code ∧ ¬ occurs "void setup (" code)
  ∧ (missing_loop_issue ∈ detected code board_info
     ↔ ¬ occurs "void loop()" code ∧ ¬ occurs "void loop (" code).
Proof.
  rewrite !detected_correctness by done.
  rewrite <- !absent_spec.
  destruct check_correctness_explicit as (u & Ht & Hs & ->).
  rewrite !elem_of_app.
  split; split.
  - intros [H | [H | H]].
    + by destruct (_ && _); [| apply elem_of_nil in H].
    + destruct (negb (Str.contains "void loop()" code) && _);
        [| by apply elem_of_nil in H].
      by apply list_elem_of_singleton in H.
    + destruct (search _ _); [| by apply elem_of_nil in H].
      apply list_elem_of_singleton in H. subst u. discriminate Hs.
  - intros ->. left. by apply list_elem_of_singleton.
  - intros [H | [H | H]].
    + destruct (negb (Str.contains "void setup()" code) && _);
        [| by apply elem_of_nil in H].
      by apply list_elem_of_singleton in H.
    + by destruct (_ && _); [| apply elem_of_nil in H].
    + destruct (search _ _); [| by apply elem_of_nil in H].
      apply list_elem_of_singleton in H. subst u. discriminate Hs.
  - intros ->. right; left. by apply list_elem_of_singleton.
Qed.

End EntryPoints.


Section Residual.

Variable code : string.
Variable board_info : BoardInfo.

Lemma check_memory_safety_explicit :
  ∃ leak literals,
    (type leak = "memory" ∧ severity leak = "high" ∧ line_number leak = None
     ∧ message leak
       = "Potential memory leak: " +:+ pretty (Str.count "malloc" code)
         +:+ " malloc calls but only " +:+ pretty (Str.count "free" code)
         +:+ " free calls")
    ∧ (type literals = "memory" ∧ severity literals = "medium"
       ∧ line_number literals = None
       ∧ message literals
         = "Found " +:+ pretty (len (Re.findall string_literal_pattern code))
           +:+ " string literals without F() macro")
    ∧ emitted (_check_memory_safety board_info) code
      = (large_array_issue board_info
           <$> List.filter (λ n, 1000 <? n) (declared_sizes code))
        ++ (if (0 <? Str.count "malloc" code)
               && (Str.count "free" code <? Str.count "malloc" code)
            then [leak] else [])
        ++ (if 3 <? len (Re.findall string_literal_pattern code)
            then [literals] else []).
Proof.
  eexists _, _. split; [| split]; [| | apply emits_emitted].
  3: { unfold _check_memory_safety. apply emits_get_code, emits_seq.
       - replace (large_array_issue board_info
                    <$> List.filter (λ n, 1000 <? n) (declared_sizes code))
           with (concat ((λ x, if 1000 <? int_value x
                               then [large_array_issue board_info (int_value x)]
                               else []) <$> Re.findall large_array_pattern code)).
         + apply emits_for_each.
           eapply Forall_impl; [apply large_array_items |]. intros x Hx.
           eapply emits_lift; [by apply py_int_value |].
           apply emits_when, emits_append.
         + unfold declared_sizes.
           induction (findall large_array_pattern code) as [|x xs IH]; [done |].
           rewrite !fmap_cons. cbn [concat List.filter]. rewrite IH.
           by destruct (1000 <? int_value x).
       - apply emits_seq; apply emits_when, emits_append. }
  all: repeat split.
Qed.

Lemma check_performance_explicit :
  ∃ spam,
    (type spam = "performance" ∧ severity spam = "medium" ∧ line_number spam = None
     ∧ message spam
       = "Multiple Serial.print calls without delays may overwhelm serial buffer")
    ∧ emitted (_check_performance board_info) code
      = concat (delay_issue board_info <$> delay_durations code)
        ++ (if Re.search infinite_loop_pattern code
            then [infinite_loop_issue] else [])
        ++ (if (5 <? Str.count "Serial.print" code)
               && negb (Str.contains "delay" code)
            then [spam] else []).
Proof.
  eexists. split; [| apply emits_emitted].
  2: { unfold _check_performance. apply emits_get_code, emits_seq.
       - unfold delay_durations. rewrite <- list_fmap_compose.
         apply emits_for_each.
         eapply Forall_impl; [apply delay_items |]. intros x Hx.
         eapply emits_lift; [by apply py_int_value |].
         unfold compose, delay_issue.
         destruct (10000 <=? int_value x); [| destruct (1000 <=? int_value x)].
         + apply emits_append.
         + destruct (is_realtime board_info); apply emits_append.
         + apply emits_ret.
       - apply emits_seq; apply emits_when, emits_append. }
  all: repeat split.
Qed.

End Residual.

Section Scan.

(** A listed item comes from a match at some position of the text. *)
Lemma scan_match (r : regex) :
  ∀ s prev skip,
    scan r prev skip s ≠ [] →
    ∃ pre suf prev' s' g, s = pre +:+ suf ∧ match_here r prev' suf = Some (s', g).
Proof.
  induction s as [|a s IH]; intros prev skip H.
  - destruct skip; simpl in H; [| done].
    destruct (match_here r prev "") as [[s' g]|] eqn:E; [| done].
    by exists "", "", prev, s', g.
  - destruct skip; simpl in H.
    + destruct (match_here r prev (String a s)) as [[s' g]|] eqn:E.
      * by exists "", (String a s), prev, s', g.
      * destruct (IH _ _ H) as (pre & suf & prev' & s' & g & -> & Hm).
        by exists (String a pre), suf, prev', s', g.
    + destruct (IH _ _ H) as (pre & suf & prev' & s' & g & -> & Hm).
      by exists (String a pre), suf, prev', s', g.
Qed.

Lemma delay_occurs (code : string) :
  delay_durations code ≠ [] → occurs "delay" code.
Proof.
  unfold delay_durations, findall. intros H.
  destruct (scan_match delay_pattern code None 0)
    as (pre & suf & prev' & s' & g & -> & Hm).
  { intros E. by rewrite E in H. }
  apply match_here_post in Hm. simpl in Hm.
  destruct Hm as (s1 & g1 & [-> _] & _).
  by exists pre, s1.
Qed.

End Scan.


(** X17.  The performance rule reports the serial-print issue exactly when
    the text holds more than five [Serial.print] and the word [delay]
    nowhere.  A text without that word has no delay call, so this issue is
    never reported together with a delay issue. *)
Theorem serial_spam_excludes_delays (code : string) (board_info : BoardInfo) :
  let spam :=
    "Multiple Serial.print calls without delays may overwhelm serial buffer" in
  ((∃ i, i ∈ emitted (_check_performance board_info) code ∧ message i = spam)
   ↔ 5 < Str.count "Serial.print" code ∧ ¬ occurs "delay" code)
  ∧ (¬ occurs "delay" code → delay_durations code = []).
Proof.
  intros spam.
  assert (¬ occurs "delay" code → delay_durations code = []) as Hno.
  { intros Hn. destruct (delay_durations code) eqn:E; [done |].
    destruct Hn. apply delay_occurs. by rewrite E. }
  split; [| done].
  destruct (check_performance_explicit code board_info)
    as (s & (Hst & Hss & _ & Hsm) & ->).
  unfold occurs. rewrite <- contains_spec. split.
  - intros (i & Hi & Hm). rewrite !elem_of_app in Hi.
    destruct Hi as [Hi | [Hi | Hi]].
    + apply list_elem_of_In, in_concat in Hi as (l & Hl & Hi).
      apply list_elem_of_In, list_elem_of_fmap in Hl as (ms & -> & _).
      apply list_elem_of_In in Hi.
      unfold delay_issue in Hi.
      destruct (10000 <=? ms); [| destruct (1000 <=? ms)];
        [| | by apply elem_of_nil in Hi];
        apply list_elem_of_singleton in Hi; subst i; discriminate Hm.
    + destruct (search _ _); [| by apply elem_of_nil in Hi].
      apply list_elem_of_singleton in Hi. subst i. discriminate Hm.
    + destruct (Z.ltb_spec 5 (Str.count "Serial.print" code));
        [| by apply elem_of_nil in Hi].
      destruct (Str.contains "delay" code); [by apply elem_of_nil in Hi | done].
  - intros [Hc Hd]. exists s. split; [| done].
    rewrite !elem_of_app. right; right.
    destruct (Z.ltb_spec 5 (Str.count "Serial.print" code)); [| lia].
    destruct (Str.contains "delay" code); [done |].
    by apply list_elem_of_singleton.
Qed.

Section Keys.

Lemma group_loop_keys (issues : list CodeIssue) :
  ∀ grouped : gmap string (list dict),
    (∀ key, is_Some (grouped !! key) ↔ key ∈ type_keys) →
    if forallb (λ i, bool_decide (type i ∈ type_keys)) issues
    then ∃ grouped',
           group_loop issues grouped = Ok grouped'
           ∧ ∀ key, grouped' !! key
                    = (λ bucket, bucket ++ bucket_of key issues) <$> grouped !! key
    else group_loop issues grouped = Raise KeyError.
Proof.
  induction issues as [|i issues IH]; intros grouped Hg; simpl.
  - exists grouped. split; [done |]. intros key.
    destruct (grouped !! key); simpl; [by rewrite app_nil_r | done].
  - unfold subscript. case_bool_decide as Hi; simpl.
    + apply Hg in Hi as [bucket Hb]. rewrite Hb. simpl.
      specialize (IH (<[type i := bucket ++ [to_dict i]]> grouped)).
      destruct (forallb _ issues).
      * destruct IH as (grouped' & -> & Hl).
        { intros key. rewrite lookup_insert. case_decide as Hk; [| apply Hg].
          subst key. split; [intros _ | by eexists]. apply Hg. by eexists. }
        exists grouped'. split; [done |]. intros key.
        rewrite Hl, lookup_insert, bucket_of_cons. case_decide as Hkey.
        -- subst key. rewrite Hb, String.eqb_refl. simpl. by rewrite <- app_assoc.
        -- by destruct (String.eqb_spec (type i) key).
      * apply IH. intros key. rewrite lookup_insert. case_decide as Hk; [| apply Hg].
        subst key. split; [intros _ | by eexists]. apply Hg. by eexists.
    + destruct (grouped !! type i) as [bucket|] eqn:Hb; [| done].
      destruct Hi. apply Hg. by eexists.
Qed.

End Keys.

Lemma grouped_keys (key : string) :
  is_Some (({[ "memory" := []; "performance" := []; "correctness" := [];
               "safety" := []; "style" := [] ]} : gmap string (list dict)) !! key)
  ↔ key ∈ type_keys.
Proof.
  unfold type_keys. rewrite !lookup_insert, lookup_singleton.
  rewrite !elem_of_cons, elem_of_nil.
  repeat case_decide; subst; split; intros Hk; try (by eexists); try tauto.
  - by destruct Hk.
  - exfalso. intuition congruence.
Qed.

(** X18.  Grouping by category returns the five buckets when every issue of
    the analyzer is of one of the five categories, and raises KeyError as
    soon as one is not. *)
Theorem group_by_type_missing_key (self : analyzer) :
  _group_by_type self
  = if forallb (λ i, bool_decide (type i ∈ type_keys)) (self_issues self)
    then Ok ({[ "memory" := bucket_of "memory" (self_issues self);
                "performance" := bucket_of "performance" (self_issues self);
                "correctness" := bucket_of "correctness" (self_issues self);
                "safety" := bucket_of "safety" (self_issues self);
                "style" := bucket_of "style" (self_issues self) ]}, self)
    else Raise KeyError.
Proof.
  unfold _group_by_type, mbind, M_bind, get_issues, lift.
  match goal with
  | |- context [group_loop _ ?g] =>
      pose proof (group_loop_keys (self_issues self) g) as H
  end.
  destruct (forallb _ (self_issues self)).
  - destruct H as (grouped' & -> & Hl).
    { apply grouped_keys. }
    do 2 f_equal. apply map_eq. intros key. rewrite Hl.
    rewrite !lookup_insert, !lookup_singleton.
    repeat case_decide; by subst.
  - rewrite H; [done |].
    apply grouped_keys.
Qed.

(** X19.  An issue whose severity is none of the four has the base penalty
    5: it costs 5 points, 7 in the memory category on a board short of RAM,
    6 or 4 in the performance category on a realtime or other board, and 2
    in the style category. *)
Theorem unknown_severity_penalty (board_info : BoardInfo) (i : CodeIssue) :
  severity i ∉ severity_keys →
  issue_penalty board_info i
  = Ok (if String.eqb (type i) "memory"
        then (if total_ram_kb board_info <? 500 then 7 else 5)
        else if String.eqb (type i) "performance"
             then (if is_realtime board_info then 6 else 4)
        else if String.eqb (type i) "style" then 2
        else 5).
Proof.
  intros Hs. unfold issue_penalty.
  assert (severity_weights !! severity i = None) as ->.
  { unfold severity_weights, severity_keys in *.
    rewrite !lookup_insert, lookup_singleton.
    repeat case_decide; try done; set_solver. }
  unfold type_multipliers. rewrite !lookup_insert, lookup_singleton.
  destruct (String.eqb_spec (type i) "memory") as [-> |];
    [| destruct (String.eqb_spec (type i) "performance") as [-> |];
       [| destruct (String.eqb_spec (type i) "style") as [-> |]]];
    repeat case_decide; try done; simpl;
    destruct (total_ram_kb board_info <? 500), (is_realtime board_info);
    vm_compute; reflexivity.
Qed.

(** An instance of X19: a memory issue of an unknown severity on the
    ESP32-C3. *)
Lemma unknown_severity_penalty_witness :
  issue_penalty esp32c3
    {| type := "memory"; severity := "blocker"; message := "Heap exhausted";
       suggestion := ""; line_number := None |} = Ok 7.
Proof.
  apply (unknown_severity_penalty esp32c3
           {| type := "memory"; severity := "blocker"; message := "Heap exhausted";
              suggestion := ""; line_number := None |}).
  apply (bool_decide_unpack _). by vm_compute.
Defined.

(** ** The texts a pattern matches *)

Section Complete.

Lemma post_lang (r : regex) :
  ∀ s g s' g', post r s g s' g' → lang r s s'.
Proof.
  induction r as [p|c min|r1 IH1 r2 IH2|r1 IH1 r2 IH2|r1 IH1|r1 IH1|];
    intros s g s' g'; simpl.
  - by intros [-> _].
  - intros (d & -> & Hd & Hl & _). by exists d.
  - intros (s1 & g1 & H1 & H2). exists s1. split; [by eapply IH1 | by eapply IH2].
  - intros [H | H]; [left; by eapply IH1 | right; by eapply IH2].
  - intros [H | [-> _]]; [left; by eapply IH1 | by right].
  - intros [_ [g1 H]]. by eapply IH1.
  - by intros [-> _].
Qed.

Lemma lit_match_complete (p : string) :
  ∀ prev s', ∃ prev', lit_match p prev (p +:+ s') = Some (prev', s').
Proof.
  induction p as [|a p IH]; intros prev s'; simpl; [by eexists |].
  rewrite Ascii.eqb_refl. apply IH.
Qed.

Lemma many_match_complete {A} (c : cclass) (k : option ascii → string → option A)
  (s' : string) :
  (∀ prev, is_Some (k prev s')) →
  ∀ d prev min,
    all_in c d = true → (min ≤ String.length d)%nat →
    is_Some (many_match c prev (d +:+ s') min k).
Proof.
  intros Hk. induction d as [|a d IH]; intros prev min Hd Hl.
  - simpl in Hl. assert (min = 0)%nat as -> by lia.
    change ("" +:+ s') with s'.
    destruct s' as [|b s']; simpl; [apply Hk |].
    destruct (in_class c b); [| apply Hk].
    destruct (many_match c (Some b) s' 0 k); [by eexists | apply Hk].
  - simpl in Hd, Hl. apply andb_prop in Hd as [Ha Hd]. simpl. rewrite Ha.
    destruct (IH (Some a) (Nat.pred min) Hd) as [x ->]; [lia |]. by eexists.
Qed.

Lemma rmatch_complete (r : regex) :
  plain r = true →
  ∀ A (k : option ascii → string → option string → option A) prev s g s',
    lang r s s' →
    (∀ prev' g', is_Some (k prev' s' g')) →
    is_Some (rmatch r prev s g k).
Proof.
  induction r as [p|c min|r1 IH1 r2 IH2|r1 IH1 r2 IH2|r1 IH1|r1 IH1|];
    simpl; intros Hp A k prev s g s' Hl Hk.
  - subst s. destruct (lit_match_complete p prev s') as [prev' ->]. apply Hk.
  - destruct Hl as (d & -> & Hd & Hlen).
    apply many_match_complete; [| done | done]. intros prev'. apply Hk.
  - apply andb_prop in Hp as [Hp1 Hp2]. destruct Hl as (s1 & H1 & H2).
    eapply IH1; [done | exact H1 |]. intros prev' g'.
    eapply IH2; [done | exact H2 | done].
  - apply andb_prop in Hp as [Hp1 Hp2].
    destruct (rmatch r1 prev s g k) as [x|] eqn:E; [by eexists |].
    destruct Hl as [H | H]; [| by eapply IH2].
    destruct (IH1 Hp1 A k prev s g s' H Hk) as [x Hx]. congruence.
  - destruct (rmatch r1 prev s g k) as [x|] eqn:E; [by eexists |].
    destruct Hl as [H | ->]; [| apply Hk].
    destruct (IH1 Hp A k prev s g s' H Hk) as [x Hx]. congruence.
  - eapply IH1; [done | exact Hl |]. intros prev' g'. apply Hk.
  - done.
Qed.

Lemma search_from_sound (r : regex) :
  ∀ s prev, search_from r prev s = true →
            ∃ pre suf s', s = pre +:+ suf ∧ lang r suf s'.
Proof.
  induction s as [|a s IH]; intros prev H; simpl in H.
  - destruct (match_here r prev "") as [[s' g]|] eqn:E; [| done].
    exists "", "", s'. split; [done |]. by eapply post_lang, match_here_post.
  - destruct (match_here r prev (String a s)) as [[s' g]|] eqn:E.
    + exists "", (String a s), s'. split; [done |].
      by eapply post_lang, match_here_post.
    + destruct (IH _ H) as (pre & suf & s' & -> & Hl).
      by exists (String a pre), suf, s'.
Qed.

Lemma search_from_complete (r : regex) (suf s' : string) :
  plain r = true → lang r suf s' →
  ∀ pre prev, search_from r prev (pre +:+ suf) = true.
Proof.
  intros Hp Hl.
  assert (∀ prev, is_Some (match_here r prev suf)) as Hm.
  { intros prev. unfold match_here. by eapply rmatch_complete. }
  induction pre as [|a pre IH]; intros prev.
  - change ("" +:+ suf) with suf. destruct (Hm prev) as [x Hx].
    destruct suf; simpl; by rewrite Hx.
  - change (String a pre +:+ suf) with (String a (pre +:+ suf)). simpl.
    destruct (match_here r prev _); [done | apply IH].
Qed.

(** [re.search] finds a pattern without [^] exactly in the texts that hold
    a match of it. *)
Lemma search_spec (r : regex) (s : string) :
  plain r = true →
  Re.search r s = true ↔ ∃ pre suf s', s = pre +:+ suf ∧ lang r suf s'.
Proof.
  intros Hp. split.
  - apply search_from_sound.
  - intros (pre & suf & s' & -> & Hl). by eapply search_from_complete.
Qed.

End Complete.

Section SearchRules.

Variable code : string.
Variable board_info : BoardInfo.

Lemma nonempty_length (d : string) : (1 ≤ String.length d)%nat ↔ d ≠ "".
Proof. destruct d; simpl; split; (done || lia). Qed.

Lemma search_unbounded_array :
  Re.search unbounded_array_pattern code = true ↔ has_unsized_array code.
Proof.
  rewrite search_spec by done. unfold has_unsized_array, blank, identifier. split.
  - intros (pre & suf & s' & -> & H). simpl in H.
    destruct H as (s1 & -> & s2 & (d1 & -> & Hd1 & Hl1) & s3 & (w & -> & Hw & Hlw)
      & s4 & (d2 & -> & Hd2 & _) & s5 & -> & s6 & (d3 & -> & Hd3 & _) & ->).
    exists pre, d1, w, d2, d3, s'. rewrite <- !nonempty_length. by repeat split.
  - intros (pre & d1 & w & d2 & d3 & post & Hd1 & Hn1 & [Hw Hnw] & Hd2 & Hd3 & ->).
    eexists pre, _, post. split; [reflexivity |]. simpl.
    eexists. split; [reflexivity |].
    eexists. split; [exists d1; by rewrite nonempty_length |].
    eexists. split; [exists w; by rewrite nonempty_length |].
    eexists. split; [exists d2; repeat split; [done | lia] |].
    eexists. split; [reflexivity |].
    eexists. split; [exists d3; repeat split; [done | lia] |].
    reflexivity.
Qed.

Lemma search_infinite_loop :
  Re.search infinite_loop_pattern code = true ↔ has_forever_loop code.
Proof.
  rewrite search_spec by done. unfold has_forever_loop, blank. split.
  - intros (pre & suf & s' & -> & H). simpl in H.
    destruct H as [H | H];
      destruct H as (s1 & -> & s2 & (d1 & -> & Hd1 & _) & s3 & -> & s4
        & (d2 & -> & Hd2 & _) & s5 & -> & s6 & (d3 & -> & Hd3 & _) & ->).
    + exists pre, d1, d2, "1", d3, s'. repeat split; try done. by left.
    + exists pre, d1, d2, "true", d3, s'. repeat split; try done. by right.
  - intros (pre & d1 & d2 & cond & d3 & post & Hd1 & Hd2 & Hd3 & Hc & ->).
    eexists pre, _, post. split; [reflexivity |].
    destruct Hc as [-> | ->]; [left | right]; simpl.
    all: eexists; split; [reflexivity |].
    all: eexists; split; [exists d1; repeat split; [done | lia] |].
    all: eexists; split; [reflexivity |].
    all: eexists; split; [exists d2; repeat split; [done | lia] |].
    all: eexists; split; [reflexivity |].
    all: eexists; split; [exists d3; repeat split; [done | lia] |].
    all: reflexivity.
Qed.

Lemma detected_performance (i : CodeIssue) :
  type i = "performance" →
  i ∈ detected code board_info ↔ i ∈ emitted (_check_performance board_info) code.
Proof.
  intros Ht. unfold detected. rewrite !elem_of_app.
  pose proof (check_correctness_category code) as H1.
  pose proof (check_memory_safety_category code board_info) as H2.
  pose proof (check_safety_category code) as H4.
  pose proof (check_style_category code) as H5.
  rewrite Forall_forall in H1, H2, H4, H5.
  split; [| intros H; right; right; by left].
  intros [H | [H | [H | [H | H]]]]; [| | done | |].
  - apply H1 in H. by rewrite Ht in H.
  - apply H2 in H. by rewrite Ht in H.
  - apply H4 in H. by rewrite Ht in H.
  - apply H5 in H. by rewrite Ht in H.
Qed.

Lemma unbounded_array_detected :
  unbounded_array_issue ∈ detected code board_info ↔ has_unsized_array code.
Proof.
  rewrite detected_correctness by done. rewrite <- search_unbounded_array.
  erewrite emits_emitted.
  2: { unfold _check_correctness. apply emits_get_code.
       apply emits_seq; [apply emits_when, emits_append |].
       apply emits_seq; apply emits_when, emits_append. }
  rewrite !elem_of_app. split.
  - intros [H | [H | H]].
    + destruct (_ && _); [| by apply elem_of_nil in H].
      by apply list_elem_of_singleton in H.
    + destruct (_ && _); [| by apply elem_of_nil in H].
      by apply list_elem_of_singleton in H.
    + by destruct (search _ _); [| apply elem_of_nil in H].
  - intros ->. right; right. by apply list_elem_of_singleton.
Qed.

Lemma infinite_loop_detected :
  infinite_loop_issue ∈ detected code board_info ↔ has_forever_loop code.
Proof.
  rewrite detected_performance by done. rewrite <- search_infinite_loop.
  destruct (check_performance_explicit code board_info)
    as (s & (Hst & Hss & _ & Hsm) & ->).
  rewrite !elem_of_app. split.
  - intros [H | [H | H]].
    + apply list_elem_of_In, in_concat in H as (l & Hl & H).
      apply list_elem_of_In, list_elem_of_fmap in Hl as (ms & -> & _).
      apply list_elem_of_In in H. unfold delay_issue in H.
      destruct (10000 <=? ms); [| destruct (1000 <=? ms)];
        [| | by apply elem_of_nil in H];
        by apply list_elem_of_singleton in H.
    + by destruct (search _ _); [| apply elem_of_nil in H].
    + destruct (_ && _); [| by apply elem_of_nil in H].
      apply list_elem_of_singleton in H. subst s. discriminate Hss.
  - intros ->. right; left. by apply list_elem_of_singleton.
Qed.

End SearchRules.


Section Items.

(** Every item that [findall] lists is the item of a match at some
    position of the text. *)
Lemma scan_items (r : regex) :
  ∀ s prev skip,
    Forall (λ x, ∃ pre suf prev' s' g,
                   s = pre +:+ suf ∧ match_here r prev' suf = Some (s', g)
                   ∧ x = item r suf s' g)
      (scan r prev skip s).
Proof.
  assert (∀ a s l,
            Forall (λ x, ∃ pre suf prev' s' g,
                           s = pre +:+ suf ∧ match_here r prev' suf = Some (s', g)
                           ∧ x = item r suf s' g) l →
            Forall (λ x, ∃ pre suf prev' s' g,
                           String a s = pre +:+ suf
                           ∧ match_here r prev' suf = Some (s', g)
                           ∧ x = item r suf s' g) l) as Hshift.
  { intros a s l H. eapply Forall_impl; [exact H |].
    intros x (pre & suf & prev' & s' & g & -> & Hm & ->).
    by exists (String a pre), suf, prev', s', g. }
  induction s as [|a s IH]; intros prev skip.
  - destruct skip; simpl; [| done].
    destruct (match_here r prev "") as [[s' g]|] eqn:E; [| done].
    constructor; [| done]. by exists "", "", prev, s', g.
  - destruct skip; simpl; [| by apply Hshift].
    destruct (match_here r prev (String a s)) as [[s' g]|] eqn:E;
      [| by apply Hshift].
    constructor; [| by apply Hshift].
    by exists "", (String a s), prev, s', g.
Qed.

Lemma declared_sizes_sound (code : string) :
  Forall (declares_array code) (declared_sizes code).
Proof.
  unfold declared_sizes, findall. apply Forall_fmap.
  eapply Forall_impl; [apply scan_items |].
  intros x (pre & suf & prev' & s' & g & -> & Hm & ->).
  apply match_here_post in Hm. unfold item; simpl has_group. simpl in Hm.
  destruct Hm as (s1 & g1 & [-> ->] & s2 & g2 & (d1 & -> & Hd1 & Hl1 & ->)
    & s3 & g3 & (w & -> & Hw & Hlw & ->) & s4 & g4 & (d2 & -> & Hd2 & _ & ->)
    & s5 & g5 & [-> ->] & s6 & g6 & (d3 & -> & Hd3 & _ & ->)
    & s7 & g7 & [-> (? & n & -> & Hn & Hl & _)]
    & s8 & g8 & (d4 & -> & Hd4 & _ & ->) & [-> ->]).
  simpl. rewrite consumed_append.
  exists pre, d1, w, d2, d3, n, d4, s'.
  unfold blank, identifier, numeral. rewrite <- !nonempty_length.
  by repeat split.
Qed.

Lemma delay_durations_sound (code : string) :
  Forall (calls_delay code) (delay_durations code).
Proof.
  unfold delay_durations, findall. apply Forall_fmap.
  eapply Forall_impl; [apply scan_items |].
  intros x (pre & suf & prev' & s' & g & -> & Hm & ->).
  apply match_here_post in Hm. unfold item; simpl has_group. simpl in Hm.
  destruct Hm as (s1 & g1 & [-> ->] & s2 & g2 & (d1 & -> & Hd1 & _ & ->)
    & s3 & g3 & [-> ->] & s4 & g4 & (d2 & -> & Hd2 & _ & ->)
    & s5 & g5 & [-> (? & n & -> & Hn & Hl & _)]
    & s6 & g6 & (d3 & -> & Hd3 & _ & ->) & [-> ->]).
  simpl. rewrite consumed_append.
  exists pre, d1, d2, n, d3, s'.
  unfold blank, numeral. rewrite <- !nonempty_length.
  by repeat split.
Qed.

End Items.

(** X22.  On a profile whose total RAM is 0 the memory estimator raises
    ZeroDivisionError: the usage is a quotient by the total RAM. *)
Theorem estimate_memory_zero_ram (code : string) (board_info : BoardInfo)
  (self : analyzer) :
  self_code self = PyStr code →
  total_ram_kb board_info = 0 →
  _estimate_memory board_info self = Raise ZeroDivisionError.
Proof.
  intros Hc Hram.
  unfold _estimate_memory, mbind, M_bind, get_code. rewrite Hc.
  unfold Mem.code_size_kb, Mem.estimated_global_kb. rewrite !int_truediv_ok by lia.
  unfold lift at 1 2.
  unfold Mem.free_kb, Mem.usage_percent, Mem.used_kb, Mem.code_size_kb,
    Mem.estimated_global_kb.
  rewrite !int_truediv_ok by lia. rewrite Hram. reflexivity.
Qed.

(** An instance of X22: a profile without RAM. *)
Lemma estimate_memory_zero_ram_witness :
  _estimate_memory
    {| name := "Bare"; total_ram_kb := 0; system_reserved_kb := 0;
       is_realtime := false; performance_critical := false |}
    (fresh "int x;" PyNone)
  = Raise ZeroDivisionError.
Proof.
  apply (estimate_memory_zero_ram "int x;"); reflexivity.
Defined.

Section Unplaced.

Variable code : string.
Variable board_info : BoardInfo.

Local Abbreviation unplaced := (λ i, line_number i = None).

Ltac unplaced_step :=
  repeat first
    [ apply emits_all_get_code | apply emits_all_seq | apply emits_all_when
    | apply emits_all_append; reflexivity ].

Lemma detected_unplaced : Forall unplaced (detected code board_info).
Proof.
  unfold detected. repeat (apply Forall_app; split).
  - apply emits_all_emitted. unfold _check_correctness. unplaced_step.
  - destruct (check_memory_safety_explicit code board_info)
      as (l & s & (_ & _ & Hl & _) & (_ & _ & Hs & _) & ->).
    repeat (apply Forall_app; split).
    + by apply Forall_fmap, Forall_forall.
    + destruct (_ && _); [by apply Forall_singleton | by apply Forall_nil].
    + destruct (_ <? _); [by apply Forall_singleton | by apply Forall_nil].
  - destruct (check_performance_explicit code board_info)
      as (s & (_ & _ & Hs & _) & ->).
    repeat (apply Forall_app; split).
    + apply Forall_concat, Forall_fmap, Forall_forall. intros ms _.
      unfold compose, delay_issue.
      destruct (10000 <=? ms); [| destruct (1000 <=? ms)];
        [by apply Forall_singleton | by apply Forall_singleton | by apply Forall_nil].
    + destruct (search _ _); [by apply Forall_singleton | by apply Forall_nil].
    + destruct (_ && _); [by apply Forall_singleton | by apply Forall_nil].
  - apply emits_all_emitted. unfold _check_safety. unplaced_step.
  - apply emits_all_emitted. unfold _check_style.
    apply emits_all_get_code, emits_all_seq; [unplaced_step |].
    eapply emits_all_lift; [apply int_truediv_ok; lia |]. unplaced_step.
Qed.

End Unplaced.


Section Short.

Variable code : string.

Lemma check_safety_short :
  Str.len code ≤ 500 →
  emitted _check_safety code
  = if Str.contains "Serial.begin" code then [] else [missing_serial_issue].
Proof.
  intros Hlen. erewrite emits_emitted.
  2: { unfold _check_safety. apply emits_get_code.
       apply emits_seq; apply emits_when, emits_append. }
  destruct (Z.ltb_spec 500 (Str.len code)); [lia |].
  rewrite andb_false_r. by destruct (Str.contains "Serial.begin" code).
Qed.

Lemma check_style_short :
  Str.len code ≤ 200 → len (Str.split "010"%char code) ≤ 30 →
  emitted _check_style code = [].
Proof.
  intros Hlen Hlines. erewrite emits_emitted.
  2: { unfold _check_style. apply emits_get_code.
       apply emits_seq; [apply emits_when, emits_append |].
       eapply emits_lift; [apply int_truediv_ok; lia |].
       apply emits_seq; apply emits_when, emits_append. }
  destruct (Z.ltb_spec 200 (Str.len code)); [lia |].
  destruct (Z.ltb_spec 30 (len (Str.split "010"%char code))); [lia |].
  destruct (Z.ltb_spec 50 (len (Str.split "010"%char code))); [lia |].
  by rewrite !andb_false_r.
Qed.

End Short.

(** X24.  A text of at most 200 characters and 30 lines gets no style issue,
    and no safety issue other than the one of a missing [Serial.begin]. *)
Theorem short_text_rules (code board : string) (self : analyzer) :
  Str.len code ≤ 200 →
  len (Str.split "010"%char code) ≤ 30 →
  ∃ r,
    outcome (analyze (PyStr code) (PyStr board) self) = Ok r
    ∧ Report.issues_by_type r !! "style" = Some []
    ∧ Report.issues_by_type r !! "safety"
      = Some (to_dict <$> if Str.contains "Serial.begin" code then []
                          else [missing_serial_issue]).
Proof.
  intros Hlen Hlines.
  destruct (analyze_fields code board self)
    as (r & mem & Hrun & _ & _ & _ & _ & _ & _ & Ht & _).
  destruct (detected_buckets code (resolve board)) as (_ & _ & _ & H4 & H5).
  exists r. rewrite Hrun, Ht, H4, H5. split; [done |].
  rewrite check_style_short, check_safety_short by (done || lia).
  split; by simplify_map_eq.
Qed.

(** An instance of X24: a sketch of one line. *)
Lemma short_text_rules_witness :
  ∃ r,
    outcome (analyze (PyStr "void setup() {} void loop() {}") (PyStr "esp32dev")
               __init__) = Ok r
    ∧ Report.issues_by_type r !! "style" = Some []
    ∧ Report.issues_by_type r !! "safety"
      = Some (to_dict <$> if Str.contains "Serial.begin" "void setup() {} void loop() {}"
                          then [] else [missing_serial_issue]).
Proof.
  apply (short_text_rules "void setup() {} void loop() {}" "esp32dev" __init__).
  - vm_compute. discriminate.
  - vm_compute. discriminate.
Defined.


(** ** Every match is listed *)

Section Listed.

Lemma append_assoc (a b c : string) : (a +:+ b) +:+ c = a +:+ b +:+ c.
Proof.
  induction a as [|x a IH]; [done |].
  change (String x ((a +:+ b) +:+ c) = String x (a +:+ b +:+ c)). by rewrite IH.
Qed.

Lemma lang_suffix (r : regex) : ∀ s s', lang r s s' → ∃ m, s = m +:+ s'.
Proof.
  induction r as [p|c min|r1 IH1 r2 IH2|r1 IH1 r2 IH2|r1 IH1|r1 IH1|];
    intros s s'; simpl.
  - intros ->. by exists p.
  - intros (d & -> & _). by exists d.
  - intros (s1 & H1 & H2).
    destruct (IH1 _ _ H1) as [m1 ->]. destruct (IH2 _ _ H2) as [m2 ->].
    exists (m1 +:+ m2). by rewrite append_assoc.
  - intros [H | H]; [by eapply IH1 | by eapply IH2].
  - intros [H | ->]; [by eapply IH1 | by exists ""].
  - apply IH1.
  - intros ->. by exists "".
Qed.

(** Two ways to cut a text, the first cut the shorter *)
Lemma append_cut (u : string) :
  ∀ v m s', u +:+ v = m +:+ s' → (String.length u < String.length m)%nat →
            ∃ z, m = u +:+ z ∧ v = z +:+ s' ∧ z ≠ "".
Proof.
  induction u as [|a u IH]; intros v m s' H Hl.
  - exists m. change ("" +:+ v) with v in H.
    split; [done |]. split; [done |]. destruct m; [simpl in Hl; lia | done].
  - destruct m as [|b m]; [simpl in Hl; lia |].
    change (String a (u +:+ v) = String b (m +:+ s')) in H. simpl in Hl.
    injection H as -> H. destruct (IH v m s' H) as (z & -> & -> & Hz); [lia |].
    by exists z.
Qed.

Lemma match_here_complete (r : regex) (prev : option ascii) (s : string) :
  plain r = true → starts r s → is_Some (match_here r prev s).
Proof. intros Hp [s' Hl]. unfold match_here. by eapply rmatch_complete. Qed.

(** Where a match begins that is not covered by the match before it, an
    item is listed. *)
Lemma scan_complete (r : regex) :
  plain r = true → apart r →
  ∀ pre suf prev skip,
    starts r suf →
    (∀ u v, pre +:+ suf = u +:+ v → (String.length u < skip)%nat → ¬ starts r v) →
    ∃ prev' s' g,
      match_here r prev' suf = Some (s', g)
      ∧ item r suf s' g ∈ scan r prev skip (pre +:+ suf).
Proof.
  intros Hp Hap. induction pre as [|a pre IH]; intros suf prev skip Hs Hcov.
  - change ("" +:+ suf) with suf in *.
    destruct skip as [|n]; [| destruct (Hcov "" suf); [done | simpl; lia | done]].
    destruct (match_here_complete r prev suf Hp Hs) as [[s' g] Hm].
    exists prev, s', g. split; [done |].
    destruct suf; simpl; rewrite Hm; apply list_elem_of_here.
  - change (String a pre +:+ suf) with (String a (pre +:+ suf)) in *.
    destruct skip as [|n]; simpl.
    + destruct (match_here r prev (String a (pre +:+ suf))) as [[s' g]|] eqn:Hm.
      * destruct (IH suf (Some a)
                    (Nat.pred (String.length (String a (pre +:+ suf)) - String.length s'))
                    Hs) as (prev' & s1 & g1 & Hm1 & Hin).
        { intros u v Huv Hl.
          pose proof (post_lang _ _ _ _ _ (match_here_post _ _ _ _ _ Hm)) as Hlang.
          destruct (lang_suffix _ _ _ Hlang) as [m Hmm].
          destruct m as [|b m].
          { change ("" +:+ s') with s' in Hmm. rewrite <- Hmm in Hl.
            rewrite Nat.sub_diag in Hl. simpl in Hl. lia. }
          change (String a (pre +:+ suf) = String b (m +:+ s')) in Hmm.
          injection Hmm as <- Hmm.
          rewrite Hmm in Hl. simpl String.length in Hl.
          rewrite append_length in Hl.
          destruct (append_cut u v m s') as (z & -> & -> & Hz);
            [congruence | lia |].
          rewrite Hmm in Hlang.
          exact (Hap a (u +:+ z) s' Hlang u z eq_refl Hz). }
        exists prev', s1, g1. split; [done |]. apply elem_of_cons. by right.
      * apply IH; [done |]. intros u v Huv Hl. simpl in Hl. lia.
    + apply IH; [done |]. intros u v Huv Hl.
      apply (Hcov (String a u) v); [| simpl; lia].
      change (String a (pre +:+ suf) = String a (u +:+ v)). by rewrite Huv.
Qed.

(** Two runs of a class that stop at the same place *)
Lemma run_unique (c : cclass) (d : string) :
  ∀ d' x y,
    all_in c d = true → all_in c d' = true → stops c x → stops c y →
    d +:+ x = d' +:+ y → d = d' ∧ x = y.
Proof.
  induction d as [|a d IH]; intros d' x y Hd Hd' Hx Hy H.
  - destruct d' as [|b d']; [done |].
    change (x = String b (d' +:+ y)) in H. subst x. simpl in Hx, Hd'.
    apply andb_prop in Hd' as [Hb _]. congruence.
  - destruct d' as [|b d'].
    + change (String a (d +:+ x) = y) in H. subst y. simpl in Hy, Hd.
      apply andb_prop in Hd as [Ha _]. congruence.
    + change (String a (d +:+ x) = String b (d' +:+ y)) in H.
      simpl in Hd, Hd'. injection H as -> H.
      apply andb_prop in Hd as [_ Hd]. apply andb_prop in Hd' as [_ Hd'].
      by destruct (IH d' x y Hd Hd' Hx Hy H) as [-> ->].
Qed.

Lemma avoids_append (a : ascii) (u v : string) :
  avoids a (u +:+ v) = avoids a u && avoids a v.
Proof.
  induction u as [|b u IH]; [done |].
  change (avoids a (String b (u +:+ v)) = avoids a (String b u) && avoids a v).
  simpl. by rewrite IH, andb_assoc.
Qed.

Lemma all_in_avoids (c : cclass) (a : ascii) (d : string) :
  in_class c a = false → all_in c d = true → avoids a d = true.
Proof.
  intros Ha. induction d as [|b d IH]; simpl; [done |].
  intros [Hb Hd]%andb_prop. rewrite (IH Hd), andb_true_r.
  destruct (Ascii.eqb_spec b a) as [-> |]; [congruence | done].
Qed.

(** A text without the first character of every match holds no match. *)
Lemma avoids_clear (r : regex) (a : ascii) (t rest : string) :
  (∀ s, starts r s → ∃ s0, s = String a s0) →
  avoids a t = true → clear r t rest.
Proof.
  intros Hfirst Ht u v -> Hv Hs. rewrite avoids_append in Ht.
  apply andb_prop in Ht as [_ Ht].
  destruct v as [|b v]; [done |]. simpl in Ht.
  apply andb_prop in Ht as [Hb _].
  destruct (Hfirst _ Hs) as [s0 [= -> _]]. by rewrite Ascii.eqb_refl in Hb.
Qed.

Lemma clear_append (r : regex) (t1 t2 rest : string) :
  clear r t1 (t2 +:+ rest) → clear r t2 rest → clear r (t1 +:+ t2) rest.
Proof.
  intros H1 H2 u v Huv Hv Hs.
  destruct (le_lt_dec (String.length t1) (String.length u)) as [Hl | Hl].
  - assert (∃ z, u = t1 +:+ z ∧ t2 = z +:+ v) as (z & -> & ->).
    { clear -Huv Hl. revert u Huv Hl.
      induction t1 as [|a t1 IH]; intros u Huv Hl; [by exists u |].
      destruct u as [|b u]; [simpl in Hl; lia |].
      change (String a (t1 +:+ t2) = String b (u +:+ v)) in Huv. simpl in Hl.
      injection Huv as -> Huv. destruct (IH u Huv) as (z & -> & ->); [lia |].
      by exists z. }
    by eapply (H2 z v).
  - destruct (append_cut u v t1 t2) as (z & -> & -> & Hz); [done | done |].
    eapply (H1 u z); [done | done |]. by rewrite <- append_assoc.
Qed.

End Listed.

Section Classes.

Lemma space_word_disjoint (a : ascii) : is_space a && is_word a = false.
Proof. destruct a as [[] [] [] [] [] [] [] []]; reflexivity. Qed.

Lemma space_not_word (a : ascii) :
  in_class c_space a = true → in_class c_word a = false.
Proof.
  simpl. intros H. pose proof (space_word_disjoint a) as Hd.
  rewrite H in Hd. exact Hd.
Qed.

Lemma word_not_space (a : ascii) :
  in_class c_word a = true → in_class c_space a = false.
Proof.
  simpl. intros H. pose proof (space_word_disjoint a) as Hd.
  rewrite H, andb_true_r in Hd. exact Hd.
Qed.

Lemma digit_word (a : ascii) : is_digit a = true → is_word a = true.
Proof. destruct a as [[] [] [] [] [] [] [] []]; (reflexivity || discriminate). Qed.

Lemma digit_not_space (a : ascii) :
  in_class c_digit a = true → in_class c_space a = false.
Proof. simpl. intros H%digit_word. by apply word_not_space. Qed.

Lemma space_not_digit (a : ascii) :
  in_class c_space a = true → in_class c_digit a = false.
Proof.
  simpl. intros H. destruct (is_digit a) eqn:E; [| done].
  apply digit_not_space in E. simpl in E. congruence.
Qed.

(** After a run of the class [c'], whose characters are not of [c], and
    then [x], the text does not go on with a character of [c]. *)
Lemma stops_run (c c' : cclass) (d x : string) :
  (∀ a, in_class c' a = true → in_class c a = false) →
  all_in c' d = true → stops c x → stops c (d +:+ x).
Proof.
  intros Hc Hd Hx. destruct d as [|a d]; [done |].
  simpl in Hd. apply andb_prop in Hd as [Ha _]. by apply Hc.
Qed.

Lemma stops_nonempty (c c' : cclass) (d x : string) :
  (∀ a, in_class c' a = true → in_class c a = false) →
  all_in c' d = true → d ≠ "" → stops c (d +:+ x).
Proof.
  intros Hc Hd Hne. destruct d as [|a d]; [done |].
  simpl in Hd. apply andb_prop in Hd as [Ha _]. by apply Hc.
Qed.

Lemma append_cancel_l (p x y : string) : p +:+ x = p +:+ y → x = y.
Proof.
  induction p as [|a p IH]; [done |].
  change (String a (p +:+ x) = String a (p +:+ y) → x = y).
  intros [= H]. by apply IH.
Qed.

Lemma append_cancel_r (s : string) : ∀ m x, m +:+ s = x +:+ s → m = x.
Proof.
  intros m x H.
  assert (String.length m = String.length x) as Hl.
  { apply (f_equal String.length) in H. rewrite !append_length in H. lia. }
  revert x H Hl. induction m as [|a m IH]; intros [|b x] H Hl;
    try done; try (simpl in Hl; lia).
  change (String a (m +:+ s) = String b (x +:+ s)) in H.
  injection H as -> H. f_equal. apply IH; [done | simpl in Hl; lia].
Qed.

End Classes.

Section DelayCalls.

Lemma delay_lang (s s' : string) :
  lang delay_pattern s s'
  ↔ ∃ d1 d2 n d3,
      blank d1 ∧ blank d2 ∧ numeral n ∧ blank d3
      ∧ s = "delay" +:+ d1 +:+ "(" +:+ d2 +:+ n +:+ d3 +:+ ")" +:+ s'.
Proof.
  unfold blank, numeral. split.
  - simpl. intros (s1 & -> & s2 & (d1 & -> & Hd1 & _) & s3 & -> & s4
      & (d2 & -> & Hd2 & _) & s5 & (n & -> & Hn & Hl) & s6 & (d3 & -> & Hd3 & _) & ->).
    exists d1, d2, n, d3. rewrite <- nonempty_length. by repeat split.
  - intros (d1 & d2 & n & d3 & Hd1 & Hd2 & [Hn Hne] & Hd3 & ->). simpl.
    eexists. split; [reflexivity |].
    eexists. split; [exists d1; repeat split; [done | lia] |].
    eexists. split; [reflexivity |].
    eexists. split; [exists d2; repeat split; [done | lia] |].
    eexists. split; [exists n; repeat split; [done | by apply nonempty_length] |].
    eexists. split; [exists d3; repeat split; [done | lia] |].
    reflexivity.
Qed.

Lemma delay_apart : apart delay_pattern.
Proof.
  intros a m s' (d1 & d2 & n & d3 & Hd1 & Hd2 & [Hn _] & Hd3 & H)%delay_lang.
  change (String a (m +:+ s')
          = String "d" ("elay" +:+ d1 +:+ "(" +:+ d2 +:+ n +:+ d3 +:+ ")" +:+ s')) in H.
  injection H as -> H.
  assert (m = "elay" +:+ d1 +:+ "(" +:+ d2 +:+ n +:+ d3 +:+ ")") as ->.
  { apply (append_cancel_r s'). rewrite H. by rewrite !append_assoc. }
  eapply (avoids_clear _ "d"%char).
  - intros s [s'' (e1 & e2 & k & e3 & _ & _ & _ & _ & ->)%delay_lang]. by eexists.
  - rewrite !avoids_append.
    rewrite (all_in_avoids c_space "d" d1), (all_in_avoids c_space "d" d2),
      (all_in_avoids c_digit "d" n), (all_in_avoids c_space "d" d3); done.
Qed.

(** The duration that the matcher reads at a delay call is the one
    written there. *)
Lemma delay_item (prev : option ascii) (suf s' : string) (g : option string)
  (d1 d2 n d3 post : string) :
  blank d1 → blank d2 → numeral n → blank d3 →
  suf = "delay" +:+ d1 +:+ "(" +:+ d2 +:+ n +:+ d3 +:+ ")" +:+ post →
  match_here delay_pattern prev suf = Some (s', g) →
  item delay_pattern suf s' g = n.
Proof.
  unfold blank. intros Hd1 Hd2 [Hn Hne] Hd3 -> Hm.
  apply match_here_post in Hm. unfold item; simpl has_group. simpl in Hm.
  destruct Hm as (s1 & g1 & [H ->] & s2 & g2 & (e1 & -> & He1 & _ & ->)
    & s3 & g3 & [-> ->] & s4 & g4 & (e2 & -> & He2 & _ & ->)
    & s5 & g5 & [-> (? & k & -> & Hk & Hl & _)]
    & s6 & g6 & (e3 & -> & He3 & _ & ->) & [-> ->]).
  simpl. rewrite consumed_append.
  apply append_cancel_l in H. apply nonempty_length in Hl.
  apply (run_unique c_space) in H as [-> H]; [| done | done | exact eq_refl ..].
  apply (append_cancel_l "(") in H.
  apply (run_unique c_space) in H as [-> H]; [| done | done | ..];
    [| by apply (stops_nonempty c_space c_digit); [apply digit_not_space | |] ..].
  apply (run_unique c_digit) in H as [-> _]; [done | done | done | ..];
    by apply (stops_run c_digit c_space); [apply space_not_digit | |].
Qed.

Lemma delay_durations_complete (code : string) (ms : Z) :
  calls_delay code ms → ms ∈ delay_durations code.
Proof.
  intros (pre & d1 & d2 & n & d3 & post & Hd1 & Hd2 & Hn & Hd3 & <- & ->).
  destruct (scan_complete delay_pattern eq_refl delay_apart pre
              ("delay" +:+ d1 +:+ "(" +:+ d2 +:+ n +:+ d3 +:+ ")" +:+ post) None 0)
    as (prev' & s' & g & Hm & Hin).
  - exists post. apply delay_lang. by exists d1, d2, n, d3.
  - intros u v _ Hl. simpl in Hl. lia.
  - rewrite (delay_item prev' _ s' g d1 d2 n d3 post) in Hin by done.
    unfold delay_durations, findall. apply list_elem_of_fmap. by exists n.
Qed.

End DelayCalls.

Section ArrayDeclarations.

Lemma array_lang (s s' : string) :
  lang large_array_pattern s s'
  ↔ ∃ d1 w d2 d3 n d4,
      blank d1 ∧ d1 ≠ "" ∧ identifier w ∧ blank d2 ∧ blank d3 ∧ numeral n ∧ blank d4
      ∧ s = "char" +:+ d1 +:+ w +:+ d2 +:+ "[" +:+ d3 +:+ n +:+ d4 +:+ "]" +:+ s'.
Proof.
  unfold blank, identifier, numeral. split.
  - simpl. intros (s1 & -> & s2 & (d1 & -> & Hd1 & Hl1) & s3 & (w & -> & Hw & Hlw)
      & s4 & (d2 & -> & Hd2 & _) & s5 & -> & s6 & (d3 & -> & Hd3 & _)
      & s7 & (n & -> & Hn & Hl) & s8 & (d4 & -> & Hd4 & _) & ->).
    exists d1, w, d2, d3, n, d4. rewrite <- !nonempty_length. by repeat split.
  - intros (d1 & w & d2 & d3 & n & d4 & Hd1 & Hn1 & [Hw Hnw] & Hd2 & Hd3
      & [Hn Hne] & Hd4 & ->). simpl.
    eexists. split; [reflexivity |].
    eexists. split; [exists d1; repeat split; [done | by apply nonempty_length] |].
    eexists. split; [exists w; repeat split; [done | by apply nonempty_length] |].
    eexists. split; [exists d2; repeat split; [done | lia] |].
    eexists. split; [reflexivity |].
    eexists. split; [exists d3; repeat split; [done | lia] |].
    eexists. split; [exists n; repeat split; [done | by apply nonempty_length] |].
    eexists. split; [exists d4; repeat split; [done | lia] |].
    reflexivity.
Qed.

Lemma array_first (s : string) :
  starts large_array_pattern s → ∃ s0, s = String "c" s0.
Proof. intros [s' (d1 & w & d2 & d3 & n & d4 & _ & _ & _ & _ & _ & _ & _ & ->)%array_lang]. by eexists. Qed.

(** No declaration begins inside the name of another: the name would go
    on, after [char], with white space and a second name before the
    bracket. *)
Lemma name_clear (w d2 rest : string) :
  all_in c_word w = true → blank d2 →
  clear large_array_pattern w (d2 +:+ "[" +:+ rest).
Proof.
  unfold blank. intros Hw Hd2 u v -> Hv [s' Hs].
  apply array_lang in Hs
    as (e1 & w' & e2 & e3 & n & e4 & He1 & Hn1 & [Hw' Hnw'] & _ & _ & _ & _ & H).
  assert (all_in c_word v = true) as Hwv.
  { clear -Hw. induction u as [|a u IH]; [done |].
    simpl in Hw. apply andb_prop in Hw as [_ Hw]. by apply IH. }
  apply (run_unique c_word) in H as [-> H]; [| done | done | ..].
  - apply (run_unique c_space) in H as [-> H]; [| done | done | exact eq_refl | ].
    + destruct w' as [|b w']; [done |].
      change (String "[" rest = String b (w' +:+ e2 +:+ "[" +:+ e3 +:+ n +:+ e4
                                            +:+ "]" +:+ s')) in H.
      injection H as <- _. simpl in Hw'. discriminate Hw'.
    + by apply (stops_nonempty c_space c_word); [apply word_not_space | |].
  - by apply (stops_run c_word c_space); [apply space_not_word | |].
  - by apply (stops_nonempty c_word c_space); [apply space_not_word | |].
Qed.

Lemma array_apart : apart large_array_pattern.
Proof.
  intros a m s' (d1 & w & d2 & d3 & n & d4 & Hd1 & _ & [Hw _] & Hd2 & Hd3
    & [Hn _] & Hd4 & H)%array_lang.
  change (String a (m +:+ s')
          = String "c" ("har" +:+ d1 +:+ w +:+ d2 +:+ "[" +:+ d3 +:+ n +:+ d4
                        +:+ "]" +:+ s')) in H.
  injection H as -> H.
  assert (m = "har" +:+ d1 +:+ w +:+ (d2 +:+ "[" +:+ d3 +:+ n +:+ d4 +:+ "]")) as ->.
  { apply (append_cancel_r s'). rewrite H. by rewrite !append_assoc. }
  apply clear_append; [| apply clear_append; [| apply clear_append]].
  - by apply (avoids_clear _ "c"%char); [apply array_first |].
  - apply (avoids_clear _ "c"%char); [apply array_first |].
    by apply (all_in_avoids c_space).
  - rewrite !append_assoc. by apply name_clear.
  - apply (avoids_clear _ "c"%char); [apply array_first |].
    rewrite !avoids_append.
    rewrite (all_in_avoids c_space "c" d2), (all_in_avoids c_space "c" d3),
      (all_in_avoids c_digit "c" n), (all_in_avoids c_space "c" d4); done.
Qed.

(** The size that the matcher reads at a declaration is the one written
    there. *)
Lemma array_item (prev : option ascii) (suf s' : string) (g : option string)
  (d1 w d2 d3 n d4 post : string) :
  blank d1 → d1 ≠ "" → identifier w → blank d2 → blank d3 → numeral n → blank d4 →
  suf = "char" +:+ d1 +:+ w +:+ d2 +:+ "[" +:+ d3 +:+ n +:+ d4 +:+ "]" +:+ post →
  match_here large_array_pattern prev suf = Some (s', g) →
  item large_array_pattern suf s' g = n.
Proof.
  unfold blank. intros Hd1 Hn1 [Hw Hnw] Hd2 Hd3 [Hn Hne] Hd4 -> Hm.
  apply match_here_post in Hm. unfold item; simpl has_group. simpl in Hm.
  destruct Hm as (s1 & g1 & [H ->] & s2 & g2 & (e1 & -> & He1 & Hl1 & ->)
    & s3 & g3 & (w' & -> & Hw' & Hlw & ->) & s4 & g4 & (e2 & -> & He2 & _ & ->)
    & s5 & g5 & [-> ->] & s6 & g6 & (e3 & -> & He3 & _ & ->)
    & s7 & g7 & [-> (? & k & -> & Hk & Hl & _)]
    & s8 & g8 & (e4 & -> & He4 & _ & ->) & [-> ->]).
  simpl. rewrite consumed_append.
  apply append_cancel_l in H.
  apply nonempty_length in Hl, Hlw, Hl1.
  apply (run_unique c_space) in H as [-> H]; [| done | done | ..];
    [| by apply (stops_nonempty c_space c_word); [apply word_not_space | |] ..].
  apply (run_unique c_word) in H as [-> H]; [| done | done | ..];
    [| by apply (stops_run c_word c_space); [apply space_not_word | |] ..].
  apply (run_unique c_space) in H as [-> H]; [| done | done | exact eq_refl ..].
  apply (append_cancel_l "[") in H.
  apply (run_unique c_space) in H as [-> H]; [| done | done | ..];
    [| by apply (stops_nonempty c_space c_digit); [apply digit_not_space | |] ..].
  apply (run_unique c_digit) in H as [-> _]; [done | done | done | ..];
    by apply (stops_run c_digit c_space); [apply space_not_digit | |].
Qed.

Lemma declared_sizes_complete (code : string) (size : Z) :
  declares_array code size → size ∈ declared_sizes code.
Proof.
  intros (pre & d1 & w & d2 & d3 & n & d4 & post & Hd1 & Hn1 & Hw & Hd2 & Hd3
    & Hn & Hd4 & <- & ->).
  destruct (scan_complete large_array_pattern eq_refl array_apart pre
              ("char" +:+ d1 +:+ w +:+ d2 +:+ "[" +:+ d3 +:+ n +:+ d4 +:+ "]" +:+ post)
              None 0)
    as (prev' & s' & g & Hm & Hin).
  - exists post. apply array_lang. by exists d1, w, d2, d3, n, d4.
  - intros u v _ Hl. simpl in Hl. lia.
  - rewrite (array_item prev' _ s' g d1 w d2 d3 n d4 post) in Hin by done.
    unfold declared_sizes, findall. apply list_elem_of_fmap. by exists n.
Qed.

End ArrayDeclarations.

Section Reported.

Variable code : string.
Variable board_info : BoardInfo.

Lemma large_array_issue_inj (size1 size2 : Z) :
  message (large_array_issue board_info size1)
  = message (large_array_issue board_info size2) →
  size1 = size2.
Proof.
  unfold large_array_issue. cbn [message]. intros H.
  apply append_cancel_l, append_cancel_r in H. by apply (inj pretty).
Qed.

Lemma delay_issue_inj (ms1 ms2 : Z) (i : CodeIssue) :
  delay_issue board_info ms1 = [i] → i ∈ delay_issue board_info ms2 → ms1 = ms2.
Proof.
  unfold delay_issue.
  destruct (10000 <=? ms1); [| destruct (1000 <=? ms1)]; [| | done];
    intros [= <-];
    (destruct (10000 <=? ms2); [| destruct (1000 <=? ms2)];
     [| | by intros ?%elem_of_nil]);
    intros Hi%list_elem_of_singleton; apply (f_equal message) in Hi;
    cbn [message] in Hi; try discriminate Hi;
    apply append_cancel_l in Hi; apply append_cancel_r in Hi;
    by apply (inj pretty).
Qed.

Lemma detected_memory (i : CodeIssue) :
  type i = "memory" →
  i ∈ detected code board_info ↔ i ∈ emitted (_check_memory_safety board_info) code.
Proof.
  intros Ht. unfold detected. rewrite !elem_of_app.
  pose proof (check_correctness_category code) as H1.
  pose proof (check_performance_category code board_info) as H3.
  pose proof (check_safety_category code) as H4.
  pose proof (check_style_category code) as H5.
  rewrite Forall_forall in H1, H3, H4, H5.
  split; [| intros H; right; by left].
  intros [H | [H | [H | [H | H]]]]; [| done | | |].
  - apply H1 in H. by rewrite Ht in H.
  - apply H3 in H. by rewrite Ht in H.
  - apply H4 in H. by rewrite Ht in H.
  - apply H5 in H. by rewrite Ht in H.
Qed.

Lemma large_array_detected (size : Z) :
  1000 < size →
  large_array_issue board_info size ∈ detected code board_info
  ↔ declares_array code size.
Proof.
  intros Hsize. rewrite detected_memory by done.
  destruct (check_memory_safety_explicit code board_info)
    as (l & s & (_ & _ & _ & Hl) & (_ & _ & _ & Hs) & ->).
  rewrite !elem_of_app. split.
  - intros [H | [H | H]].
    + apply list_elem_of_fmap in H as (n & Hn & Hin).
      apply (f_equal message), large_array_issue_inj in Hn. subst n.
      apply list_elem_of_In, filter_In in Hin as [Hin%list_elem_of_In _].
      pose proof (declared_sizes_sound code) as Hd.
      rewrite Forall_forall in Hd. by apply Hd.
    + destruct (_ && _); [| by apply elem_of_nil in H].
      apply list_elem_of_singleton in H. rewrite <- H in Hl. discriminate Hl.
    + destruct (_ <? _); [| by apply elem_of_nil in H].
      apply list_elem_of_singleton in H. rewrite <- H in Hs. discriminate Hs.
  - intros Hd%declared_sizes_complete. left.
    apply list_elem_of_fmap. exists size. split; [done |].
    apply list_elem_of_In, filter_In. split; [by apply list_elem_of_In |].
    by apply Z.ltb_lt.
Qed.

Lemma delay_detected (ms : Z) (i : CodeIssue) :
  delay_issue board_info ms = [i] →
  i ∈ detected code board_info ↔ calls_delay code ms.
Proof.
  intros Hi.
  assert (type i = "performance") as Ht.
  { revert Hi. unfold delay_issue.
    destruct (10000 <=? ms); [| destruct (1000 <=? ms)]; [| | done];
      by intros [= <-]. }
  assert (∀ ms', i ∈ delay_issue board_info ms' → ms = ms') as Hinj
    by (intros ms'; by apply delay_issue_inj).
  rewrite detected_performance by done.
  destruct (check_performance_explicit code board_info)
    as (s & (_ & _ & _ & Hs) & ->).
  rewrite !elem_of_app. split.
  - intros [H | [H | H]].
    + apply list_elem_of_In, in_concat in H as (l & Hl & H).
      apply list_elem_of_In, list_elem_of_fmap in Hl as (ms' & -> & Hin).
      apply list_elem_of_In, Hinj in H. subst ms'.
      pose proof (delay_durations_sound code) as Hd.
      rewrite Forall_forall in Hd. by apply Hd.
    + destruct (search _ _); [| by apply elem_of_nil in H].
      apply list_elem_of_singleton in H. subst i. revert Hi. unfold delay_issue.
      by destruct (10000 <=? ms); [| destruct (1000 <=? ms)].
    + destruct (_ && _); [| by apply elem_of_nil in H].
      apply list_elem_of_singleton in H. subst i. revert Hi. unfold delay_issue.
      destruct (10000 <=? ms); [| destruct (1000 <=? ms)]; [| | done];
        intros [= E]; rewrite <- E in Hs; discriminate Hs.
  - intros Hd%delay_durations_complete. left.
    apply list_elem_of_In, in_concat. exists (delay_issue board_info ms).
    split; [| rewrite Hi; by left].
    apply list_elem_of_In, list_elem_of_fmap. by exists ms.
Qed.

End Reported.



(** * The client *)

Section Client.

Lemma get_board_specs_cases (board : string) :
  ∃ specs,
    MCPClient.get_board_specs board = Ok specs
    ∧ MCPClient.name specs = name (resolve board)
    ∧ MCPClient.ram_kb specs = total_ram_kb (resolve board)
    ∧ MCPClient.ram_kb specs ∈ [520; 1507; 400].
Proof.
  destruct (decide (board = "esp32dev")) as [-> | H1];
    [eexists; split; [reflexivity |]; repeat split; set_solver |].
  destruct (decide (board = "esp32s3")) as [-> | H2];
    [eexists; split; [reflexivity |]; repeat split; set_solver |].
  destruct (decide (board = "esp32c3")) as [-> | H3];
    [eexists; split; [reflexivity |]; repeat split; set_solver |].
  assert (MCPClient.boards !! board = None) as Hc.
  { unfold MCPClient.boards. rewrite !lookup_insert, lookup_singleton.
    repeat case_decide; congruence. }
  assert (BOARD_SPECS !! board = None) as Hs.
  { unfold BOARD_SPECS. rewrite !lookup_insert, lookup_singleton.
    repeat case_decide; congruence. }
  unfold MCPClient.get_board_specs, resolve. rewrite Hc, Hs.
  eexists; split; [reflexivity |]; repeat split; set_solver.
Qed.

Lemma fallback_run (code board : string) :
  ∃ r,
    MCPClient._fallback_quality_analysis code board = Ok r
    ∧ MCPClient.Fallback.quality_score r
      = 100 - (if Str.contains "void setup()" code then 0 else 20)
            - (if Str.contains "void loop()" code then 0 else 20)
            - (if Str.contains "Serial.begin" code then 0 else 5)
    ∧ MCPClient.Fallback.issues r
      = (if Str.contains "void setup()" code then [] else ["Missing setup() function"])
        ++ (if Str.contains "void loop()" code then [] else ["Missing loop() function"])
    ∧ MCPClient.Fallback.warnings r
      = (if Str.contains "Serial.begin" code then []
         else ["No Serial.begin() - debugging difficult"])
    ∧ MCPClient.Fallback.severity r
      = (if Str.contains "void setup()" code
         then (if Str.contains "void loop()" code then "excellent" else "medium")
         else (if Str.contains "void loop()" code then "medium" else "high")).
Proof.
  unfold MCPClient._fallback_quality_analysis.
  rewrite int_truediv_ok by lia.
  destruct (get_board_specs_cases board) as (specs & -> & _ & _ & Hram).
  assert (∃ q, F64.truediv (F64.ratio (Str.len code) 1024)
                 (F64.of_int (MCPClient.ram_kb specs)) = Ok q) as [q Hq].
  { unfold F64.truediv.
    repeat (apply elem_of_cons in Hram as [-> | Hram]);
      [by eexists | by eexists | by eexists | by apply elem_of_nil in Hram]. }
  destruct (Str.contains "void setup()" code), (Str.contains "void loop()" code),
    (Str.contains "Serial.begin" code); cbn [negb];
    unfold mbind, result_bind; rewrite Hq; eexists; (split; [reflexivity |]);
    repeat split.
Qed.

End Client.

(** X26.  The fallback analysis of the client returns on every text and
    board.  Its score is 100 less 20 for each entry point it misses and 5
    for a missing [Serial.begin]: it is never below 55, so the severity
    critical is never returned; the severity is high when both entry points
    are missing, medium when one is, and excellent otherwise. *)
Theorem fallback_scores (code board : string) :
  let missing (sub : string) := negb (Str.contains sub code) in
  ∃ r,
    MCPClient._fallback_quality_analysis code board = Ok r
    ∧ MCPClient.Fallback.quality_score r
      = 100 - (if missing "void setup()" then 20 else 0)
            - (if missing "void loop()" then 20 else 0)
            - (if missing "Serial.begin" then 5 else 0)
    ∧ 55 ≤ MCPClient.Fallback.quality_score r ≤ 100
    ∧ MCPClient.Fallback.severity r
      = (if missing "void setup()" && missing "void loop()" then "high"
         else if missing "void setup()" || missing "void loop()" then "medium"
         else "excellent")
    ∧ MCPClient.Fallback.severity r ≠ "critical".
Proof.
  intros missing. unfold missing.
  destruct (fallback_run code board) as (r & Hrun & Hq & _ & _ & Hs).
  exists r. split; [done |]. rewrite Hq, Hs.
  destruct (Str.contains "void setup()" code), (Str.contains "void loop()" code),
    (Str.contains "Serial.begin" code); simpl; repeat split; (lia || done).
Qed.


Section Delegation.

Lemma after_calls_analyzer (calls : list (string * string)) :
  ∀ self, is_Some (MCPClient.quality_analyzer self) →
          is_Some (MCPClient.quality_analyzer (after_calls true calls self)).
Proof.
  induction calls as [|[code board] calls IH]; intros self [a Ha]; [by eexists |].
  simpl. unfold MCPClient.analyze_code_quality. rewrite Ha.
  destruct (analyze_fields code board a) as (r & _ & -> & _).
  apply IH. by eexists.
Qed.

Lemma after_calls_fallback (calls : list (string * string)) (self : MCPClient.t) :
  after_calls false calls self = self.
Proof.
  induction calls as [|[code board] calls IH]; [done |]. simpl.
  unfold MCPClient.analyze_code_quality.
  by destruct (MCPClient._fallback_quality_analysis code board).
Qed.

End Delegation.


(** X29.  The fallback analysis misses an entry point whenever the analyzer
    does (it looks for one spelling of the signature where the analyzer
    accepts two), and it warns about [Serial.begin] exactly when the text
    does not hold it. *)
Theorem fallback_covers_entry_points (code board : string) :
  ∃ r,
    MCPClient._fallback_quality_analysis code board = Ok r
    ∧ (missing_setup_issue ∈ detected code (resolve board) →
       "Missing setup() function" ∈ MCPClient.Fallback.issues r)
    ∧ (missing_loop_issue ∈ detected code (resolve board) →
       "Missing loop() function" ∈ MCPClient.Fallback.issues r)
    ∧ ("No Serial.begin() - debugging difficult" ∈ MCPClient.Fallback.warnings r
       ↔ ¬ occurs "Serial.begin" code).
Proof.
  destruct (fallback_run code board) as (r & Hrun & _ & Hi & Hw & _).
  destruct (missing_entry_points_iff code (resolve board)) as [H1 H2].
  exists r. split; [done |]. rewrite Hi, Hw.
  unfold occurs in *. rewrite <- !contains_spec in *.
  split; [| split].
  - intros [Hs _]%H1. destruct (Str.contains "void setup()" code); [done |].
    apply elem_of_app. left. by apply list_elem_of_singleton.
  - intros [Hs _]%H2. destruct (Str.contains "void loop()" code); [done |].
    apply elem_of_app. right. by apply list_elem_of_singleton.
  - destruct (Str.contains "Serial.begin" code); split.
    + by intros ?%elem_of_nil.
    + by intros [].
    + done.
    + intros _. by apply list_elem_of_singleton.
Qed.
